(** * MAPC 2022 agent team (MMD): spatial map, identity resolution and path planner

    A shallow embedding of the planning and coordination core of the
    repository (Python) and the properties stated about it.

    - Python [int] is [Z]; [%] is [Z.modulo] (the result takes the sign of
      the divisor, as in Python) and raises [ZeroDivisionError] when the
      divisor is 0.
    - A Python [dict] is an association list in insertion order
      ([for k, v in d.items()] visits the entries in that order, and the
      order is observable in [merge] and [addRange]); a [set] is a list
      without duplicates.
    - Exceptions are values of [PyError], carried by a small error monad.
    - Python [float] is a type with the operations of the class [PyFloat]:
      the path planner is written once over the class and read at IEEE
      binary64 (the program's arithmetic) and at the real numbers.
    - [MapValue] objects are modelled by value.  In the program every
      [MapValue] held by a map is referenced from one key of one map
      (percept wrappers create a fresh object per cell, [merge] moves the
      objects of the absorbed map, which is then deleted), so an in-place
      [update] of a stored object is the replacement of the entry. *)

From Stdlib Require Import ZArith List Bool String Lia Permutation.
From Stdlib Require Import Reals Lra Floats.
Import ListNotations.
Open Scope Z_scope.

(* ===================================================================== *)
(** * Part I: the embedding                                               *)
(* ===================================================================== *)

(** ** Exceptions *)

Inductive PyError : Type :=
| ZeroDivisionError
| KeyError
| IndexError
| ValueError
| OverflowError
| AttributeError
| NonTermination.   (* a loop that does not end within its fuel *)

Inductive Result (A : Type) : Type :=
| Ok (a : A)
| Raise (e : PyError).
Arguments Ok {A} a.
Arguments Raise {A} e.

Definition bind {A B : Type} (r : Result A) (f : A -> Result B) : Result B :=
  match r with
  | Ok a => f a
  | Raise e => Raise e
  end.

Notation "x <- r ;; k" := (bind r (fun x => k))
  (at level 61, r at next level, right associativity).
Notation "' p <- r ;; k" := (bind r (fun p => k))
  (at level 61, p pattern, r at next level, right associativity).

Definition of_option {A : Type} (e : PyError) (o : option A) : Result A :=
  match o with
  | Some a => Ok a
  | None => Raise e
  end.

(** ** Keys: types with [__eq__] and [__hash__] *)

Class Key (K : Type) := {
  key_eqb : K -> K -> bool;
  key_eqb_spec : forall a b : K, reflect (a = b) (key_eqb a b)
}.

Arguments key_eqb : simpl never.

#[export] Instance Key_string : Key string :=
  {| key_eqb := String.eqb; key_eqb_spec := String.eqb_spec |}.

#[export] Instance Key_Z : Key Z :=
  {| key_eqb := Z.eqb; key_eqb_spec := Z.eqb_spec |}.

(** [k in l] for a list or a set. *)
Fixpoint mem {K : Type} `{Key K} (k : K) (l : list K) : bool :=
  match l with
  | [] => false
  | k' :: l' => key_eqb k k' || mem k l'
  end.

(** [set.add] / [set.update] on a set kept as a duplicate-free list. *)
Definition set_add {K : Type} `{Key K} (k : K) (s : list K) : list K :=
  if mem k s then s else s ++ [k].

Definition set_update {K : Type} `{Key K} (s : list K) (ks : list K) : list K :=
  fold_left (fun acc k => set_add k acc) ks s.

(** [list.remove(k)]: removes the first occurrence. *)
Fixpoint list_remove {K : Type} `{Key K} (k : K) (l : list K) : list K :=
  match l with
  | [] => []
  | k' :: l' => if key_eqb k k' then l' else k' :: list_remove k l'
  end.

(** ** Dictionaries in insertion order *)

Section Dict.
Context {K V : Type} `{Key K}.

Definition dict : Type := list (K * V).

Fixpoint get (m : dict) (k : K) : option V :=
  match m with
  | [] => None
  | (k', v) :: m' => if key_eqb k k' then Some v else get m' k
  end.

(** [k in m] *)
Definition contains (m : dict) (k : K) : bool :=
  match get m k with Some _ => true | None => false end.

(** [m[k] = v]: an existing key keeps its position, a new one goes last. *)
Fixpoint set (m : dict) (k : K) (v : V) : dict :=
  match m with
  | [] => [(k, v)]
  | (k', v') :: m' =>
      if key_eqb k k' then (k', v) :: m' else (k', v') :: set m' k v
  end.

(** [del m[k]] *)
Fixpoint del (m : dict) (k : K) : dict :=
  match m with
  | [] => []
  | (k', v') :: m' => if key_eqb k k' then m' else (k', v') :: del m' k
  end.

Definition keys (m : dict) : list K := map fst m.
Definition values (m : dict) : list V := map snd m.

(** [m[k]], raising [KeyError]. *)
Definition item (m : dict) (k : K) : Result V := of_option KeyError (get m k).

(** [dict(pairs)]: later pairs overwrite earlier ones. *)
Definition dict_of (l : list (K * V)) : dict :=
  fold_left (fun acc kv => set acc (fst kv) (snd kv)) l [].
End Dict.
Arguments dict K V : clear implicits.

(** ** Enumerations (data/coreData/enums.py) *)

Inductive MapValueEnum : Type :=
| EMPTY | OBSTACLE | AGENT | DISPENSER | BLOCK | MARKER | UNKNOWN.

Definition MapValueEnum_eqb (a b : MapValueEnum) : bool :=
  match a, b with
  | EMPTY, EMPTY | OBSTACLE, OBSTACLE | AGENT, AGENT | DISPENSER, DISPENSER
  | BLOCK, BLOCK | MARKER, MARKER | UNKNOWN, UNKNOWN => true
  | _, _ => false
  end.

Inductive Direction : Type := NORTH | EAST | SOUTH | WEST.

Definition Direction_value (d : Direction) : Z :=
  match d with NORTH => 0 | EAST => 1 | SOUTH => 2 | WEST => 3 end.

(** [Direction(v)]: the member with that value; [ValueError] otherwise. *)
Definition Direction_of_value (v : Z) : Result Direction :=
  if v =? 0 then Ok NORTH
  else if v =? 1 then Ok EAST
  else if v =? 2 then Ok SOUTH
  else if v =? 3 then Ok WEST
  else Raise ValueError.

Definition opposite (d : Direction) : Direction :=
  match d with NORTH => SOUTH | EAST => WEST | SOUTH => NORTH | WEST => EAST end.

Definition isOppositeDirection (self other : Direction) : bool :=
  (Direction_value self + Direction_value other) mod 2 =? 0.

Definition isSameDirection (self other : Direction) : bool :=
  Direction_value self =? Direction_value other.

Definition getAdjacentDirections (self : Direction) : Result (Direction * Direction) :=
  l <- Direction_of_value ((Direction_value self + 1) mod 4) ;;
  r <- Direction_of_value ((Direction_value self - 1) mod 4) ;;
  Ok (l, r).

Definition Direction_eqb (a b : Direction) : bool :=
  Direction_value a =? Direction_value b.

Inductive RotateDirection : Type := CLOCKWISE | COUNTERCLOCKWISE.

Inductive AgentActionEnum : Type := ActMOVE | ActCLEAR.

(** ** Coordinates (data/coreData/coordinate.py) *)

(** The fields [x] and [y] of the class. *)
Record Coordinate : Type := XY { cx : Z; cy : Z }.

(** The class attributes [Coordinate.maxWidth] and [Coordinate.maxHeight]:
    process-wide, [None] until the dimension is discovered. *)
Record Dims : Type := { maxWidth : option Z; maxHeight : option Z }.

Definition no_dims : Dims := {| maxWidth := None; maxHeight := None |}.

Definition Coordinate_eqb (a b : Coordinate) : bool :=
  (cx a =? cx b) && (cy a =? cy b).

(** [normalize]: [x % maxWidth] and [y % maxHeight] for the dimensions that
    are set.  Python raises [ZeroDivisionError] for a dimension 0;
    [normalize_checked] is the function with that error, [normalize] the
    same function where no dimension is 0 (in particular under
    [dims_ok]). *)
Definition pymod (a b : Z) : Result Z :=
  if b =? 0 then Raise ZeroDivisionError else Ok (a mod b).

Definition normalize_checked (d : Dims) (c : Coordinate) : Result Coordinate :=
  x' <- match maxWidth d with Some w => pymod (cx c) w | None => Ok (cx c) end ;;
  y' <- match maxHeight d with Some h => pymod (cy c) h | None => Ok (cy c) end ;;
  Ok (XY x' y').

Definition normalize (d : Dims) (c : Coordinate) : Coordinate :=
  XY (match maxWidth d with Some w => cx c mod w | None => cx c end)
     (match maxHeight d with Some h => cy c mod h | None => cy c end).

Definition dim_pos (o : option Z) : Prop :=
  match o with Some w => 0 < w | None => True end.

(** Both dimensions, where set, are positive (what [calculateMapGridSize]
    stores when the sighting lies within the vision radius). *)
Definition dims_ok (d : Dims) : Prop := dim_pos (maxWidth d) /\ dim_pos (maxHeight d).

(** [Coordinate(x, y, normalize)] on integers: the rounding toward zero of
    the constructor is the identity on [int]. *)
Definition Coord (d : Dims) (x y : Z) (norm : bool) : Coordinate :=
  if norm then normalize d (XY x y) else XY x y.

Definition step (dir : Direction) (c : Coordinate) : Coordinate :=
  match dir with
  | NORTH => XY (cx c) (cy c - 1)
  | EAST => XY (cx c + 1) (cy c)
  | SOUTH => XY (cx c) (cy c + 1)
  | WEST => XY (cx c - 1) (cy c)
  end.

(** [move]: the in-place update, returned as the new value. *)
Definition move (d : Dims) (self : Coordinate) (directions : list Direction)
    (norm : bool) : Coordinate :=
  let c := fold_left (fun c dir => step dir c) directions self in
  if norm then normalize d c else c.

Definition negate (self : Coordinate) : Coordinate :=
  XY (-1 * cx self) (-1 * cy self).

Definition getMovedCoord (d : Dims) (self : Coordinate) (directions : list Direction)
    (norm : bool) : Coordinate :=
  move d (Coord d (cx self) (cy self) norm) directions norm.

Definition getShiftedCoordinate (d : Dims) (self offsetCoordinate : Coordinate)
    (norm : bool) : Coordinate :=
  Coord d (cx self + cx offsetCoordinate) (cy self + cy offsetCoordinate) norm.

Definition copy (d : Dims) (self : Coordinate) (norm : bool) : Coordinate :=
  Coord d (cx self) (cy self) norm.

Definition origo (d : Dims) : Coordinate := Coord d 0 0 true.

(** One axis of [getRelativeCoordinate]: with the dimension set, the
    representative of the difference of smaller absolute value among
    [diff % w] and [diff % (-w)] (the negative one on a tie).  As with
    [normalize], Python raises [ZeroDivisionError] for a dimension 0 and
    the definition is the function where no dimension is 0: the theorems
    that say a call returns assume [dims_ok]. *)
Definition wrapDifference (o : option Z) (diff : Z) : Z :=
  match o with
  | Some w =>
      let realCoordPos := diff mod w in
      let realCoordNeg := diff mod ((-1) * w) in
      if Z.abs realCoordPos <? Z.abs realCoordNeg then realCoordPos else realCoordNeg
  | None => diff
  end.

Definition getRelativeCoordinate (d : Dims) (start end_ : Coordinate) : Coordinate :=
  let xDifference := cx end_ - cx start in
  let yDifference := cy end_ - cy start in
  XY (wrapDifference (maxWidth d) xDifference) (wrapDifference (maxHeight d) yDifference).

Definition manhattanDistance (d : Dims) (start end_ : Coordinate) : Z :=
  let relCoord := getRelativeCoordinate d start end_ in
  Z.abs (cx relCoord) + Z.abs (cy relCoord).

(** The radicand of [distance]: [distance = sqrt(distanceSquared)]. *)
Definition distanceSquared (d : Dims) (start end_ : Coordinate) : Z :=
  let relCoord := getRelativeCoordinate d start end_ in
  cx relCoord ^ 2 + cy relCoord ^ 2.

Definition getDirection (d : Dims) (start end_ : Coordinate) : Direction :=
  let relCoord := getRelativeCoordinate d start end_ in
  if (cx relCoord =? 0) && (0 <? cy relCoord) then SOUTH
  else if (0 <? cx relCoord) && (cy relCoord =? 0) then EAST
  else if (cx relCoord =? 0) && (cy relCoord <? 0) then NORTH
  else if (cx relCoord <? 0) && (cy relCoord =? 0) then WEST
  else if Z.abs (cy relCoord) <=? Z.abs (cx relCoord) then
    if 0 <? cx relCoord then EAST else WEST
  else
    if 0 <? cy relCoord then SOUTH else NORTH.

Definition getRotateDirection (self : Coordinate) (direction : Direction) : RotateDirection :=
  match direction with
  | NORTH => if 0 <? cx self then CLOCKWISE else COUNTERCLOCKWISE
  | EAST => if 0 <? cy self then CLOCKWISE else COUNTERCLOCKWISE
  | SOUTH => if 0 <? cx self then COUNTERCLOCKWISE else CLOCKWISE
  | WEST => if 0 <? cy self then COUNTERCLOCKWISE else CLOCKWISE
  end.

Definition getRotatedRelCoord (self : Coordinate) (direction : RotateDirection) : Coordinate :=
  match direction with
  | CLOCKWISE => XY (cy self * (-1)) (cx self)
  | COUNTERCLOCKWISE => XY (cy self) (cx self * (-1))
  end.

(** [range(a, b)] *)
Definition range (a b : Z) : list Z :=
  map (fun i => a + Z.of_nat i) (seq 0 (Z.to_nat (b - a))).

Lemma Coordinate_eqb_spec (a b : Coordinate) : reflect (a = b) (Coordinate_eqb a b).
Proof.
  unfold Coordinate_eqb. destruct a as [ax ay], b as [bx b_y]; simpl.
  destruct (Z.eqb_spec ax bx), (Z.eqb_spec ay b_y); simpl; constructor; congruence.
Qed.

#[export] Instance Key_Coordinate : Key Coordinate :=
  {| key_eqb := Coordinate_eqb; key_eqb_spec := Coordinate_eqb_spec |}.

(** [neighbors(normalize, searchRange, distant)] *)
Definition neighbors (d : Dims) (self : Coordinate) (norm : bool)
    (searchRange distant : Z) : list Coordinate :=
  let cells :=
    flat_map (fun i =>
      flat_map (fun j =>
        let coord := Coord d i j norm in
        if (manhattanDistance d self coord <=? searchRange)
           && (distant <=? manhattanDistance d self coord)
        then [coord] else [])
        (range (cy self - searchRange) (cy self + searchRange + 1)))
      (range (cx self - searchRange) (cx self + searchRange + 1)) in
  if mem self cells then list_remove self cells else cells.

Definition getSurroundingNeighbors (d : Dims) (self : Coordinate) (norm : bool)
    : list Coordinate :=
  neighbors d self norm 1 0
    ++ [ getShiftedCoordinate d self (Coord d 1 1 norm) true;
         getShiftedCoordinate d self (Coord d 1 (-1) norm) true;
         getShiftedCoordinate d self (Coord d (-1) 1 norm) true;
         getShiftedCoordinate d self (Coord d (-1) (-1) norm) true ].

(** ** Cell entries (data/coreData/mapValue.py) *)

Record MapValue : Type := MkMapValue {
  value : MapValueEnum;
  details : string;
  simulationStep : Z
}.

(** [MapValue.__eq__] *)
Definition MapValue_eqb (self other : MapValue) : bool :=
  MapValueEnum_eqb (value self) (value other)
  && (simulationStep self =? simulationStep other)
  && (String.eqb (details self) (details other)
      || (MapValueEnum_eqb (value self) AGENT && (simulationStep self =? 0))).

(** ** Dispenser index (data/map/dispenserMap.py) *)

Definition DispenserMap : Type := dict string (list Coordinate).

Definition addDispenser (dispensers : DispenserMap) (type : string) (coordinate : Coordinate)
    : DispenserMap :=
  match get dispensers type with
  | None => set dispensers type (set_add coordinate [])
  | Some ds => set dispensers type (set_add coordinate ds)
  end.

Definition getAllDispenserCoords (dispensers : DispenserMap) : list Coordinate :=
  flat_map snd dispensers.

(** The types whose set holds the coordinate, in dictionary order. *)
Definition dispenserTypesAt (dispensers : DispenserMap) (coordinate : Coordinate) : list string :=
  map fst (filter (fun tds => mem coordinate (snd tds)) dispensers).

(** [[type for ...][0]] raises [IndexError] on an empty list. *)
Definition getDispenserMapValueByCoord (dispensers : DispenserMap) (coordinate : Coordinate)
    : Result MapValue :=
  match dispenserTypesAt dispensers coordinate with
  | type :: _ => Ok (MkMapValue DISPENSER type 0)
  | [] => Raise IndexError
  end.

(** ** Percept snapshot (data/map/mapUpdateData.py) *)

Record MapUpdateData : Type := {
  things : dict Coordinate MapValue;
  uMarkers : dict Coordinate MapValue;
  uDispensers : dict Coordinate MapValue;
  uGoalZones : list Coordinate;
  uRoleZones : list Coordinate
}.

(** ** The spatial map (data/map/dynamicMap.py) *)

Record DynamicMap : Type := {
  mapId : Z;
  markerPurgeInterval : Z;
  unknownCoordSearchMaxIter : Z;
  agentCoordinates : dict string Coordinate;
  agentStartingCoordinates : dict string Coordinate;
  agentCoordReservations : dict string (list Coordinate);
  store : dict Coordinate MapValue;
  markers : dict Coordinate MapValue;
  dispenserMap : DispenserMap;
  roleZones : list Coordinate;
  goalZones : list Coordinate
}.

(** [DynamicMap.__init__] without initial percept. *)
Definition newDynamicMap (d : Dims) (id : Z) (agentId : string)
    (markerPurgeInterval_ unknownCoordSearchMaxIter_ : Z) : DynamicMap :=
  {| mapId := id; markerPurgeInterval := markerPurgeInterval_;
     unknownCoordSearchMaxIter := unknownCoordSearchMaxIter_;
     agentCoordinates := [(agentId, origo d)];
     agentStartingCoordinates := [(agentId, origo d)];
     agentCoordReservations := [];
     store := []; markers := []; dispenserMap := [];
     roleZones := []; goalZones := [] |}.

(** A map with the given cells, markers and dispensers recorded. *)
Definition withContents (self : DynamicMap) (store_ markers_ : dict Coordinate MapValue)
    (dispensers_ : DispenserMap) : DynamicMap :=
  {| mapId := mapId self; markerPurgeInterval := markerPurgeInterval self;
     unknownCoordSearchMaxIter := unknownCoordSearchMaxIter self;
     agentCoordinates := agentCoordinates self;
     agentStartingCoordinates := agentStartingCoordinates self;
     agentCoordReservations := agentCoordReservations self;
     store := store_; markers := markers_; dispenserMap := dispensers_;
     roleZones := roleZones self; goalZones := goalZones self |}.

(** A map with the given goal zones. *)
Definition withGoalZones (self : DynamicMap) (goalZones_ : list Coordinate) : DynamicMap :=
  {| mapId := mapId self; markerPurgeInterval := markerPurgeInterval self;
     unknownCoordSearchMaxIter := unknownCoordSearchMaxIter self;
     agentCoordinates := agentCoordinates self;
     agentStartingCoordinates := agentStartingCoordinates self;
     agentCoordReservations := agentCoordReservations self;
     store := store self; markers := markers self; dispenserMap := dispenserMap self;
     roleZones := roleZones self; goalZones := goalZones_ |}.

Definition getMapValue (self : DynamicMap) (key : Coordinate)
    (needMarker needDispenser : bool) : Result MapValue :=
  match (if needMarker then get (markers self) key else None) with
  | Some marker => Ok marker
  | None =>
      match get (store self) key with
      | Some v =>
          let isDispenser := mem key (getAllDispenserCoords (dispenserMap self)) in
          if needDispenser && isDispenser then
            getDispenserMapValueByCoord (dispenserMap self) key
          else if isDispenser
                  && negb (MapValueEnum_eqb (value v) AGENT || MapValueEnum_eqb (value v) BLOCK)
          then getDispenserMapValueByCoord (dispenserMap self) key
          else Ok v
      | None => Ok (MkMapValue UNKNOWN "" 0)
      end
  end.

Definition getMapValueEnum (self : DynamicMap) (key : Coordinate)
    (needMarker needDispenser : bool) : Result MapValueEnum :=
  v <- getMapValue self key needMarker needDispenser ;;
  Ok (value v).

(** All cells claimed by some agent: [[c for rs in ...values() for c in rs]]. *)
Definition reservedCoordinates (self : DynamicMap) : list Coordinate :=
  flat_map snd (agentCoordReservations self).

Definition isCoordinateReservedForTask (self : DynamicMap) (coordinate : Coordinate) : bool :=
  mem coordinate (reservedCoordinates self).

(** *** [addRange] *)

(** First loop of [addRange], one entry of [updateData.things]: the cell
    (newer step wins), a marker that disappeared, a goal zone that
    disappeared. *)
Definition addThing (updateData : MapUpdateData)
    (st : DynamicMap * list Coordinate) (entry : Coordinate * MapValue)
    : DynamicMap * list Coordinate :=
  let '(self, deletableGoalZones) := st in
  let '(coord, mapValue) := entry in
  let store1 :=
    match get (store self) coord with
    | None => set (store self) coord mapValue
    | Some old =>
        if simulationStep old <? simulationStep mapValue
        then set (store self) coord mapValue
        else store self
    end in
  let markers1 :=
    if contains (markers self) coord && negb (contains (uMarkers updateData) coord)
    then del (markers self) coord else markers self in
  let deletable1 :=
    if mem coord (goalZones self) && negb (mem coord (uGoalZones updateData))
    then deletableGoalZones ++ [coord] else deletableGoalZones in
  ({| mapId := mapId self; markerPurgeInterval := markerPurgeInterval self;
      unknownCoordSearchMaxIter := unknownCoordSearchMaxIter self;
      agentCoordinates := agentCoordinates self;
      agentStartingCoordinates := agentStartingCoordinates self;
      agentCoordReservations := agentCoordReservations self;
      store := store1; markers := markers1; dispenserMap := dispenserMap self;
      roleZones := roleZones self; goalZones := goalZones self |}, deletable1).

(** Second loop: the observed markers are recorded. *)
Definition addMarkers (ms : dict Coordinate MapValue) (seen : dict Coordinate MapValue)
    : dict Coordinate MapValue :=
  fold_left (fun acc entry => set acc (fst entry) (snd entry)) seen ms.

(** Third loop, over a snapshot of the keys: old markers are deleted. *)
Definition purgeMarker (simulationStep_ interval : Z)
    (acc : Result (dict Coordinate MapValue)) (markerCoords : Coordinate)
    : Result (dict Coordinate MapValue) :=
  cur <- acc ;;
  m <- item cur markerCoords ;;
  if interval <=? simulationStep_ - simulationStep m
  then Ok (del cur markerCoords) else Ok cur.

Definition purgeMarkers (simulationStep_ interval : Z) (ms : dict Coordinate MapValue)
    : Result (dict Coordinate MapValue) :=
  fold_left (purgeMarker simulationStep_ interval) (keys ms) (Ok ms).

(** [deleteGoalZones]: [set.remove] raises [KeyError] on a missing element. *)
Fixpoint deleteGoalZones (zones : list Coordinate) (deletable : list Coordinate)
    : Result (list Coordinate) :=
  match deletable with
  | [] => Ok zones
  | current :: rest =>
      if mem current zones then deleteGoalZones (list_remove current zones) rest
      else Raise KeyError
  end.

Definition addDispensers (dm : DispenserMap) (seen : dict Coordinate MapValue) : DispenserMap :=
  fold_left (fun acc entry => addDispenser acc (details (snd entry)) (fst entry)) seen dm.

Definition addRange (self : DynamicMap) (simulationStep_ : Z) (updateData : MapUpdateData)
    : Result DynamicMap :=
  let '(self1, deletableGoalZones) :=
    fold_left (addThing updateData) (things updateData) (self, []) in
  let markers2 := addMarkers (markers self1) (uMarkers updateData) in
  markers3 <- purgeMarkers simulationStep_ (markerPurgeInterval self1) markers2 ;;
  let dispensers4 := addDispensers (dispenserMap self1) (uDispensers updateData) in
  let roleZones5 := set_update (roleZones self1) (uRoleZones updateData) in
  goalZones6 <- deleteGoalZones (goalZones self1) deletableGoalZones ;;
  Ok {| mapId := mapId self1; markerPurgeInterval := markerPurgeInterval self1;
        unknownCoordSearchMaxIter := unknownCoordSearchMaxIter self1;
        agentCoordinates := agentCoordinates self1;
        agentStartingCoordinates := agentStartingCoordinates self1;
        agentCoordReservations := agentCoordReservations self1;
        store := store self1; markers := markers3; dispenserMap := dispensers4;
        roleZones := roleZones5;
        goalZones := set_update goalZones6 (uGoalZones updateData) |}.

(** *** [merge] *)

(** [Coordinate(c.x + xDifference, c.y + yDifference)] *)
Definition shiftBy (d : Dims) (xDifference yDifference : Z) (c : Coordinate) : Coordinate :=
  Coord d (cx c + xDifference) (cy c + yDifference) true.

Definition mergeStore (d : Dims) (xDifference yDifference : Z)
    (mine other : dict Coordinate MapValue) : dict Coordinate MapValue :=
  fold_left
    (fun acc entry =>
       let shiftedCoordinate := shiftBy d xDifference yDifference (fst entry) in
       match get acc shiftedCoordinate with
       | None => set acc shiftedCoordinate (snd entry)
       | Some old =>
           if simulationStep old <? simulationStep (snd entry)
           then set acc shiftedCoordinate (snd entry) else acc
       end)
    other mine.

Definition mergeMarkers (d : Dims) (xDifference yDifference : Z)
    (mine other : dict Coordinate MapValue) : dict Coordinate MapValue :=
  fold_left
    (fun acc entry =>
       let shiftedCoordinate := shiftBy d xDifference yDifference (fst entry) in
       match get acc shiftedCoordinate with
       | None => set acc shiftedCoordinate (snd entry)
       | Some old =>
           if simulationStep old <? simulationStep (snd entry)
           then set acc shiftedCoordinate (snd entry) else acc
       end)
    other mine.

Definition mergeAgents (d : Dims) (xDifference yDifference : Z)
    (mine other : dict string Coordinate) : dict string Coordinate :=
  fold_left
    (fun acc entry => set acc (fst entry) (shiftBy d xDifference yDifference (snd entry)))
    other mine.

Definition mergeReservations (d : Dims) (xDifference yDifference : Z)
    (mine other : dict string (list Coordinate)) : dict string (list Coordinate) :=
  fold_left
    (fun acc entry =>
       set acc (fst entry) (map (shiftBy d xDifference yDifference) (snd entry)))
    other mine.

Definition mergeDispensers (d : Dims) (xDifference yDifference : Z)
    (mine other : DispenserMap) : DispenserMap :=
  fold_left
    (fun acc entry =>
       fold_left
         (fun acc' coord => addDispenser acc' (fst entry) (shiftBy d xDifference yDifference coord))
         (snd entry) acc)
    other mine.

Definition merge (d : Dims) (self otherMap : DynamicMap)
    (othersCoordinateInMyMap othersCoordinateInOthersMap : Coordinate)
    : DynamicMap * Coordinate :=
  let xDifference := cx othersCoordinateInMyMap - cx othersCoordinateInOthersMap in
  let yDifference := cy othersCoordinateInMyMap - cy othersCoordinateInOthersMap in
  ({| mapId := mapId self; markerPurgeInterval := markerPurgeInterval self;
      unknownCoordSearchMaxIter := unknownCoordSearchMaxIter self;
      agentCoordinates :=
        mergeAgents d xDifference yDifference (agentCoordinates self) (agentCoordinates otherMap);
      agentStartingCoordinates :=
        mergeAgents d xDifference yDifference
          (agentStartingCoordinates self) (agentStartingCoordinates otherMap);
      agentCoordReservations :=
        mergeReservations d xDifference yDifference
          (agentCoordReservations self) (agentCoordReservations otherMap);
      store := mergeStore d xDifference yDifference (store self) (store otherMap);
      markers := mergeMarkers d xDifference yDifference (markers self) (markers otherMap);
      dispenserMap :=
        mergeDispensers d xDifference yDifference (dispenserMap self) (dispenserMap otherMap);
      roleZones :=
        set_update (roleZones self) (map (shiftBy d xDifference yDifference) (roleZones otherMap));
      goalZones :=
        set_update (goalZones self) (map (shiftBy d xDifference yDifference) (goalZones otherMap))
   |},
   Coord d xDifference yDifference false).

(** *** Goal-zone reservations *)

Definition setReservations (self : DynamicMap) (r : dict string (list Coordinate)) : DynamicMap :=
  {| mapId := mapId self; markerPurgeInterval := markerPurgeInterval self;
     unknownCoordSearchMaxIter := unknownCoordSearchMaxIter self;
     agentCoordinates := agentCoordinates self;
     agentStartingCoordinates := agentStartingCoordinates self;
     agentCoordReservations := r;
     store := store self; markers := markers self; dispenserMap := dispenserMap self;
     roleZones := roleZones self; goalZones := goalZones self |}.

(** The cells [reserveCoordinatesForTask] claims: the surroundings of the
    goal zone and of every block position. *)
Definition cellsToReserve (d : Dims) (goalZone : Coordinate) (blockRelCoords : list Coordinate)
    : list Coordinate :=
  let reservedCoords :=
    goalZone :: map (fun bc => getShiftedCoordinate d goalZone bc true) blockRelCoords in
  flat_map (fun c => getSurroundingNeighbors d c true) reservedCoords.

Definition reserveCoordinatesForTask (d : Dims) (self : DynamicMap) (agentId : string)
    (goalZone : Coordinate) (blockRelCoords : list Coordinate) : DynamicMap :=
  let reservations1 :=
    if contains (agentCoordReservations self) agentId then agentCoordReservations self
    else set (agentCoordReservations self) agentId [] in
  let current := match get reservations1 agentId with Some l => l | None => [] end in
  setReservations self
    (set reservations1 agentId (current ++ cellsToReserve d goalZone blockRelCoords)).

Definition freeCoordinatesFromTask (self : DynamicMap) (agentId : string) : DynamicMap :=
  setReservations self (set (agentCoordReservations self) agentId []).

(** The cells [getFirstFreeGoalZoneForTask] checks for a goal zone: the
    surroundings of the block positions ([reserveableCoords]; the [set]
    built from them removes duplicates, which [all] does not observe). *)
Definition cellsChecked (d : Dims) (goalZone : Coordinate) (blockRelCoords : list Coordinate)
    : list Coordinate :=
  let blockGobalCoords := map (fun bc => getShiftedCoordinate d goalZone bc true) blockRelCoords in
  flat_map (fun c => getSurroundingNeighbors d c true) blockGobalCoords.

(** [all(p(x) for x in l)], stopping at the first [False] or exception. *)
Fixpoint all_result {A : Type} (p : A -> Result bool) (l : list A) : Result bool :=
  match l with
  | [] => Ok true
  | a :: l' => b <- p a ;; if b then all_result p l' else Ok false
  end.

(** [filter(p, l)] with a predicate that may raise. *)
Fixpoint filter_result {A : Type} (p : A -> Result bool) (l : list A) : Result (list A) :=
  match l with
  | [] => Ok []
  | a :: l' =>
      b <- p a ;;
      rest <- filter_result p l' ;;
      Ok (if b then a :: rest else rest)
  end.

Definition cellIsFree (self : DynamicMap) (reservedCoords : list Coordinate) (rc : Coordinate)
    : Result bool :=
  if mem rc reservedCoords then Ok false
  else
    e <- getMapValueEnum self rc false true ;;
    Ok (negb (MapValueEnum_eqb e DISPENSER)).

Fixpoint firstFreeGoalZone (d : Dims) (self : DynamicMap) (reservedCoords : list Coordinate)
    (goalZones_ : list Coordinate) (blockRelCoords : list Coordinate)
    : Result (option Coordinate) :=
  match goalZones_ with
  | [] => Ok None
  | goalZone :: rest =>
      free <- all_result (cellIsFree self reservedCoords) (cellsChecked d goalZone blockRelCoords) ;;
      if free then Ok (Some goalZone)
      else firstFreeGoalZone d self reservedCoords rest blockRelCoords
  end.

Definition getFirstFreeGoalZoneForTask (d : Dims) (self : DynamicMap)
    (goalZones_ : list Coordinate) (blockRelCoords : list Coordinate)
    : Result (option Coordinate) :=
  firstFreeGoalZone d self (reservedCoordinates self) goalZones_ blockRelCoords.

(** [sorted(l, key)]: a stable sort, as insertion from the right. *)
Fixpoint insert_by {A : Type} (key : A -> Z) (a : A) (l : list A) : list A :=
  match l with
  | [] => [a]
  | b :: l' => if key a <=? key b then a :: l else b :: insert_by key a l'
  end.

Definition sorted_by {A : Type} (key : A -> Z) (l : list A) : list A :=
  fold_right (insert_by key) [] l.

(** [Coordinate.distance] is the square root of an integer; the program
    only compares and sorts distances, which is comparing and sorting
    their squares. *)
Definition closerGoalZoneCandidate (d : Dims) (self : DynamicMap)
    (currentGoalZone : option Coordinate) (currentCoordinate c : Coordinate) : Result bool :=
  if Coordinate_eqb c currentCoordinate then Ok true
  else
    e <- getMapValueEnum self c true false ;;
    if negb (MapValueEnum_eqb e DISPENSER || MapValueEnum_eqb e AGENT
             || MapValueEnum_eqb e BLOCK || MapValueEnum_eqb e MARKER)
    then
      Ok (match currentGoalZone with
          | None => true
          | Some cg =>
              distanceSquared d currentCoordinate c <? distanceSquared d currentCoordinate cg
          end)
    else Ok false.

Definition tryReserveCloserGoalZoneForTask (d : Dims) (self : DynamicMap) (agentId : string)
    (currentGoalZone : option Coordinate) (currentCoordinate : Coordinate)
    (blockRelCoords : list Coordinate) : Result (DynamicMap * option Coordinate) :=
  candidates <-
    filter_result (closerGoalZoneCandidate d self currentGoalZone currentCoordinate)
      (goalZones self) ;;
  let goalZones_ := sorted_by (fun c => distanceSquared d c currentCoordinate) candidates in
  result <- getFirstFreeGoalZoneForTask d self goalZones_ blockRelCoords ;;
  match result with
  | Some goalZone =>
      Ok (reserveCoordinatesForTask d (freeCoordinatesFromTask self agentId) agentId
            goalZone blockRelCoords, result)
  | None => Ok (self, result)
  end.

(** ** The map registry (data/server/mapServer.py) *)

Record MapServer : Type := {
  aliasis : dict string Z;
  maps : dict Z DynamicMap;
  nextMapId : Z;
  gridWidth : option Z;
  gridHeight : option Z;
  mapUnknownCoordSearchMaxIter : Z;
  currentDynamicPerceptWrappers : dict string (dict Coordinate MapValue)
}.

(** [MapServer.__init__] *)
Definition newMapServer (mapUnknownCoordSearchMaxIter_ : Z) : MapServer :=
  {| aliasis := []; maps := []; nextMapId := 0;
     gridWidth := None; gridHeight := None;
     mapUnknownCoordSearchMaxIter := mapUnknownCoordSearchMaxIter_;
     currentDynamicPerceptWrappers := [] |}.

Definition setGrid (self : MapServer) (w h : option Z) : MapServer :=
  {| aliasis := aliasis self; maps := maps self; nextMapId := nextMapId self;
     gridWidth := w; gridHeight := h;
     mapUnknownCoordSearchMaxIter := mapUnknownCoordSearchMaxIter self;
     currentDynamicPerceptWrappers := currentDynamicPerceptWrappers self |}.

Definition setMaps (self : MapServer) (a : dict string Z) (m : dict Z DynamicMap) : MapServer :=
  {| aliasis := a; maps := m; nextMapId := nextMapId self;
     gridWidth := gridWidth self; gridHeight := gridHeight self;
     mapUnknownCoordSearchMaxIter := mapUnknownCoordSearchMaxIter self;
     currentDynamicPerceptWrappers := currentDynamicPerceptWrappers self |}.

(** [self.gridWidth is None or widthDifference < self.gridWidth] *)
Definition improves (stored : option Z) (difference : Z) : bool :=
  match stored with
  | None => true
  | Some g => difference <? g
  end.

Definition calculateMapGridSize (self : MapServer)
    (agentCoordinate1 agentCoordinate2 relCoordinate : Coordinate) (agentVision : Z)
    : MapServer :=
  let xDifference := Z.abs (cx agentCoordinate1 - cx agentCoordinate2) in
  let yDifference := Z.abs (cy agentCoordinate1 - cy agentCoordinate2) in
  let widthDifference :=
    Z.abs (cx agentCoordinate1 - cx agentCoordinate2 + cx relCoordinate) in
  let heightDifferece :=
    Z.abs (cy agentCoordinate1 - cy agentCoordinate2 + cy relCoordinate) in
  let w :=
    if improves (gridWidth self) widthDifference && (agentVision <? xDifference)
    then Some widthDifference else gridWidth self in
  let h :=
    if improves (gridHeight self) heightDifferece && (agentVision <? yDifference)
    then Some heightDifferece else gridHeight self in
  setGrid self w h.

(** One discovery event: the arguments of a call. *)
Record Discovery : Type := {
  agentCoordinate1 : Coordinate;
  agentCoordinate2 : Coordinate;
  relCoordinate : Coordinate;
  agentVision : Z
}.

Definition discover (self : MapServer) (e : Discovery) : MapServer :=
  calculateMapGridSize self (agentCoordinate1 e) (agentCoordinate2 e)
    (relCoordinate e) (agentVision e).

(** The dimensions the coordinates use once the registry's values are
    copied to the class attributes (agent/server/intentionGenerator.py,
    [checkAgentIdentifications]). *)
Definition dimsOf (self : MapServer) : Dims :=
  {| maxWidth := gridWidth self; maxHeight := gridHeight self |}.

Definition getMap (self : MapServer) (agentId : string) : Result DynamicMap :=
  alias <- item (aliasis self) agentId ;;
  item (maps self) alias.

Definition getAgentCoordinate (d : Dims) (self : DynamicMap) (agentId : string)
    : Result Coordinate :=
  c <- item (agentCoordinates self) agentId ;;
  Ok (copy d c true).

(** [mergeMaps]; it is called for agents of two different maps. *)
Definition mergeMaps (d : Dims) (self : MapServer) (firstAgentId secondAgentId : string)
    (othersCoordinateInMyMap : Coordinate) : Result (MapServer * Coordinate) :=
  firstMapId <- item (aliasis self) firstAgentId ;;
  secondMapId <- item (aliasis self) secondAgentId ;;
  firstMap <- item (maps self) firstMapId ;;
  secondMap <- item (maps self) secondMapId ;;
  othersCoordinateInOthersMap <- getAgentCoordinate d secondMap secondAgentId ;;
  let '(merged, offsetCoord) :=
    merge d firstMap secondMap othersCoordinateInMyMap othersCoordinateInOthersMap in
  let aliasis1 :=
    map (fun entry => if snd entry =? secondMapId then (fst entry, firstMapId) else entry)
      (aliasis self) in
  Ok (setMaps self aliasis1 (del (set (maps self) firstMapId merged) secondMapId), offsetCoord).

(** *** Identity resolution: [checkAgentIdentifications] *)

(** The state the pass threads: the registry and the two results. *)
Record Identification : Type := {
  server : MapServer;
  coordOffsetForMergedAgents : dict string Coordinate;
  mapBoundaryReached : bool
}.

Definition Candidate : Type := (string * Coordinate)%type.

(** The visible teammates of an agent: [unknownOtherAgents]. *)
Definition isUnknownOtherAgent (d : Dims) (dynamicPercept : dict Coordinate MapValue)
    (entry : Coordinate * MapValue) : Result bool :=
  if MapValueEnum_eqb (value (snd entry)) AGENT && negb (Coordinate_eqb (fst entry) (origo d))
  then
    own <- item dynamicPercept (origo d) ;;
    Ok (String.eqb (details (snd entry)) (details own))
  else Ok false.

Definition unknownOtherAgents (d : Dims) (dynamicPercept : dict Coordinate MapValue)
    : Result (list Coordinate) :=
  l <- filter_result (isUnknownOtherAgent d dynamicPercept) dynamicPercept ;;
  Ok (map fst l).

(** The other agent sees a teammate from the negated perspective. *)
Definition seesFromNegatedPerspective (d : Dims) (agentId : string)
    (dynamicPercept : dict Coordinate MapValue) (otherAgentCoord : Coordinate)
    (otherAgentId : string) (otherDynamicPercept : dict Coordinate MapValue) : Result bool :=
  if negb (String.eqb agentId otherAgentId) then
    match get otherDynamicPercept (negate otherAgentCoord) with
    | Some seen =>
        if MapValueEnum_eqb (value seen) AGENT then
          own <- item dynamicPercept (origo d) ;;
          Ok (String.eqb (details seen) (details own))
        else Ok false
    | None => Ok false
    end
  else Ok false.

(** The surrounding-cell check: a cell seen by both carries the same entry
    ([possible] after the loop with its [break]). *)
Definition contradictionFree (d : Dims) (dynamicPercept : dict Coordinate MapValue)
    (otherAgentCoord : Coordinate) (otherDynamicPercept : dict Coordinate MapValue) : bool :=
  forallb
    (fun entry =>
       let coord := getShiftedCoordinate d otherAgentCoord (fst entry) false in
       match get dynamicPercept coord with
       | Some mine => MapValue_eqb mine (snd entry)
       | None => true
       end)
    otherDynamicPercept.

(** The loop over the other agents for one sighting: a candidate that
    passes is appended to the agent's list. *)
Definition scanOther (d : Dims) (agentId : string)
    (dynamicPercept : dict Coordinate MapValue) (otherAgentCoord : Coordinate)
    (acc : Result (list Candidate)) (other : string * dict Coordinate MapValue)
    : Result (list Candidate) :=
  canditates <- acc ;;
  sees <- seesFromNegatedPerspective d agentId dynamicPercept otherAgentCoord
            (fst other) (snd other) ;;
  if sees && contradictionFree d dynamicPercept otherAgentCoord (snd other)
  then Ok (canditates ++ [(fst other, copy d otherAgentCoord false)])
  else Ok canditates.

Definition scanCandidates (d : Dims) (percepts : dict string (dict Coordinate MapValue))
    (agentId : string) (dynamicPercept : dict Coordinate MapValue)
    (otherAgentCoord : Coordinate) (canditates : list Candidate) : Result (list Candidate) :=
  fold_left (scanOther d agentId dynamicPercept otherAgentCoord) percepts (Ok canditates).

(** [max(dynamicPercept.keys(), key = lambda coord: coord.x).x] *)
Definition maxX (l : list Coordinate) : Result Z :=
  match l with
  | [] => Raise ValueError
  | c :: l' => Ok (fold_left (fun m c' => if m <? cx c' then cx c' else m) l' (cx c))
  end.

(** What follows the scan of one sighting.  The branch taken: nothing, the
    call of [mergeMaps] with the agents of the absorbed map to be updated,
    or the call of [calculateMapGridSize]. *)
Inductive Resolution : Type :=
| NoAction
| MergeMaps (firstAgentId secondAgentId : string) (othersCoordinateInMyMap : Coordinate)
    (agentIdsToBeUpdated : list string)
| CalculateMapGridSize (e : Discovery).

(** The conditions: with exactly one candidate in the list, a merge
    (different maps) or a dimension calculation (same map, coordinates
    that disagree). *)
Definition decideResolution (d : Dims) (self : MapServer) (agentId : string)
    (dynamicPercept : dict Coordinate MapValue) (canditates : list Candidate)
    : Result Resolution :=
  currentAgentMap <- getMap self agentId ;;
  match canditates with
  | [(canditateId, canditateRelCoord)] =>
      currentAgentCoordinate <- getAgentCoordinate d currentAgentMap agentId ;;
      alias1 <- item (aliasis self) agentId ;;
      alias2 <- item (aliasis self) canditateId ;;
      if negb (alias1 =? alias2) then
        canditateMap <- item (maps self) alias2 ;;
        Ok (MergeMaps agentId canditateId
              (getShiftedCoordinate d currentAgentCoordinate canditateRelCoord true)
              (keys (agentCoordinates canditateMap)))
      else
        canditateCoordinate <- getAgentCoordinate d currentAgentMap canditateId ;;
        if negb (Coordinate_eqb canditateCoordinate
                   (getShiftedCoordinate d currentAgentCoordinate canditateRelCoord true))
        then
          c1 <- getAgentCoordinate d currentAgentMap agentId ;;
          c2 <- getAgentCoordinate d currentAgentMap canditateId ;;
          vision <- maxX (keys dynamicPercept) ;;
          Ok (CalculateMapGridSize
                {| agentCoordinate1 := c1; agentCoordinate2 := c2;
                   relCoordinate := canditateRelCoord; agentVision := vision |})
        else Ok NoAction
  | _ => Ok NoAction
  end.

(** The branch bodies. *)
Definition applyResolution (d : Dims) (st : Identification) (r : Resolution)
    : Result Identification :=
  match r with
  | NoAction => Ok st
  | MergeMaps firstAgentId secondAgentId othersCoordinateInMyMap agentIdsToBeUpdated =>
      ' (server1, offsetCoord) <-
        mergeMaps d (server st) firstAgentId secondAgentId othersCoordinateInMyMap ;;
      Ok {| server := server1;
            coordOffsetForMergedAgents :=
              fold_left (fun acc updateableAgentId => set acc updateableAgentId offsetCoord)
                agentIdsToBeUpdated (coordOffsetForMergedAgents st);
            mapBoundaryReached := mapBoundaryReached st |}
  | CalculateMapGridSize e =>
      Ok {| server := discover (server st) e;
            coordOffsetForMergedAgents := coordOffsetForMergedAgents st;
            mapBoundaryReached := true |}
  end.

Definition resolveCandidates (d : Dims) (st : Identification) (agentId : string)
    (dynamicPercept : dict Coordinate MapValue) (canditates : list Candidate)
    : Result Identification :=
  r <- decideResolution d (server st) agentId dynamicPercept canditates ;;
  applyResolution d st r.

(** The body of the loop over the sightings of one agent. *)
Definition identifySighting (d : Dims) (agentId : string)
    (dynamicPercept : dict Coordinate MapValue)
    (acc : Identification * list Candidate) (otherAgentCoord : Coordinate)
    : Result (Identification * list Candidate) :=
  let '(st, canditates) := acc in
  canditates1 <-
    scanCandidates d (currentDynamicPerceptWrappers (server st)) agentId dynamicPercept
      otherAgentCoord canditates ;;
  st1 <- resolveCandidates d st agentId dynamicPercept canditates1 ;;
  Ok (st1, canditates1).

Fixpoint identifySightings (d : Dims) (agentId : string)
    (dynamicPercept : dict Coordinate MapValue)
    (acc : Identification * list Candidate) (sightings : list Coordinate)
    : Result (Identification * list Candidate) :=
  match sightings with
  | [] => Ok acc
  | otherAgentCoord :: rest =>
      acc1 <- identifySighting d agentId dynamicPercept acc otherAgentCoord ;;
      identifySightings d agentId dynamicPercept acc1 rest
  end.

(** The body of the outer loop: one observing agent, whose candidate list
    starts empty. *)
Definition identifyAgent (d : Dims) (st : Identification)
    (agent : string * dict Coordinate MapValue) : Result (Identification * list Candidate) :=
  sightings <- unknownOtherAgents d (snd agent) ;;
  identifySightings d (fst agent) (snd agent) (st, []) sightings.

Definition checkAgentIdentifications (d : Dims) (self : MapServer)
    : Result (MapServer * dict string Coordinate * bool) :=
  st <- fold_left
          (fun acc agent =>
             st <- acc ;;
             r <- identifyAgent d st agent ;;
             Ok (fst r))
          (currentDynamicPerceptWrappers self)
          (Ok {| server := self; coordOffsetForMergedAgents := [];
                 mapBoundaryReached := false |}) ;;
  Ok (server st, coordOffsetForMergedAgents st, mapBoundaryReached st).

(** ** Floating-point numbers *)

(** The operations the planner uses on [float] values. *)
Class PyFloat (F : Type) := {
  ofInt : Z -> F;                 (* an [int] operand of a float operation *)
  tenth : F;                      (* the literal [0.1] *)
  fadd : F -> F -> F;
  fdiv : F -> F -> Result F;      (* [/], raising [ZeroDivisionError] *)
  flt : F -> F -> bool;           (* [<] *)
  fle : F -> F -> bool;           (* [<=] *)
  fltInf : F -> bool;             (* [x < math.inf] *)
  fsqrt : F -> F;                 (* [math.sqrt] *)
  fceil : F -> Result Z           (* [math.ceil] *)
}.

(** *** IEEE binary64 *)

(** [float(z)].  The conversion is Python's for an integer below 2^53 in
    absolute value (coordinates, energies and step counts are): there it
    is exact, so that [a / b] on two such integers, which Python rounds
    once, is the quotient of the two converted operands.  From 2^53 on
    the operands are rounded before the division, and from 2^63 on the
    unsigned 63-bit conversion wraps; the development uses the binary64
    instance at small constants only. *)
Definition float_of_Z (z : Z) : float :=
  match z with
  | Z0 => PrimFloat.of_uint63 (Uint63.of_Z 0)
  | Zpos _ => PrimFloat.of_uint63 (Uint63.of_Z z)
  | Zneg _ => PrimFloat.opp (PrimFloat.of_uint63 (Uint63.of_Z (- z)))
  end.

Definition float_div (a b : float) : Result float :=
  if PrimFloat.eqb b (float_of_Z 0) then Raise ZeroDivisionError
  else Ok (PrimFloat.div a b).

(** [math.ceil]: [OverflowError] on an infinity, [ValueError] on a NaN. *)
Definition float_ceil (a : float) : Result Z :=
  match Prim2SF a with
  | S754_zero _ => Ok 0
  | S754_infinity _ => Raise OverflowError
  | S754_nan => Raise ValueError
  | S754_finite negative m e =>
      if 0 <=? e then Ok ((if negative then -1 else 1) * (Z.pos m * 2 ^ e))
      else
        let q := Z.pos m / 2 ^ (- e) in
        let r := Z.pos m mod 2 ^ (- e) in
        if negative then Ok (- q)
        else Ok (if r =? 0 then q else q + 1)
  end.

#[export] Instance PyFloat_binary64 : PyFloat float := {|
  ofInt := float_of_Z;
  tenth := 0x1.999999999999ap-4%float;
  fadd := PrimFloat.add;
  fdiv := float_div;
  flt := PrimFloat.ltb;
  fle := PrimFloat.leb;
  fltInf := fun a => PrimFloat.ltb a infinity;
  fsqrt := PrimFloat.sqrt;
  fceil := float_ceil
|}.

(** *** Real numbers: the arithmetic without rounding *)

Definition real_div (a b : R) : Result R :=
  if Req_dec_T b 0%R then Raise ZeroDivisionError else Ok (a / b)%R.

Definition real_ceil (a : R) : Result Z :=
  if Req_dec_T (IZR (up a - 1)) a then Ok (up a - 1) else Ok (up a).

#[export] Instance PyFloat_real : PyFloat R := {|
  ofInt := IZR;
  tenth := (1 / 10)%R;
  fadd := Rplus;
  fdiv := real_div;
  flt := fun a b => if Rlt_dec a b then true else false;
  fle := fun a b => if Rle_dec a b then true else false;
  fltInf := fun _ => true;
  fsqrt := R_sqrt.sqrt;
  fceil := real_ceil
|}.

(** ** The path planner (agent/pathfinder/pathFinder.py) *)

Lemma Direction_eqb_spec (a b : Direction) : reflect (a = b) (Direction_eqb a b).
Proof. destruct a, b; simpl; constructor; congruence. Qed.

#[export] Instance Key_Direction : Key Direction :=
  {| key_eqb := Direction_eqb; key_eqb_spec := Direction_eqb_spec |}.

Inductive AgentAction : Type :=
| SkipAction
| MoveAction (directions : list Direction)
| ClearAction (relCoord : Coordinate)
| RotateAction (direction : RotateDirection).

(** [PathFinderData] *)
Record PathFinderData (F : Type) : Type := {
  map_ : DynamicMap;
  start : Coordinate;
  agentSpeed : Z;
  clearEnergyCost : Z;
  agentEnergy : Z;
  agentMaxEnergy : Z;
  clearChance : F;
  clearConstantCost : F;
  maxIteration : Z;
  agentVision_ : Z;
  attachedCoordinates : list Coordinate
}.
Arguments map_ {F} _.
Arguments start {F} _.
Arguments agentSpeed {F} _.
Arguments clearEnergyCost {F} _.
Arguments agentEnergy {F} _.
Arguments agentMaxEnergy {F} _.
Arguments clearChance {F} _.
Arguments clearConstantCost {F} _.
Arguments maxIteration {F} _.
Arguments agentVision_ {F} _.
Arguments attachedCoordinates {F} _.

(** [self.blockClearValue] *)
Definition blockClearValue : Z := 100.

Section Costs.
Context {F : Type} `{PyFloat F}.

(** [calculateTravelConstantCosts]: [(agentTravelTime, clearCost,
    clearSuccessTime)].  [max(agentEnergy - clearEnergyCost, 0.1)] compares
    an [int] with [0.1]: it is [0.1] exactly when the integer is at most 0. *)
Definition calculateTravelConstantCosts (agentSpeed_ clearEnergyCost_ agentEnergy_
    agentMaxEnergy_ : Z) (clearChance_ clearConstantConst : F) : Result (F * F * Z) :=
  agentTravelTime <- fdiv (ofInt 1) (ofInt agentSpeed_) ;;
  let remaining :=
    if agentEnergy_ - clearEnergyCost_ <=? 0 then tenth
    else ofInt (agentEnergy_ - clearEnergyCost_) in
  share <- fdiv remaining (ofInt agentMaxEnergy_) ;;
  clearCost <- fdiv clearConstantConst share ;;
  chances <- fdiv (ofInt 1) clearChance_ ;;
  clearSuccessTime <- fceil chances ;;
  Ok (agentTravelTime, clearCost, clearSuccessTime).

(** [clearCost(clearSuccessTime, clearEnergyCost)] *)
Definition clearCostOf (clearSuccessTime : Z) (clearEnergyCost_ : F) : F :=
  fadd (ofInt clearSuccessTime) clearEnergyCost_.

Definition distanceCostWithoutRotating (endValue : MapValueEnum) (agentTravelTime : F)
    (clearSuccessTime : Z) (clearCost : F) : F :=
  match endValue with
  | OBSTACLE => fadd (ofInt 1) (clearCostOf clearSuccessTime clearCost)
  | BLOCK => fadd (ofInt blockClearValue) (clearCostOf clearSuccessTime clearCost)
  | _ => agentTravelTime
  end.

(** [cost += ...] for a cell the attached block or the agent passes. *)
Definition addClearCost (cost : F) (coordValue : MapValueEnum) (blockCounts : bool)
    (clearSuccessTime : Z) (clearCost : F) : F :=
  match coordValue with
  | OBSTACLE => fadd cost (clearCostOf clearSuccessTime clearCost)
  | BLOCK =>
      if blockCounts
      then fadd cost (fadd (ofInt blockClearValue) (clearCostOf clearSuccessTime clearCost))
      else cost
  | _ => cost
  end.

Definition distanceCostWithRotating (d : Dims) (map : DynamicMap)
    (currentCoordinate nextCoordinate : Coordinate) (clearSuccessTime : Z) (clearCost : F)
    (attachedCoord : Coordinate) : Result F :=
  nextCoordValue <- getMapValueEnum map nextCoordinate false false ;;
  let cost := addClearCost (ofInt 3) nextCoordValue true clearSuccessTime clearCost in
  adjacentCoordValue <-
    getMapValueEnum map
      (getMovedCoord d currentCoordinate
         [getDirection d nextCoordinate currentCoordinate] true) false false ;;
  Ok (addClearCost cost adjacentCoordValue
        (negb (Coordinate_eqb (getRelativeCoordinate d currentCoordinate nextCoordinate)
                 attachedCoord))
        clearSuccessTime clearCost).

(** The cost of rotating through the given cells, from [cost = 6.0]. *)
Fixpoint rotateCost (map : DynamicMap) (cost : F) (checkableCoords : list Coordinate)
    (clearSuccessTime : Z) (clearCost : F) : Result F :=
  match checkableCoords with
  | [] => Ok cost
  | coord :: rest =>
      coordValue <- getMapValueEnum map coord false false ;;
      rotateCost map (addClearCost cost coordValue true clearSuccessTime clearCost) rest
        clearSuccessTime clearCost
  end.

Definition distanceCostWithOppositeRotating (d : Dims) (map : DynamicMap)
    (currentCoordinate nextCoordinate : Coordinate) (clearSuccessTime : Z) (clearCost : F)
    (rotateDict : dict Direction bool) : Result (F * Direction) :=
  let cost := ofInt 6 in
  let faceDirection := getDirection d nextCoordinate currentCoordinate in
  let frontCoord := getMovedCoord d currentCoordinate [faceDirection] true in
  ' (leftDirection, rightDirection) <- getAdjacentDirections faceDirection ;;
  let leftCheckableCoords :=
    [getMovedCoord d currentCoordinate [leftDirection] true; frontCoord] in
  let rightCheckableCoords :=
    [getMovedCoord d currentCoordinate [rightDirection] true; frontCoord] in
  leftRotateCost <- rotateCost map cost leftCheckableCoords clearSuccessTime clearCost ;;
  rightRotateCost <- rotateCost map cost rightCheckableCoords clearSuccessTime clearCost ;;
  canLeft <- item rotateDict leftDirection ;;
  if negb canLeft then Ok (rightRotateCost, rightDirection)
  else
    canRight <- item rotateDict rightDirection ;;
    if negb canRight then Ok (leftRotateCost, leftDirection)
    else if fle leftRotateCost rightRotateCost then Ok (leftRotateCost, leftDirection)
    else Ok (rightRotateCost, rightDirection).

(** [distanceCost]: the cost of the edge and the direction to rotate to. *)
Definition distanceCost (d : Dims) (map : DynamicMap)
    (currentCoordinate nextCoordinate : Coordinate) (agentTravelTime : F)
    (clearSuccessTime : Z) (clearCost : F) (attachedCoordList : list Coordinate)
    (rotateDict : option (dict Direction bool)) : Result (F * option Direction) :=
  match attachedCoordList, rotateDict with
  | [attachedCoord], Some rotations =>
      let moveDirection := getDirection d currentCoordinate nextCoordinate in
      let faceDirection := getDirection d attachedCoord (origo d) in
      if isSameDirection moveDirection faceDirection then
        endValue <- getMapValueEnum map nextCoordinate false false ;;
        Ok (distanceCostWithoutRotating endValue agentTravelTime clearSuccessTime clearCost,
            None)
      else if isOppositeDirection moveDirection faceDirection then
        ' (cost, direction) <-
          distanceCostWithOppositeRotating d map currentCoordinate nextCoordinate
            clearSuccessTime clearCost rotations ;;
        Ok (cost, Some direction)
      else
        cost <- distanceCostWithRotating d map currentCoordinate nextCoordinate
                  clearSuccessTime clearCost attachedCoord ;;
        direction <- of_option IndexError (hd_error (keys rotations)) ;;
        Ok (cost, Some direction)
  | _, _ =>
      endValue <- getMapValueEnum map nextCoordinate false false ;;
      Ok (distanceCostWithoutRotating endValue agentTravelTime clearSuccessTime clearCost,
          None)
  end.

(** [heuristicCost]: [Coordinate.distance], the Euclidean distance. *)
Definition heuristicCost (d : Dims) (start_ end_ : Coordinate) : F :=
  fsqrt (ofInt (distanceSquared d start_ end_)).

End Costs.

(** *** Passable neighbours *)

(** [value in [...]] *)
Definition inValues (e : MapValueEnum) (l : list MapValueEnum) : bool :=
  existsb (MapValueEnum_eqb e) l.

(** Clearable or free, or an agent or a marker farther than the vision. *)
Definition passableOrFar (d : Dims) (startCoordinate : Coordinate) (vision : Z)
    (coordValue : MapValueEnum) (c : Coordinate) : bool :=
  inValues coordValue [EMPTY; UNKNOWN; BLOCK; OBSTACLE]
  || (inValues coordValue [AGENT; MARKER]
      && (vision <? manhattanDistance d startCoordinate c)).

(** The rotation dictionary of a neighbour: [None], or which directions
    the attached block can be rotated to. *)
Definition RotateDict : Type := option (dict Direction bool).

(** In the source the flag [ignoreMarker] is passed in the position of
    [needMarker] of [getMapValueEnum]. *)
Definition canRotateThrough (d : Dims) (map : DynamicMap) (startCoordinate : Coordinate)
    (vision : Z) (ignoreMarker : bool) (checkableCoords : list Coordinate) : Result bool :=
  all_result
    (fun c =>
       coordValue <- getMapValueEnum map c ignoreMarker false ;;
       Ok (passableOrFar d startCoordinate vision coordValue c))
    checkableCoords.

Definition isCoordinatePassableForSingleAttachment (d : Dims) (map : DynamicMap)
    (startCoordinate currentCoordinate nextCoordinate : Coordinate) (ignoreMarker : bool)
    (attachedCoord : Coordinate) (vision : Z) : Result (bool * RotateDict) :=
  let moveDirection := getDirection d currentCoordinate nextCoordinate in
  let faceDirection := getDirection d attachedCoord (origo d) in
  if isSameDirection moveDirection faceDirection then Ok (true, None)
  else if isOppositeDirection moveDirection faceDirection then
    let frontCoord := getMovedCoord d currentCoordinate [faceDirection] true in
    ' (leftDirection, rightDirection) <- getAdjacentDirections moveDirection ;;
    canRotateToLeftDirection <-
      canRotateThrough d map startCoordinate vision ignoreMarker
        [getMovedCoord d currentCoordinate [leftDirection] true; frontCoord] ;;
    canRotateToRightDirection <-
      canRotateThrough d map startCoordinate vision ignoreMarker
        [getMovedCoord d currentCoordinate [rightDirection] true; frontCoord] ;;
    Ok (canRotateToLeftDirection || canRotateToRightDirection,
        Some (dict_of [(leftDirection, canRotateToLeftDirection);
                       (rightDirection, canRotateToRightDirection)]))
  else
    let rotateToCoordinate :=
      getMovedCoord d currentCoordinate
        [getDirection d nextCoordinate currentCoordinate] true in
    rotateToCoordinateValue <- getMapValueEnum map rotateToCoordinate ignoreMarker false ;;
    let canRotate :=
      passableOrFar d startCoordinate vision rotateToCoordinateValue rotateToCoordinate in
    Ok (canRotate, Some (dict_of [(moveDirection, canRotate)])).

Definition isCoordinatePassableForMultipleAttachements (d : Dims) (map : DynamicMap)
    (currentCoordinate nextCoordinate : Coordinate) (ignoreMarker : bool)
    (attachedCoords : list Coordinate) : Result bool :=
  let passableCoordsForAttacheds :=
    List.map (fun coord => getShiftedCoordinate d currentCoordinate coord true) attachedCoords
    ++ [currentCoordinate] in
  all_result
    (fun coord =>
       let c := getShiftedCoordinate d nextCoordinate coord true in
       if mem c passableCoordsForAttacheds then Ok true
       else
         coordValue <- getMapValueEnum map c ignoreMarker false ;;
         Ok (inValues coordValue [EMPTY; UNKNOWN]))
    attachedCoords.

(** A neighbour with the attachment after the step and its rotation
    dictionary. *)
Definition Neighbor : Type := (Coordinate * list Coordinate * RotateDict)%type.

Definition isCoordinatePassable (d : Dims) (map : DynamicMap)
    (startCoordinate currentCoordinate nextCoordinate : Coordinate) (vision : Z)
    (ignoreMarker : bool) (attachedCoords : list Coordinate)
    : Result (bool * list Coordinate * RotateDict) :=
  coordValue <- getMapValueEnum map nextCoordinate true false ;;
  let far := vision <? manhattanDistance d startCoordinate nextCoordinate in
  let passableForAgent :=
    inValues coordValue [EMPTY; OBSTACLE; UNKNOWN; BLOCK]
    || (MapValueEnum_eqb coordValue MARKER && (ignoreMarker || far))
    || (MapValueEnum_eqb coordValue AGENT && far) in
  if negb passableForAgent then Ok (false, attachedCoords, None)
  else
    match attachedCoords with
    | [] => Ok (true, attachedCoords, None)
    | [attachedCoord] =>
        let attachment := copy d attachedCoord false in
        ' (passable, rotateDict) <-
          isCoordinatePassableForSingleAttachment d map startCoordinate currentCoordinate
            nextCoordinate ignoreMarker attachment vision ;;
        let attachment1 :=
          match rotateDict with
          | Some _ =>
              if passable then
                let moveDirection := getDirection d currentCoordinate nextCoordinate in
                let faceDirection := getDirection d attachment (origo d) in
                if isOppositeDirection moveDirection faceDirection
                then getRotatedRelCoord (getRotatedRelCoord attachment CLOCKWISE) CLOCKWISE
                else getRotatedRelCoord attachment
                       (getRotateDirection attachment moveDirection)
              else attachment
          | None => attachment
          end in
        Ok (passable, [attachment1], rotateDict)
    | _ =>
        passable <-
          isCoordinatePassableForMultipleAttachements d map currentCoordinate
            nextCoordinate ignoreMarker attachedCoords ;;
        Ok (passable, attachedCoords, None)
    end.

(** The loop of [getNeighbors], before the shuffle. *)
Fixpoint passableNeighbors (d : Dims) (map : DynamicMap)
    (startCoordinate currentCoordinate : Coordinate) (vision : Z) (ignoreMarker : bool)
    (attachedCoords : list Coordinate) (nexts : list Coordinate) : Result (list Neighbor) :=
  match nexts with
  | [] => Ok []
  | nextCoordinate :: rest =>
      ' (passable, attacheds, rotateDict) <-
        isCoordinatePassable d map startCoordinate currentCoordinate nextCoordinate vision
          ignoreMarker attachedCoords ;;
      others <- passableNeighbors d map startCoordinate currentCoordinate vision
                  ignoreMarker attachedCoords rest ;;
      Ok (if passable then (nextCoordinate, attacheds, rotateDict) :: others else others)
  end.

(** [getNeighbors]; [shuffle] is what [random.shuffle] does to the list in
    this call. *)
Definition getNeighbors (d : Dims) (shuffle : list Neighbor -> list Neighbor)
    (map : DynamicMap) (startCoordinate currentCoordinate : Coordinate) (vision : Z)
    (ignoreMarker : bool) (attachedCoords : list Coordinate) : Result (list Neighbor) :=
  l <- passableNeighbors d map startCoordinate currentCoordinate vision ignoreMarker
         attachedCoords (neighbors d currentCoordinate true 1 0) ;;
  Ok (shuffle l).

(** *** The priority queue (data/dataStructure/priorityQueue.py) *)

(** A [PriorityQueueNode]: the value and its priority. *)
Definition QueueNode (F : Type) : Type := (Coordinate * F)%type.

(** [insert]: before the first node of greater priority, else last. *)
Fixpoint queueInsert {F : Type} `{PyFloat F} (node : QueueNode F) (queue : list (QueueNode F))
    : list (QueueNode F) :=
  match queue with
  | [] => [node]
  | q :: rest =>
      if fle (snd q) (snd node) then q :: queueInsert node rest
      else node :: queue
  end.

(** [min(l, key)]: the first element of least key; [ValueError] on an
    empty sequence. *)
Definition minBy {A F : Type} `{PyFloat F} (key : A -> F) (l : list A) : Result A :=
  match l with
  | [] => Raise ValueError
  | a :: rest =>
      Ok (fold_left (fun best x => if flt (key x) (key best) then x else best) rest a)
  end.

(** *** The search *)

Record SearchState (F : Type) : Type := {
  iterationCount : Z;
  cameFrom : dict Coordinate Coordinate;
  gScore : dict Coordinate F;
  fScore : dict Coordinate F;
  openSet : list (QueueNode F);
  attachedSet : dict Coordinate (list Coordinate);
  rotations : dict Coordinate (option Direction)
}.
Arguments iterationCount {F} _.
Arguments cameFrom {F} _.
Arguments gScore {F} _.
Arguments fScore {F} _.
Arguments openSet {F} _.
Arguments attachedSet {F} _.
Arguments rotations {F} _.

(** How the [while] loop is left: by the [return] at the goal, or by its
    condition. *)
Inductive LoopExit (F : Type) : Type :=
| ReachedGoal (distance : F) (st : SearchState F) (current : Coordinate)
| Stopped (st : SearchState F).
Arguments ReachedGoal {F} distance st current.
Arguments Stopped {F} st.

Section Search.
Context {F : Type} `{PyFloat F}.
Variable d : Dims.
(** [random.shuffle] in the call of [getNeighbors] of each iteration. *)
Variable shuffle : Z -> list Neighbor -> list Neighbor.
Variable map : DynamicMap.
Variables startCoordinate endCoordinate : Coordinate.
Variables agentTravelTime clearCost : F.
Variable clearSuccessTime : Z.
Variables maximumIteration vision : Z.
Variable ignoreMarker : bool.

(** The body of the loop over the neighbours. *)
Definition relax (current : Coordinate) (acc : Result (SearchState F)) (n : Neighbor)
    : Result (SearchState F) :=
  st <- acc ;;
  let '(neighbor, attachedList, rotateDict) := n in
  attachedCurrent <- item (attachedSet st) current ;;
  ' (cost, rotateDirection) <-
    distanceCost d map current neighbor agentTravelTime clearSuccessTime clearCost
      attachedCurrent rotateDict ;;
  gCurrent <- item (gScore st) current ;;
  let tentativeGScore := fadd gCurrent cost in
  let improves_ :=
    match get (gScore st) neighbor with
    | Some g => flt tentativeGScore g
    | None => fltInf tentativeGScore
    end in
  if improves_ then
    let f := fadd tentativeGScore (heuristicCost d neighbor endCoordinate) in
    Ok {| iterationCount := iterationCount st;
          cameFrom := set (cameFrom st) neighbor current;
          gScore := set (gScore st) neighbor tentativeGScore;
          fScore := set (fScore st) neighbor f;
          openSet := queueInsert (neighbor, f) (openSet st);
          attachedSet := set (attachedSet st) neighbor attachedList;
          rotations := set (rotations st) neighbor rotateDirection |}
  else Ok st.

(** One iteration for the popped node [current], not the goal. *)
Definition expand (st : SearchState F) (current : Coordinate) (rest : list (QueueNode F))
    : Result (SearchState F) :=
  let popped :=
    {| iterationCount := iterationCount st; cameFrom := cameFrom st;
       gScore := gScore st; fScore := fScore st; openSet := rest;
       attachedSet := attachedSet st; rotations := rotations st |} in
  attachedCurrent <- item (attachedSet st) current ;;
  nexts <- getNeighbors d (shuffle (iterationCount st)) map startCoordinate current vision
             ignoreMarker attachedCurrent ;;
  st1 <- fold_left (relax current) nexts (Ok popped) ;;
  Ok {| iterationCount := iterationCount st1 + 1; cameFrom := cameFrom st1;
        gScore := gScore st1; fScore := fScore st1; openSet := openSet st1;
        attachedSet := attachedSet st1; rotations := rotations st1 |}.

(** [while iterationCount <= maxIteration and not openSet.isEmpty()]; the
    fuel bounds the number of iterations, which the counter bounds. *)
Fixpoint aStarLoop (fuel : nat) (st : SearchState F) : Result (LoopExit F) :=
  if iterationCount st <=? maximumIteration then
    match openSet st with
    | [] => Ok (Stopped st)
    | (current, priority) :: rest =>
        if Coordinate_eqb current endCoordinate then
          g <- item (gScore st) current ;;
          Ok (ReachedGoal g
                {| iterationCount := iterationCount st; cameFrom := cameFrom st;
                   gScore := gScore st; fScore := fScore st; openSet := rest;
                   attachedSet := attachedSet st; rotations := rotations st |}
                current)
        else
          match fuel with
          | O => Raise NonTermination
          | S fuel' =>
              st1 <- expand st current rest ;;
              aStarLoop fuel' st1
          end
    end
  else Ok (Stopped st).

(** The state before the loop. *)
Definition initialSearch (attachedCoordinates_ : list Coordinate) : SearchState F :=
  let h := heuristicCost d startCoordinate endCoordinate in
  {| iterationCount := 0; cameFrom := [];
     gScore := [(startCoordinate, ofInt 0)];
     fScore := [(startCoordinate, h)];
     openSet := [(startCoordinate, h)];
     attachedSet := [(startCoordinate, attachedCoordinates_)];
     rotations := [] |}.

(** The coordinates with a recorded predecessor:
    [(coord for coord in fScore.keys() if coord in cameFrom)]. *)
Definition discovered (st : SearchState F) : list Coordinate :=
  filter (fun coord => contains (cameFrom st) coord) (keys (fScore st)).

Definition closestDiscovered (st : SearchState F) : Result Coordinate :=
  minBy (fun coord => heuristicCost d coord endCoordinate) (discovered st).

(** What [AStarBody] returns: the distance ([None] for [math.inf]), the
    predecessors, the end coordinate and the rotations. *)
Definition SearchResult : Type :=
  (option F * dict Coordinate Coordinate * option Coordinate
   * dict Coordinate (option Direction))%type.

Definition afterLoop (exit : LoopExit F) : Result SearchResult :=
  match exit with
  | ReachedGoal g st current => Ok (Some g, cameFrom st, Some current, rotations st)
  | Stopped st =>
      match openSet st with
      | _ :: _ =>
          closestCoord <- closestDiscovered st ;;
          g <- item (gScore st) closestCoord ;;
          Ok (Some g, cameFrom st, Some closestCoord, rotations st)
      | [] => Ok (None, cameFrom st, None, rotations st)
      end
  end.

Definition AStarBody (attachedCoordinates_ : list Coordinate) : Result SearchResult :=
  if Coordinate_eqb startCoordinate endCoordinate then Ok (None, [], None, [])
  else
    exit <- aStarLoop (Z.to_nat (maximumIteration + 1))
              (initialSearch attachedCoordinates_) ;;
    afterLoop exit.

End Search.

(** *** From the path to the action *)

(** An entry of [actions]: [(AgentActionEnum.CLEAR, relCoord)] or
    [(AgentActionEnum.MOVE, direction)]. *)
Inductive PathStep : Type :=
| StepClear (relCoord : Coordinate)
| StepMove (direction : Direction).

(** The loop [while current in cameFrom] of [getAction]: the steps of the
    route, first step first, and the node the route starts from.  The
    fuel is the number of recorded predecessors plus one; a longer walk
    runs in a cycle and does not end. *)
Fixpoint retrace (d : Dims) (map : DynamicMap) (cameFrom_ : dict Coordinate Coordinate)
    (attachedCoordinates_ : list Coordinate) (fuel : nat) (actions : list PathStep)
    (prev current : Coordinate) : Result (list PathStep * Coordinate) :=
  if contains cameFrom_ current then
    match fuel with
    | O => Raise NonTermination
    | S fuel' =>
        mapValue <- getMapValueEnum map current false false ;;
        let relCoord := getRelativeCoordinate d prev current in
        let action :=
          if MapValueEnum_eqb mapValue OBSTACLE
             || (MapValueEnum_eqb mapValue BLOCK && negb (mem relCoord attachedCoordinates_))
          then StepClear relCoord
          else StepMove (getDirection d prev current) in
        let prev1 := match get cameFrom_ prev with Some p => p | None => prev end in
        retrace d map cameFrom_ attachedCoordinates_ fuel' (action :: actions) prev1 prev
    end
  else Ok (actions, current).

(** The move directions up to [maxSteps] and up to the first clear. *)
Fixpoint batchMoves (index maxSteps : Z) (actions : list PathStep) : list Direction :=
  match actions with
  | StepMove direction :: rest =>
      if index <? maxSteps then direction :: batchMoves (index + 1) maxSteps rest else []
  | _ => []
  end.

(** The part [getActionAtSimpleRotating] and [getActionAtOppositeRotating]
    share: the move without a rotation, when the cell the block gets to
    is free. *)
Definition moveWithoutRotating (d : Dims) (map : DynamicMap) (current : Coordinate)
    (attachedCoord : Coordinate) (directions : list Direction) (first : Direction)
    : Result (option AgentAction) :=
  let attachedShifted :=
    getMovedCoord d (getShiftedCoordinate d current attachedCoord true) [first] true in
  shiftedValue <- getMapValueEnum map attachedShifted true false ;;
  if inValues shiftedValue [EMPTY; UNKNOWN] then
    match directions with
    | [_; second] =>
        secondValue <-
          getMapValueEnum map (getMovedCoord d attachedShifted [second] true) true false ;;
        if inValues secondValue [EMPTY; UNKNOWN] then Ok (Some (MoveAction directions))
        else Ok (Some (MoveAction [first]))
    | _ => Ok (Some (MoveAction [first]))
    end
  else Ok None.

(** The rotation, after the clear of the cell that blocks it. *)
Definition rotateOrClear (d : Dims) (map : DynamicMap) (current attachedCoord : Coordinate)
    (directionToRotate : Direction) : Result AgentAction :=
  let blockingAdjacentCoord := getMovedCoord d current [opposite directionToRotate] true in
  blockingValue <- getMapValueEnum map blockingAdjacentCoord false false ;;
  if inValues blockingValue [OBSTACLE; BLOCK]
  then Ok (ClearAction (getRelativeCoordinate d current blockingAdjacentCoord))
  else Ok (RotateAction (getRotateDirection attachedCoord directionToRotate)).

Definition getActionAtSimpleRotating (d : Dims) (map : DynamicMap)
    (current attachedCoord : Coordinate) (directions : list Direction) : Result AgentAction :=
  first <- of_option IndexError (hd_error directions) ;;
  moved <- moveWithoutRotating d map current attachedCoord directions first ;;
  match moved with
  | Some action => Ok action
  | None => rotateOrClear d map current attachedCoord first
  end.

Definition getActionAtOppositeRotating (d : Dims) (map : DynamicMap)
    (current attachedCoord : Coordinate) (rotateDict : dict Coordinate (option Direction))
    (directions : list Direction) : Result AgentAction :=
  first <- of_option IndexError (hd_error directions) ;;
  moved <- moveWithoutRotating d map current attachedCoord directions first ;;
  match moved with
  | Some action => Ok action
  | None =>
      recorded <- item rotateDict (getMovedCoord d current [first] true) ;;
      directionToRotate <- of_option AttributeError recorded ;;
      rotateOrClear d map current attachedCoord directionToRotate
  end.

Definition getAction (d : Dims) (map : DynamicMap) (cameFrom_ : dict Coordinate Coordinate)
    (current : Coordinate) (maxSteps : Z) (attachedCoordinates_ : list Coordinate)
    (rotateDict : dict Coordinate (option Direction)) : Result AgentAction :=
  prev <- item cameFrom_ current ;;
  ' (actions, root) <-
    retrace d map cameFrom_ attachedCoordinates_ (S (List.length cameFrom_)) [] prev current ;;
  match actions with
  | [] => Raise IndexError
  | StepClear relCoord :: _ => Ok (ClearAction relCoord)
  | StepMove _ :: _ =>
      let directions := batchMoves 0 maxSteps actions in
      match attachedCoordinates_ with
      | [attachedCoord] =>
          let faceDirection := getDirection d attachedCoord (origo d) in
          first <- of_option IndexError (hd_error directions) ;;
          if isSameDirection faceDirection first then
            match directions with
            | _ :: second :: _ =>
                if isSameDirection faceDirection second then Ok (MoveAction directions)
                else Ok (MoveAction [first])
            | _ => Ok (MoveAction directions)
            end
          else if isOppositeDirection faceDirection first then
            getActionAtOppositeRotating d map root attachedCoord rotateDict directions
          else getActionAtSimpleRotating d map root attachedCoord directions
      | _ => Ok (MoveAction directions)
      end
  end.

(** [findNextAction].  The three constants are computed twice in the
    source, by the same expressions. *)
Definition findNextAction {F : Type} `{PyFloat F} (d : Dims)
    (shuffle : Z -> list Neighbor -> list Neighbor) (pathfinderData : PathFinderData F)
    (end_ : Coordinate) (ignoreMarker : bool) : Result AgentAction :=
  ' (agentTravelTime, clearCost, clearSuccessTime) <-
    calculateTravelConstantCosts (agentSpeed pathfinderData) (clearEnergyCost pathfinderData)
      (agentEnergy pathfinderData) (agentMaxEnergy pathfinderData)
      (clearChance pathfinderData) (clearConstantCost pathfinderData) ;;
  ' (_, cameFrom_, endCoordinate, rotateDict) <-
    AStarBody d shuffle (map_ pathfinderData) (start pathfinderData) end_ agentTravelTime
      clearCost clearSuccessTime (maxIteration pathfinderData) (agentVision_ pathfinderData)
      ignoreMarker (attachedCoordinates pathfinderData) ;;
  match endCoordinate with
  | Some endCoordinate_ =>
      getAction d (map_ pathfinderData) cameFrom_ endCoordinate_ (agentSpeed pathfinderData)
        (attachedCoordinates pathfinderData) rotateDict
  | None => Ok SkipAction
  end.

(* ===================================================================== *)
(** * Part II: properties                                                 *)
(* ===================================================================== *)

(** ** Coordinate arithmetic *)

(** The displacement of a direction sequence. *)
Definition displacement (directions : list Direction) : Coordinate :=
  fold_left (fun c dir => step dir c) directions (XY 0 0).

Lemma fold_step_displacement (directions : list Direction) (c : Coordinate) :
  fold_left (fun c dir => step dir c) directions c
  = XY (cx c + cx (displacement directions)) (cy c + cy (displacement directions)).
Proof.
  unfold displacement. revert c.
  induction directions as [|dir ds IH] using rev_ind; intros c.
  - simpl. destruct c; simpl. f_equal; lia.
  - rewrite !fold_left_app. simpl. rewrite IH.
    destruct dir; simpl; f_equal; lia.
Qed.

Lemma displacement_app (l1 l2 : list Direction) :
  displacement (l1 ++ l2)
  = XY (cx (displacement l1) + cx (displacement l2))
       (cy (displacement l1) + cy (displacement l2)).
Proof.
  unfold displacement at 1. rewrite fold_left_app.
  fold (displacement l1). now rewrite fold_step_displacement.
Qed.

Lemma displacement_inverse (directions : list Direction) :
  displacement (rev (map opposite directions))
  = XY (- cx (displacement directions)) (- cy (displacement directions)).
Proof.
  induction directions as [|dir ds IH]; [reflexivity|].
  cbn [map rev]. rewrite displacement_app, IH.
  change (dir :: ds) with ([dir] ++ ds). rewrite (displacement_app [dir] ds).
  generalize (displacement ds); intros [dx dy].
  destruct dir; unfold displacement, fold_left, step, opposite; cbn [cx cy]; f_equal; lia.
Qed.

Lemma mod_shift_back (x s w : Z) : ((x + s) mod w - s) mod w = x mod w.
Proof.
  rewrite Zminus_mod_idemp_l. f_equal. lia.
Qed.

Lemma normalize_idempotent (d : Dims) (c : Coordinate) :
  normalize d (normalize d c) = normalize d c.
Proof.
  unfold normalize; simpl.
  destruct (maxWidth d), (maxHeight d); f_equal; apply Zmod_mod || reflexivity.
Qed.

Lemma move_round_trip (d : Dims) (c : Coordinate) (directions : list Direction) :
  move d (move d c directions true) (rev (map opposite directions)) true = normalize d c.
Proof.
  unfold move. rewrite !fold_step_displacement, displacement_inverse.
  unfold normalize; simpl.
  destruct (maxWidth d), (maxHeight d); f_equal;
    try (rewrite Z.add_opp_r; apply mod_shift_back); lia.
Qed.

(** *** The wrap-around representative of a difference *)

Lemma wrapDifference_char (w z : Z) :
  0 < w ->
  wrapDifference (Some w) z = if 2 * (z mod w) <? w then z mod w else z mod w - w.
Proof.
  intros Hw. unfold wrapDifference.
  replace (-1 * w) with (- w) by lia.
  pose proof (Z.mod_pos_bound z w Hw) as Hb.
  destruct (Z.eq_dec (z mod w) 0) as [E|E].
  - rewrite (Z_mod_zero_opp_r z w E), E. simpl.
    destruct (0 <? w) eqn:H0; [reflexivity | apply Z.ltb_ge in H0; lia].
  - rewrite (Z_mod_nz_opp_r z w E).
    destruct (Z.ltb_spec (Z.abs (z mod w)) (Z.abs (z mod w - w)));
      destruct (Z.ltb_spec (2 * (z mod w)) w); lia.
Qed.

Lemma wrapDifference_range (w z : Z) :
  0 < w -> - w <= 2 * wrapDifference (Some w) z < w.
Proof.
  intros Hw. rewrite (wrapDifference_char w z Hw).
  pose proof (Z.mod_pos_bound z w Hw).
  destruct (Z.ltb_spec (2 * (z mod w)) w); lia.
Qed.

Lemma wrapDifference_congruent (w z : Z) :
  0 < w -> exists k, wrapDifference (Some w) z = z + k * w.
Proof.
  intros Hw. rewrite (wrapDifference_char w z Hw).
  pose proof (Z.div_mod z w ltac:(lia)) as E.
  generalize dependent (z mod w). generalize (z / w). intros q m E.
  destruct (Z.ltb_spec (2 * m) w).
  - exists (- q). subst z. ring.
  - exists (- q - 1). subst z. ring.
Qed.

Lemma short_representative_unique (w a b k : Z) :
  0 < w -> - w <= 2 * a < w -> - w <= 2 * b < w -> a = b + k * w -> a = b.
Proof.
  intros Hw Ha Hb E.
  destruct (Z.eq_dec k 0) as [->|N]; [lia|].
  assert (w <= k * w \/ k * w <= - w) by nia. lia.
Qed.

Lemma wrapDifference_fixpoint (w z : Z) :
  0 < w -> (wrapDifference (Some w) z = z <-> - w <= 2 * z < w).
Proof.
  intros Hw. split; intros H.
  - rewrite <- H. now apply wrapDifference_range.
  - destruct (wrapDifference_congruent w z Hw) as [k Hk].
    eapply short_representative_unique; eauto using wrapDifference_range.
Qed.

(** Among the integers congruent to the difference, the representative
    has the least absolute value. *)
Lemma wrapDifference_minimal (w z k : Z) :
  0 < w -> Z.abs (wrapDifference (Some w) z) <= Z.abs (z + k * w).
Proof.
  intros Hw.
  pose proof (wrapDifference_range w z Hw) as R.
  destruct (wrapDifference_congruent w z Hw) as [j Hj].
  assert (E : z + k * w = wrapDifference (Some w) z + (k - j) * w) by lia.
  rewrite E. generalize dependent (wrapDifference (Some w) z). intros a R _ _.
  destruct (Z.eq_dec (k - j) 0) as [->|N]; [rewrite Z.add_0_r; lia | nia].
Qed.

Lemma wrapDifference_after_shift (o : option Z) (a r : Z) :
  wrapDifference o (match o with Some w => (a + r) mod w | None => a + r end - a)
  = wrapDifference o (r - 0).
Proof.
  destruct o as [w|]; unfold wrapDifference; [|lia].
  assert (P : ((a + r) mod w - a) mod w = (r - 0) mod w).
  { rewrite Zminus_mod_idemp_l. f_equal. lia. }
  assert (N : ((a + r) mod w - a) mod (-1 * w) = (r - 0) mod (-1 * w)).
  { pose proof (Z.div_mod (a + r) w) as E.
    destruct (Z.eq_dec w 0) as [->|Hw]; [change (-1 * 0) with 0; rewrite !Z.mod_0_r; lia|].
    specialize (E Hw).
    replace ((a + r) mod w - a) with (r - 0 + ((a + r) / w) * (-1 * w)) by lia.
    apply Z_mod_plus_full. }
  now rewrite P, N.
Qed.

Lemma wrapDifference_mod (w z : Z) : wrapDifference (Some w) z mod w = z mod w.
Proof.
  unfold wrapDifference.
  destruct (Z.abs (z mod w) <? Z.abs (z mod (-1 * w))); [apply Zmod_mod|].
  destruct (Z.eq_dec w 0) as [->|Hw]; [change (-1 * 0) with 0; now rewrite !Z.mod_0_r|].
  pose proof (Z.div_mod z (-1 * w) ltac:(lia)) as E.
  replace (z mod (-1 * w)) with (z + (- (z / (-1 * w)) * -1) * w) by lia.
  apply Z_mod_plus_full.
Qed.

Lemma shift_relative_axis (o : option Z) (a b : Z) :
  match o with Some w => (a + wrapDifference o (b - a)) mod w
             | None => a + wrapDifference o (b - a) end
  = match o with Some w => b mod w | None => b end.
Proof.
  destruct o as [w|]; [|simpl; lia].
  rewrite <- Zplus_mod_idemp_r, wrapDifference_mod, Zplus_mod_idemp_r.
  f_equal. lia.
Qed.

(** An offset that is its own wrap-around representative: for a set
    dimension [w], [-w <= 2 * r < w]. *)
Definition shortAxis (o : option Z) (r : Z) : Prop :=
  match o with Some w => - w <= 2 * r < w | None => True end.

Definition shortestOffset (d : Dims) (r : Coordinate) : Prop :=
  shortAxis (maxWidth d) (cx r) /\ shortAxis (maxHeight d) (cy r).

Lemma wrapDifference_fixpoint_axis (o : option Z) (r : Z) :
  dim_pos o -> (wrapDifference o r = r <-> shortAxis o r).
Proof.
  destruct o as [w|]; simpl.
  - intros Hw. now apply wrapDifference_fixpoint.
  - tauto.
Qed.

Lemma relative_of_shifted (d : Dims) (a r : Coordinate) :
  getRelativeCoordinate d a (getShiftedCoordinate d a r true)
  = getRelativeCoordinate d (XY 0 0) r.
Proof.
  unfold getRelativeCoordinate, getShiftedCoordinate, Coord, normalize; simpl.
  f_equal; apply wrapDifference_after_shift.
Qed.

Lemma shifted_by_relative (d : Dims) (a b : Coordinate) :
  getShiftedCoordinate d a (getRelativeCoordinate d a b) true = normalize d b.
Proof.
  unfold getRelativeCoordinate, getShiftedCoordinate, Coord, normalize; simpl.
  f_equal; apply shift_relative_axis.
Qed.

(** C7 (as stated, refuted).  With a 10 x 10 grid, shifting the origin by
    the offset (7, 0) and asking for the relative coordinate gives
    (-3, 0), not (7, 0). *)
Lemma relative_of_shifted_not_inverse :
  let d := {| maxWidth := Some 10; maxHeight := Some 10 |} in
  ~ (forall a r : Coordinate,
       getRelativeCoordinate d a (getShiftedCoordinate d a r true) = r).
Proof.
  intros d H. specialize (H (XY 0 0) (XY 7 0)). vm_compute in H. discriminate H.
Qed.

(** C7 (amended).  Moving by a direction sequence and then by the reversed
    sequence of opposite directions gives back the coordinate, normalized;
    shifting [a] by the relative coordinate from [a] to [b] gives [b],
    normalized; the relative coordinate from [a] to [a] shifted by [r] is
    the wrap-around representative of [r], which is [r] exactly when [r]
    is the shortest offset ([-w <= 2 * r.x < w] and [-h <= 2 * r.y < h] for
    the dimensions that are set). *)
Theorem coordinate_arithmetic (d : Dims) (a b c r : Coordinate)
    (directions : list Direction) :
  dims_ok d ->
  move d (move d c directions true) (rev (map opposite directions)) true = normalize d c
  /\ getShiftedCoordinate d a (getRelativeCoordinate d a b) true = normalize d b
  /\ getRelativeCoordinate d a (getShiftedCoordinate d a r true)
     = getRelativeCoordinate d (XY 0 0) r
  /\ (getRelativeCoordinate d a (getShiftedCoordinate d a r true) = r
      <-> shortestOffset d r).
Proof.
  intros [Hw Hh].
  split; [apply move_round_trip|].
  split; [apply shifted_by_relative|].
  split; [apply relative_of_shifted|].
  rewrite relative_of_shifted. unfold getRelativeCoordinate, shortestOffset; simpl.
  rewrite !Z.sub_0_r.
  rewrite <- (wrapDifference_fixpoint_axis _ (cx r) Hw).
  rewrite <- (wrapDifference_fixpoint_axis _ (cy r) Hh).
  destruct r as [rx ry]; simpl. split.
  - intros E. injection E. tauto.
  - intros [-> ->]. reflexivity.
Qed.

Lemma coordinate_arithmetic_witness :
  let d := {| maxWidth := Some 10; maxHeight := None |} in
  dims_ok d
  /\ move d (move d (XY 9 4) [EAST; EAST; NORTH] true) [SOUTH; WEST; WEST] true = XY 9 4
  /\ getShiftedCoordinate d (XY 8 1) (getRelativeCoordinate d (XY 8 1) (XY 2 5)) true = XY 2 5
  /\ getRelativeCoordinate d (XY 8 1) (getShiftedCoordinate d (XY 8 1) (XY (-3) 7) true)
     = XY (-3) 7.
Proof.
  intros d.
  assert (Hd : dims_ok d) by (split; simpl; [lia | exact I]).
  pose proof (coordinate_arithmetic d (XY 8 1) (XY 2 5) (XY 9 4) (XY (-3) 7)
                [EAST; EAST; NORTH] Hd) as [H1 [H2 [_ H4]]].
  split; [exact Hd|]. split; [exact H1|]. split; [exact H2|].
  apply H4. split; simpl; [lia | exact I].
Defined.

(** ** Discovered dimensions *)

(** The sighting that triggers a discovery lies within the vision radius
    (at the call site the relative coordinate is a key of the percept
    whose largest [x] is passed as the vision). *)
Definition withinVision (e : Discovery) : Prop :=
  Z.abs (cx (relCoordinate e)) <= agentVision e
  /\ Z.abs (cy (relCoordinate e)) <= agentVision e.

(** [new] replaces [old] only by a strictly smaller value. *)
Definition shrinks (old new : option Z) : Prop :=
  match old with
  | Some g => exists g', new = Some g' /\ (g' = g \/ g' < g)
  | None => True
  end.

Lemma shrinks_refl (o : option Z) : shrinks o o.
Proof. destruct o; simpl; eauto. Qed.

Lemma shrinks_trans (a b c : option Z) : shrinks a b -> shrinks b c -> shrinks a c.
Proof.
  destruct a as [g|]; simpl; [|trivial].
  intros [g' [-> Hg']] [g'' [-> Hg'']]. exists g''. split; [reflexivity | lia].
Qed.

Lemma discover_shrinks (s : MapServer) (e : Discovery) :
  shrinks (gridWidth s) (gridWidth (discover s e))
  /\ shrinks (gridHeight s) (gridHeight (discover s e)).
Proof.
  unfold discover, calculateMapGridSize, setGrid, improves; simpl.
  split.
  - destruct (gridWidth s) as [g|]; simpl; [|trivial].
    destruct (Z.ltb_spec (Z.abs (cx (agentCoordinate1 e) - cx (agentCoordinate2 e)
                                 + cx (relCoordinate e))) g); simpl;
      [destruct (_ <? _)|]; eauto.
  - destruct (gridHeight s) as [g|]; simpl; [|trivial].
    destruct (Z.ltb_spec (Z.abs (cy (agentCoordinate1 e) - cy (agentCoordinate2 e)
                                 + cy (relCoordinate e))) g); simpl;
      [destruct (_ <? _)|]; eauto.
Qed.

Lemma discoveries_shrink (es : list Discovery) (s : MapServer) :
  shrinks (gridWidth s) (gridWidth (fold_left discover es s))
  /\ shrinks (gridHeight s) (gridHeight (fold_left discover es s)).
Proof.
  revert s. induction es as [|e es IH]; intros s; simpl.
  - split; apply shrinks_refl.
  - destruct (discover_shrinks s e) as [Hw Hh], (IH (discover s e)) as [Hw' Hh'].
    split; eapply shrinks_trans; eauto.
Qed.

Lemma discover_positive (s : MapServer) (e : Discovery) :
  withinVision e -> dims_ok (dimsOf s) -> dims_ok (dimsOf (discover s e)).
Proof.
  unfold dims_ok, dimsOf, discover, calculateMapGridSize, setGrid, withinVision; simpl.
  intros [Vx Vy] [Pw Ph]. split.
  - destruct (improves (gridWidth s) _); simpl; [|exact Pw].
    destruct (Z.ltb_spec (agentVision e)
                (Z.abs (cx (agentCoordinate1 e) - cx (agentCoordinate2 e)))); simpl;
      [lia | exact Pw].
  - destruct (improves (gridHeight s) _); simpl; [|exact Ph].
    destruct (Z.ltb_spec (agentVision e)
                (Z.abs (cy (agentCoordinate1 e) - cy (agentCoordinate2 e)))); simpl;
      [lia | exact Ph].
Qed.

Lemma discoveries_positive (es : list Discovery) (s : MapServer) :
  Forall withinVision es -> dims_ok (dimsOf s) ->
  dims_ok (dimsOf (fold_left discover es s)).
Proof.
  revert s. induction es as [|e es IH]; intros s Hes Hs; simpl; [exact Hs|].
  inversion Hes; subst. apply IH; [assumption|]. now apply discover_positive.
Qed.

Lemma normalize_checked_ok (d : Dims) (c : Coordinate) :
  dims_ok d -> normalize_checked d c = Ok (normalize d c).
Proof.
  unfold dims_ok, normalize_checked, normalize, pymod. intros [Hw Hh].
  destruct (maxWidth d) as [w|], (maxHeight d) as [h|]; simpl in *;
    repeat match goal with
    | |- context [?z =? 0] =>
        destruct (Z.eqb_spec z 0); [lia|]
    end; reflexivity.
Qed.

(** Two coordinates that denote the same cell of a [w] x [h] torus. *)
Definition sameCell (w h : Z) (a b : Coordinate) : Prop :=
  (exists i, cx a = cx b + i * w) /\ (exists j, cy a = cy b + j * h).

Lemma normalize_canonical (w h : Z) (c : Coordinate) :
  0 < w -> 0 < h ->
  let d := {| maxWidth := Some w; maxHeight := Some h |} in
  (0 <= cx (normalize d c) < w /\ 0 <= cy (normalize d c) < h)
  /\ sameCell w h (normalize d c) c
  /\ (forall c2, sameCell w h c2 c -> normalize d c2 = normalize d c).
Proof.
  intros Hw Hh d. unfold normalize, d; simpl.
  split; [split; apply Z.mod_pos_bound; assumption|].
  split.
  - unfold sameCell; cbn [cx cy].
    split; [exists (- (cx c / w)) | exists (- (cy c / h))];
      rewrite Z.mod_eq by lia; ring.
  - intros c2 [[i Hi] [j Hj]]. rewrite Hi, Hj.
    now rewrite !Z_mod_plus_full.
Qed.

(** C3 (as stated, refuted).  A call whose relative coordinate is farther
    than the vision passed with it stores the width and the height 0:
    both dimensions are set, normalizing raises [ZeroDivisionError], and
    no coordinate satisfies [0 <= x < 0]. *)
Lemma discovery_of_dimension_zero :
  let e := {| agentCoordinate1 := XY 5 5; agentCoordinate2 := XY 0 0;
              relCoordinate := XY (-5) (-5); agentVision := 3 |} in
  let s' := fold_left discover [e] (newMapServer 60) in
  gridWidth s' = Some 0 /\ gridHeight s' = Some 0
  /\ normalize_checked (dimsOf s') (XY 1 1) = Raise ZeroDivisionError
  /\ ~ (exists c' : Coordinate, 0 <= cx c' < 0 /\ 0 <= cy c' < 0).
Proof.
  repeat split; try reflexivity.
  intros [c' [H _]]. lia.
Qed.

(** C3 (amended).  Over every sequence of calls of [calculateMapGridSize],
    a stored width (height) is only ever replaced by a strictly smaller
    value.  When the registry starts with no zero dimension and the
    relative coordinate of every call lies within the vision passed with
    it, then once both are set normalizing succeeds and gives the
    representative with [0 <= x < width] and [0 <= y < height], the same
    for all coordinates of the same cell. *)
Theorem dimension_monotonicity (s : MapServer) (es : list Discovery) :
  let s' := fold_left discover es s in
  (forall e, shrinks (gridWidth s) (gridWidth (discover s e))
             /\ shrinks (gridHeight s) (gridHeight (discover s e)))
  /\ shrinks (gridWidth s) (gridWidth s')
  /\ shrinks (gridHeight s) (gridHeight s')
  /\ (dims_ok (dimsOf s) -> Forall withinVision es ->
      forall w h c, gridWidth s' = Some w -> gridHeight s' = Some h ->
      exists c',
        normalize_checked (dimsOf s') c = Ok c'
        /\ (0 <= cx c' < w /\ 0 <= cy c' < h)
        /\ sameCell w h c' c
        /\ forall c2, sameCell w h c2 c -> normalize_checked (dimsOf s') c2 = Ok c').
Proof.
  intros s'. split; [intros e; apply discover_shrinks|].
  destruct (discoveries_shrink es s) as [Hw Hh].
  split; [exact Hw|]. split; [exact Hh|].
  intros Hs Hes w h c Ew Eh.
  pose proof (discoveries_positive es s Hes Hs) as Hpos. fold s' in Hpos.
  assert (Ed : dimsOf s' = {| maxWidth := Some w; maxHeight := Some h |})
    by (unfold dimsOf; now rewrite Ew, Eh).
  assert (Pw : 0 < w) by (destruct Hpos as [P _]; unfold dimsOf in P; simpl in P;
                          now rewrite Ew in P).
  assert (Ph : 0 < h) by (destruct Hpos as [_ P]; unfold dimsOf in P; simpl in P;
                          now rewrite Eh in P).
  destruct (normalize_canonical w h c Pw Ph) as [R [S U]].
  exists (normalize (dimsOf s') c). rewrite Ed.
  split; [apply normalize_checked_ok; rewrite <- Ed; exact Hpos|].
  split; [exact R|]. split; [exact S|].
  intros c2 H2. rewrite normalize_checked_ok by (rewrite <- Ed; exact Hpos).
  f_equal. now apply U.
Qed.

Lemma dimension_monotonicity_witness :
  let e1 := {| agentCoordinate1 := XY 40 3; agentCoordinate2 := XY 0 30;
               relCoordinate := XY 2 (-1); agentVision := 5 |} in
  let e2 := {| agentCoordinate1 := XY 19 3; agentCoordinate2 := XY 0 2;
               relCoordinate := XY 2 4; agentVision := 5 |} in
  let s' := fold_left discover [e1; e2] (newMapServer 60) in
  (gridWidth s' = Some 21 /\ gridHeight s' = Some 28)
  /\ exists c', normalize_checked (dimsOf s') (XY (-1) 30) = Ok c'
                /\ (0 <= cx c' < 21 /\ 0 <= cy c' < 28).
Proof.
  intros e1 e2 s'. split; [split; reflexivity|].
  destruct (dimension_monotonicity (newMapServer 60) [e1; e2]) as [_ [_ [_ H]]].
  assert (Hd : dims_ok (dimsOf (newMapServer 60))) by (split; exact I).
  assert (Hv : Forall withinVision [e1; e2])
    by (repeat constructor; simpl; lia).
  destruct (H Hd Hv 21 28 (XY (-1) 30) eq_refl eq_refl) as [c' [E [R _]]].
  exists c'. split; [exact E | exact R].
Defined.

(** ** Dictionaries *)

Section DictFacts.
Context {K V : Type} `{Key K}.

Lemma key_eqb_refl (k : K) : key_eqb k k = true.
Proof. destruct (key_eqb_spec k k); congruence. Qed.

Lemma key_eqb_neq (a b : K) : a <> b -> key_eqb a b = false.
Proof. destruct (key_eqb_spec a b); congruence. Qed.

Lemma mem_In (k : K) (l : list K) : mem k l = true <-> In k l.
Proof.
  induction l as [|k' l IH]; simpl; [split; [discriminate | tauto]|].
  rewrite orb_true_iff, IH.
  destruct (key_eqb_spec k k'); intuition congruence.
Qed.

Lemma mem_false_In (k : K) (l : list K) : mem k l = false <-> ~ In k l.
Proof. rewrite <- mem_In. destruct (mem k l); intuition congruence. Qed.

Lemma get_set_same (m : dict K V) (k : K) (v : V) : get (set m k v) k = Some v.
Proof.
  induction m as [|[k' v'] m IH]; simpl.
  - now rewrite key_eqb_refl.
  - destruct (key_eqb k k') eqn:E; simpl; rewrite E; auto.
Qed.

Lemma get_set_other (m : dict K V) (k k2 : K) (v : V) :
  k2 <> k -> get (set m k v) k2 = get m k2.
Proof.
  intros N. induction m as [|[k' v'] m IH]; simpl.
  - now rewrite (key_eqb_neq _ _ N).
  - destruct (key_eqb_spec k k') as [->|E]; simpl.
    + now rewrite (key_eqb_neq _ _ N).
    + now rewrite IH.
Qed.

Lemma get_In (m : dict K V) (k : K) (v : V) : get m k = Some v -> In (k, v) m.
Proof.
  induction m as [|[k' v'] m IH]; simpl; [discriminate|].
  destruct (key_eqb_spec k k') as [->|E].
  - intros [= ->]. now left.
  - intros G. right. auto.
Qed.

Lemma get_None_keys (m : dict K V) (k : K) : get m k = None <-> ~ In k (keys m).
Proof.
  induction m as [|[k' v'] m IH]; simpl; [tauto|].
  destruct (key_eqb_spec k k') as [->|E].
  - split; [discriminate | tauto].
  - rewrite IH. intuition congruence.
Qed.

Lemma In_get (m : dict K V) (k : K) (v : V) :
  NoDup (keys m) -> In (k, v) m -> get m k = Some v.
Proof.
  induction m as [|[k' v'] m IH]; simpl; [tauto|].
  intros ND [E|I]; inversion ND as [|? ? N ND']; subst.
  - injection E as -> ->. now rewrite key_eqb_refl.
  - destruct (key_eqb_spec k k') as [->|E]; [|auto].
    exfalso. apply N. change k' with (fst (k', v)). now apply in_map.
Qed.

Lemma keys_set (m : dict K V) (k : K) (v : V) :
  keys (set m k v) = if mem k (keys m) then keys m else keys m ++ [k].
Proof.
  induction m as [|[k' v'] m IH]; simpl; [reflexivity|].
  destruct (key_eqb_spec k k') as [->|E]; simpl; [reflexivity|].
  rewrite IH. now destruct (mem k (keys m)).
Qed.

Lemma NoDup_set (m : dict K V) (k : K) (v : V) : NoDup (keys m) -> NoDup (keys (set m k v)).
Proof.
  intros ND. rewrite keys_set. destruct (mem k (keys m)) eqn:E; [exact ND|].
  apply mem_false_In in E.
  apply NoDup_app; [exact ND | repeat constructor; simpl; tauto |].
  intros x Hx [<-|[]]. tauto.
Qed.

Lemma keys_del_incl (m : dict K V) (k k2 : K) : In k2 (keys (del m k)) -> In k2 (keys m).
Proof.
  induction m as [|[k' v'] m IH]; simpl; [tauto|].
  destruct (key_eqb k k'); simpl; tauto.
Qed.

Lemma NoDup_del (m : dict K V) (k : K) : NoDup (keys m) -> NoDup (keys (del m k)).
Proof.
  induction m as [|[k' v'] m IH]; simpl; [trivial|].
  intros ND. inversion ND as [|? ? N ND']; subst.
  destruct (key_eqb k k'); simpl; [exact ND'|].
  constructor; [|auto]. intros I. apply N. eapply keys_del_incl; eauto.
Qed.

Lemma get_del_same (m : dict K V) (k : K) : NoDup (keys m) -> get (del m k) k = None.
Proof.
  induction m as [|[k' v'] m IH]; simpl; [reflexivity|].
  intros ND. inversion ND as [|? ? N ND']; subst.
  destruct (key_eqb_spec k k') as [->|E]; simpl.
  - now apply get_None_keys.
  - rewrite (key_eqb_neq _ _ E). auto.
Qed.

Lemma get_del_other (m : dict K V) (k k2 : K) : k2 <> k -> get (del m k) k2 = get m k2.
Proof.
  intros N. induction m as [|[k' v'] m IH]; simpl; [reflexivity|].
  destruct (key_eqb_spec k k') as [->|E]; simpl.
  - now rewrite (key_eqb_neq _ _ N).
  - now rewrite IH.
Qed.

End DictFacts.

(** ** Querying the map *)

Lemma dispenser_has_type (dm : DispenserMap) (key : Coordinate) :
  mem key (getAllDispenserCoords dm) = true ->
  exists type rest, dispenserTypesAt dm key = type :: rest.
Proof.
  unfold getAllDispenserCoords, dispenserTypesAt.
  induction dm as [|[t ds] dm IH]; simpl; [discriminate|].
  intros M. apply mem_In in M. apply in_app_or in M.
  destruct (mem key ds) eqn:E; simpl; [eauto|].
  destruct M as [M|M].
  - apply mem_In in M. congruence.
  - apply IH. now apply mem_In.
Qed.

Lemma getDispenserMapValueByCoord_ok (dm : DispenserMap) (key : Coordinate) :
  mem key (getAllDispenserCoords dm) = true ->
  exists type, getDispenserMapValueByCoord dm key = Ok (MkMapValue DISPENSER type 0).
Proof.
  intros M. destruct (dispenser_has_type dm key M) as [t [rest E]].
  unfold getDispenserMapValueByCoord. rewrite E. eauto.
Qed.

Lemma getMapValue_returns (self : DynamicMap) (key : Coordinate)
    (needMarker needDispenser : bool) :
  exists v, getMapValue self key needMarker needDispenser = Ok v.
Proof.
  unfold getMapValue.
  destruct (if needMarker then get (markers self) key else None); [eauto|].
  destruct (get (store self) key) as [v|]; [|eauto].
  destruct (mem key (getAllDispenserCoords (dispenserMap self))) eqn:M.
  - destruct (getDispenserMapValueByCoord_ok _ _ M) as [t ->].
    destruct needDispenser; simpl; [eauto|].
    destruct (negb _); eauto.
  - rewrite andb_false_r. simpl. eauto.
Qed.

(** C10.  [getMapValue] returns a value for every coordinate and both
    flags; for a coordinate that is a key of neither the marker index nor
    the cell store (whatever the dispenser index holds) the value is
    [MapValue(UNKNOWN, "", 0)]. *)
Theorem getMapValue_total (self : DynamicMap) (key : Coordinate)
    (needMarker needDispenser : bool) :
  (exists v, getMapValue self key needMarker needDispenser = Ok v)
  /\ (contains (markers self) key = false ->
      contains (store self) key = false ->
      getMapValue self key needMarker needDispenser = Ok (MkMapValue UNKNOWN "" 0)).
Proof.
  split; [apply getMapValue_returns|].
  unfold contains, getMapValue. intros Hm Hs.
  destruct (get (markers self) key); [discriminate|].
  destruct (get (store self) key); [discriminate|].
  now destruct needMarker.
Qed.

(** ** Marker expiry in [addRange] *)

(** What the purge loop does to the entry of one coordinate. *)
Definition purgeEntry (simulationStep_ interval : Z) (o : option MapValue) : option MapValue :=
  match o with
  | Some m => if interval <=? simulationStep_ - simulationStep m then None else Some m
  | None => None
  end.

Lemma fold_left_Raise {A B : Type} (f : Result A -> B -> Result A) (l : list B) (e : PyError) :
  (forall b, f (Raise e) b = Raise e) -> fold_left f l (Raise e) = Raise e.
Proof. intros Hf. induction l as [|b l IH]; simpl; [reflexivity|]. now rewrite Hf. Qed.

Lemma purge_loop (simulationStep_ interval : Z) (l : list Coordinate) :
  forall cur : dict Coordinate MapValue,
  NoDup l -> NoDup (keys cur) ->
  (forall c, In c l -> get cur c <> None) ->
  exists res,
    fold_left (purgeMarker simulationStep_ interval) l (Ok cur) = Ok res
    /\ forall c, get res c
                 = if mem c l then purgeEntry simulationStep_ interval (get cur c)
                   else get cur c.
Proof.
  induction l as [|k l IH]; intros cur NDl NDc Hl; cbn [fold_left].
  - exists cur. split; reflexivity.
  - inversion NDl as [|? ? Nk NDl']; subst.
    destruct (get cur k) as [m|] eqn:G; [|exfalso; apply (Hl k); [now left | exact G]].
    assert (S1 : purgeMarker simulationStep_ interval (Ok cur) k
                 = if interval <=? simulationStep_ - simulationStep m
                   then Ok (del cur k) else Ok cur)
      by (unfold purgeMarker, item; simpl; now rewrite G).
    rewrite S1.
    destruct (interval <=? simulationStep_ - simulationStep m) eqn:Old.
    + assert (Hl' : forall c, In c l -> get (del cur k) c <> None).
      { intros c Hc. rewrite get_del_other by (intros ->; contradiction).
        apply Hl. now right. }
      destruct (IH (del cur k) NDl' (NoDup_del cur k NDc) Hl') as [res [E R]].
      exists res. split; [exact E|]. intros c. rewrite R. cbn [mem].
      destruct (key_eqb_spec c k) as [->|N]; cbn [orb].
      * apply mem_false_In in Nk. rewrite Nk, get_del_same, G by assumption.
        simpl. now rewrite Old.
      * now rewrite get_del_other.
    + assert (Hl' : forall c, In c l -> get cur c <> None)
        by (intros c Hc; apply Hl; now right).
      destruct (IH cur NDl' NDc Hl') as [res [E R]].
      exists res. split; [exact E|]. intros c. rewrite R. cbn [mem].
      destruct (key_eqb_spec c k) as [->|N]; cbn [orb]; [|reflexivity].
      apply mem_false_In in Nk. rewrite Nk, G. simpl. now rewrite Old.
Qed.

Lemma purgeMarkers_spec (simulationStep_ interval : Z) (ms : dict Coordinate MapValue) :
  NoDup (keys ms) ->
  exists res,
    purgeMarkers simulationStep_ interval ms = Ok res
    /\ forall c, get res c = purgeEntry simulationStep_ interval (get ms c).
Proof.
  intros ND. unfold purgeMarkers.
  assert (Hl : forall c, In c (keys ms) -> get ms c <> None)
    by (intros c Hc G; now apply get_None_keys in G).
  destruct (purge_loop simulationStep_ interval (keys ms) ms ND ND Hl) as [res [E R]].
  exists res. split; [exact E|]. intros c. rewrite R.
  destruct (mem c (keys ms)) eqn:M; [reflexivity|].
  apply mem_false_In in M. apply get_None_keys in M. now rewrite M.
Qed.

Lemma addMarkers_NoDup (seen ms : dict Coordinate MapValue) :
  NoDup (keys ms) -> NoDup (keys (addMarkers ms seen)).
Proof.
  unfold addMarkers. revert ms.
  induction seen as [|[c v] seen IH]; intros ms ND; simpl; [exact ND|].
  apply IH. now apply NoDup_set.
Qed.

(** The facts about the first loop of [addRange] that the later loops use. *)
Lemma addThings_invariant (u : MapUpdateData) (l : dict Coordinate MapValue) :
  forall (self : DynamicMap) (deletable : list Coordinate),
  NoDup (keys (markers self)) ->
  let r := fold_left (addThing u) l (self, deletable) in
  markerPurgeInterval (fst r) = markerPurgeInterval self
  /\ goalZones (fst r) = goalZones self
  /\ NoDup (keys (markers (fst r)))
  /\ snd r = deletable
             ++ filter (fun c => mem c (goalZones self) && negb (mem c (uGoalZones u)))
                  (keys l).
Proof.
  induction l as [|[c v] l IH]; intros self deletable ND; simpl.
  - now rewrite app_nil_r.
  - match goal with |- context [fold_left _ l (?s, ?dl)] =>
      assert (ND1 : NoDup (keys (markers s)))
        by (simpl; destruct (_ && _); [now apply NoDup_del | exact ND]);
      destruct (IH s dl ND1) as [I1 [I2 [I3 I4]]]
    end.
    simpl in I1, I2, I4. rewrite I1, I2, I4. repeat split; try assumption.
    destruct (mem c (goalZones self) && negb (mem c (uGoalZones u))); simpl;
      [now rewrite <- app_assoc | reflexivity].
Qed.

Lemma In_list_remove_other (c c' : Coordinate) (l : list Coordinate) :
  c' <> c -> In c' l -> In c' (list_remove c l).
Proof.
  intros N. induction l as [|a l IH]; simpl; [tauto|].
  destruct (key_eqb_spec c a) as [->|E]; simpl; intuition congruence.
Qed.

Lemma deleteGoalZones_ok (deletable : list Coordinate) :
  forall zones, NoDup deletable -> (forall c, In c deletable -> In c zones) ->
  exists z, deleteGoalZones zones deletable = Ok z.
Proof.
  induction deletable as [|c rest IH]; intros zones ND Hin; simpl; [eauto|].
  inversion ND as [|? ? N ND']; subst.
  assert (M : mem c zones = true) by (apply mem_In, Hin; now left).
  rewrite M. apply IH; [exact ND'|].
  intros c' Hc'. apply In_list_remove_other; [intros ->; contradiction|].
  apply Hin. now right.
Qed.

(** The marker index after the first two loops of [addRange]: markers that
    disappeared are deleted, the observed ones are recorded. *)
Definition recordedMarkers (self : DynamicMap) (updateData : MapUpdateData)
    : dict Coordinate MapValue :=
  addMarkers (markers (fst (fold_left (addThing updateData) (things updateData) (self, []))))
    (uMarkers updateData).

(** C8.  For a map and a percept whose dictionaries have distinct keys,
    [addRange] returns; every marker of the updated map was recorded less
    than [markerPurgeInterval] steps before the step of the update, and
    the updated marker index is the recorded one without the markers
    whose age reaches the interval. *)
Theorem markers_expire (self : DynamicMap) (simulationStep_ : Z) (updateData : MapUpdateData) :
  NoDup (keys (markers self)) ->
  NoDup (keys (things updateData)) ->
  exists self',
    addRange self simulationStep_ updateData = Ok self'
    /\ (forall c m, get (markers self') c = Some m ->
                    simulationStep_ - simulationStep m < markerPurgeInterval self)
    /\ (forall c m, get (recordedMarkers self updateData) c = Some m ->
                    markerPurgeInterval self <= simulationStep_ - simulationStep m ->
                    get (markers self') c = None)
    /\ (forall c, get (markers self') c
                  = purgeEntry simulationStep_ (markerPurgeInterval self)
                      (get (recordedMarkers self updateData) c)).
Proof.
  intros NDm NDt. unfold addRange, recordedMarkers.
  destruct (addThings_invariant updateData (things updateData) self [] NDm)
    as [I1 [I2 [I3 I4]]].
  destruct (fold_left (addThing updateData) (things updateData) (self, []))
    as [self1 deletable]. simpl in I1, I2, I3, I4. simpl fst.
  destruct (purgeMarkers_spec simulationStep_ (markerPurgeInterval self1)
              (addMarkers (markers self1) (uMarkers updateData))
              (addMarkers_NoDup _ _ I3)) as [markers3 [E3 R3]].
  rewrite E3. simpl.
  assert (D : exists z, deleteGoalZones (goalZones self1) deletable = Ok z).
  { apply deleteGoalZones_ok; rewrite I4; simpl.
    - now apply NoDup_filter.
    - intros c Hc. apply filter_In in Hc. destruct Hc as [_ Hc].
      apply andb_true_iff in Hc. destruct Hc as [Hc _].
      rewrite I2. now apply mem_In. }
  destruct D as [z ->]. simpl. eexists. split; [reflexivity|]. simpl.
  rewrite I1 in R3.
  assert (Young : forall c m, get markers3 c = Some m ->
                    simulationStep_ - simulationStep m < markerPurgeInterval self).
  { intros c m G. rewrite R3 in G.
    destruct (get (addMarkers (markers self1) (uMarkers updateData)) c) as [m0|];
      simpl in G; [|discriminate].
    destruct (Z.leb_spec (markerPurgeInterval self) (simulationStep_ - simulationStep m0));
      [discriminate|]. injection G as <-. assumption. }
  split; [exact Young|]. split; [|exact R3].
  intros c m G Old. rewrite R3, G. simpl.
  destruct (Z.leb_spec (markerPurgeInterval self) (simulationStep_ - simulationStep m));
    [reflexivity | lia].
Qed.

(** ** Merging maps *)

(** A coordinate as the constructor leaves it: already normalized. *)
Definition canonical (d : Dims) (c : Coordinate) : Prop := normalize d c = c.

Lemma congruent_in_range (w a b q : Z) :
  0 < w -> 0 <= a < w -> 0 <= b < w -> a - b = w * q -> a = b.
Proof.
  intros Hw Ha Hb E.
  destruct (Z.eq_dec q 0) as [->|N]; [lia|].
  assert (w <= w * q \/ w * q <= - w) by nia. lia.
Qed.

Lemma shift_axis_injective (o : option Z) (t a b : Z) :
  dim_pos o ->
  match o with Some w => a mod w | None => a end = a ->
  match o with Some w => b mod w | None => b end = b ->
  match o with Some w => (a + t) mod w | None => a + t end
  = match o with Some w => (b + t) mod w | None => b + t end ->
  a = b.
Proof.
  destruct o as [w|]; simpl; [|lia].
  intros Hw Ca Cb E.
  pose proof (Z.mod_pos_bound a w Hw) as Ra. rewrite Ca in Ra.
  pose proof (Z.mod_pos_bound b w Hw) as Rb. rewrite Cb in Rb.
  rewrite (Z.mod_eq (a + t) w), (Z.mod_eq (b + t) w) in E by lia.
  apply (congruent_in_range w a b ((a + t) / w - (b + t) / w)); try assumption.
  lia.
Qed.

Lemma shiftBy_injective (d : Dims) (xDifference yDifference : Z) (a b : Coordinate) :
  dims_ok d -> canonical d a -> canonical d b ->
  shiftBy d xDifference yDifference a = shiftBy d xDifference yDifference b -> a = b.
Proof.
  unfold canonical, shiftBy, Coord, normalize. intros [Hw Hh] Ca Cb E.
  destruct a as [ax ay], b as [bx b_y]. simpl in *.
  injection Ca as Cax Cay. injection Cb as Cbx Cby. injection E as Ex Ey.
  f_equal.
  - exact (shift_axis_injective (maxWidth d) xDifference ax bx Hw Cax Cbx Ex).
  - exact (shift_axis_injective (maxHeight d) yDifference ay b_y Hh Cay Cby Ey).
Qed.

(** "Newer step wins": the entry kept when [v] meets the stored [old]. *)
Definition newer (old : option MapValue) (v : MapValue) : MapValue :=
  match old with
  | None => v
  | Some o => if simulationStep o <? simulationStep v then v else o
  end.

(** One iteration of the loops over the cells and over the markers. *)
Definition mergeEntry (d : Dims) (xDifference yDifference : Z)
    (acc : dict Coordinate MapValue) (entry : Coordinate * MapValue)
    : dict Coordinate MapValue :=
  let shiftedCoordinate := shiftBy d xDifference yDifference (fst entry) in
  match get acc shiftedCoordinate with
  | None => set acc shiftedCoordinate (snd entry)
  | Some old =>
      if simulationStep old <? simulationStep (snd entry)
      then set acc shiftedCoordinate (snd entry) else acc
  end.

Lemma mergeStore_fold (d : Dims) (xDifference yDifference : Z)
    (mine other : dict Coordinate MapValue) :
  mergeStore d xDifference yDifference mine other
  = fold_left (mergeEntry d xDifference yDifference) other mine.
Proof. reflexivity. Qed.

Lemma mergeEntry_same (d : Dims) (xd yd : Z) (acc : dict Coordinate MapValue)
    (k : Coordinate) (v : MapValue) :
  get (mergeEntry d xd yd acc (k, v)) (shiftBy d xd yd k)
  = Some (newer (get acc (shiftBy d xd yd k)) v).
Proof.
  unfold mergeEntry, newer; simpl.
  destruct (get acc (shiftBy d xd yd k)) as [old|] eqn:G.
  - destruct (simulationStep old <? simulationStep v); [apply get_set_same | exact G].
  - apply get_set_same.
Qed.

Lemma mergeEntry_other (d : Dims) (xd yd : Z) (acc : dict Coordinate MapValue)
    (k s : Coordinate) (v : MapValue) :
  s <> shiftBy d xd yd k -> get (mergeEntry d xd yd acc (k, v)) s = get acc s.
Proof.
  intros N. unfold mergeEntry; simpl.
  destruct (get acc (shiftBy d xd yd k)) as [old|].
  - destruct (simulationStep old <? simulationStep v);
      [now apply get_set_other | reflexivity].
  - now apply get_set_other.
Qed.

Lemma merge_fold_untouched (d : Dims) (xd yd : Z) (other : dict Coordinate MapValue) :
  forall (mine : dict Coordinate MapValue) (s : Coordinate),
  ~ In s (map (shiftBy d xd yd) (keys other)) ->
  get (fold_left (mergeEntry d xd yd) other mine) s = get mine s.
Proof.
  induction other as [|[k v] other IH]; intros mine s N; simpl; [reflexivity|].
  simpl in N. rewrite IH by tauto. apply mergeEntry_other. intros ->. tauto.
Qed.

(** With an injective shift, the entry of [k] meets only what the
    receiving map held at the shifted coordinate. *)
Lemma merge_fold_entry (d : Dims) (xd yd : Z) (other : dict Coordinate MapValue) :
  forall (mine : dict Coordinate MapValue) (k : Coordinate) (v : MapValue),
  NoDup (keys other) ->
  (forall a b, In a (keys other) -> In b (keys other) ->
               shiftBy d xd yd a = shiftBy d xd yd b -> a = b) ->
  get other k = Some v ->
  get (fold_left (mergeEntry d xd yd) other mine) (shiftBy d xd yd k)
  = Some (newer (get mine (shiftBy d xd yd k)) v).
Proof.
  induction other as [|[k0 v0] other IH]; intros mine k v ND Inj G; simpl in *;
    [discriminate|].
  inversion ND as [|? ? N0 ND']; subst.
  destruct (key_eqb_spec k k0) as [->|Nk].
  - injection G as ->.
    rewrite merge_fold_untouched; [apply mergeEntry_same|].
    intros I. apply in_map_iff in I. destruct I as [b [E Hb]].
    apply N0. rewrite <- (Inj b k0); auto.
  - rewrite (IH _ k v ND'); [| intros a b Ha Hb; apply Inj; auto | exact G].
    rewrite mergeEntry_other; [reflexivity|].
    intros E. apply Nk. apply Inj; auto.
    right. apply get_In in G. change k with (fst (k, v)). now apply in_map.
Qed.

(** *** The dispenser index under a merge *)

(** The index holds a dispenser of the type at the coordinate. *)
Definition holdsDispenser (dm : DispenserMap) (type : string) (c : Coordinate) : Prop :=
  exists ds, In (type, ds) dm /\ In c ds.

Lemma set_add_In (c c' : Coordinate) (s : list Coordinate) :
  In c' (set_add c s) <-> In c' s \/ c' = c.
Proof.
  unfold set_add. destruct (mem c s) eqn:M.
  - apply mem_In in M. intuition congruence.
  - rewrite in_app_iff. simpl. intuition congruence.
Qed.

Lemma In_set_iff {V : Type} (m : dict string V) (k : string) (v : V) (k' : string) (v' : V) :
  NoDup (keys m) ->
  (In (k', v') (set m k v) <-> (k' = k /\ v' = v) \/ (k' <> k /\ In (k', v') m)).
Proof.
  intros ND. split.
  - intros I. pose proof (NoDup_set m k v ND) as ND'.
    apply (In_get _ _ _ ND') in I.
    destruct (String.eqb_spec k' k) as [->|N].
    + rewrite get_set_same in I. left. split; congruence.
    + rewrite get_set_other in I by assumption. right. split; [assumption|].
      now apply get_In.
  - intros [[-> ->]|[N I]].
    + apply get_In, get_set_same.
    + apply get_In. rewrite get_set_other by assumption. now apply In_get.
Qed.

Lemma addDispenser_NoDup (dm : DispenserMap) (type : string) (c : Coordinate) :
  NoDup (keys dm) -> NoDup (keys (addDispenser dm type c)).
Proof. intros ND. unfold addDispenser. destruct (get dm type); now apply NoDup_set. Qed.

Lemma holds_addDispenser (dm : DispenserMap) (type : string) (c : Coordinate)
    (type' : string) (c' : Coordinate) :
  NoDup (keys dm) ->
  (holdsDispenser (addDispenser dm type c) type' c'
   <-> holdsDispenser dm type' c' \/ (type' = type /\ c' = c)).
Proof.
  intros ND. unfold holdsDispenser, addDispenser.
  destruct (get dm type) as [ds0|] eqn:G.
  - split.
    + intros [ds [I Hc]]. apply In_set_iff in I; [|assumption].
      destruct I as [[-> ->]|[N I]].
      * apply set_add_In in Hc. destruct Hc as [Hc| ->]; [|now right].
        left. exists ds0. split; [now apply get_In | assumption].
      * left. eauto.
    + intros [[ds [I Hc]]|[-> ->]].
      * destruct (String.eqb_spec type' type) as [->|N].
        -- apply (In_get _ _ _ ND) in I. rewrite G in I. injection I as ->.
           exists (set_add c ds). split; [apply get_In, get_set_same|].
           apply set_add_In. now left.
        -- exists ds. split; [|assumption]. apply In_set_iff; auto.
      * exists (set_add c ds0). split; [apply get_In, get_set_same|].
        apply set_add_In. now right.
  - split.
    + intros [ds [I Hc]]. apply In_set_iff in I; [|assumption].
      destruct I as [[-> ->]|[N I]].
      * apply set_add_In in Hc. destruct Hc as [[]| ->]. now right.
      * left. eauto.
    + intros [[ds [I Hc]]|[-> ->]].
      * destruct (String.eqb_spec type' type) as [->|N].
        -- apply (In_get _ _ _ ND) in I. congruence.
        -- exists ds. split; [|assumption]. apply In_set_iff; auto.
      * exists (set_add c []). split; [apply get_In, get_set_same|].
        apply set_add_In. now right.
Qed.

Lemma holds_addDispensers_of_type (d : Dims) (xd yd : Z) (type : string)
    (coordList : list Coordinate) :
  forall (dm : DispenserMap) (type' : string) (s : Coordinate),
  NoDup (keys dm) ->
  let dm' := fold_left (fun acc' coord => addDispenser acc' type (shiftBy d xd yd coord))
               coordList dm in
  NoDup (keys dm')
  /\ (holdsDispenser dm' type' s
      <-> holdsDispenser dm type' s
          \/ (type' = type /\ exists c, In c coordList /\ shiftBy d xd yd c = s)).
Proof.
  induction coordList as [|c0 l IH]; intros dm type' s ND; simpl.
  - split; [exact ND|]. split; [tauto|]. intros [H|[_ [c [[] _]]]]. exact H.
  - destruct (IH (addDispenser dm type (shiftBy d xd yd c0)) type' s
                (addDispenser_NoDup _ _ _ ND)) as [ND' E].
    split; [exact ND'|]. rewrite E, holds_addDispenser by assumption.
    split.
    + intros [[H|[-> ->]]|[-> [c [Hc <-]]]]; eauto 7.
    + intros [H|[-> [c [[<-|Hc] <-]]]]; eauto 7.
Qed.

Lemma holds_mergeDispensers (d : Dims) (xd yd : Z) (other : DispenserMap) :
  forall (mine : DispenserMap) (type : string) (s : Coordinate),
  NoDup (keys mine) ->
  NoDup (keys (mergeDispensers d xd yd mine other))
  /\ (holdsDispenser (mergeDispensers d xd yd mine other) type s
      <-> holdsDispenser mine type s
          \/ exists c, holdsDispenser other type c /\ shiftBy d xd yd c = s).
Proof.
  unfold mergeDispensers.
  induction other as [|[t0 l0] other IH]; intros mine type s ND; simpl.
  - split; [exact ND|]. split; [tauto|].
    intros [H|[c [[ds [[] _]] _]]]. exact H.
  - destruct (holds_addDispensers_of_type d xd yd t0 l0 mine type s ND) as [ND1 E1].
    simpl in ND1, E1.
    destruct (IH _ type s ND1) as [ND2 E2].
    split; [exact ND2|]. rewrite E2, E1. unfold holdsDispenser. simpl.
    split.
    + intros [[H|[-> [c [Hc <-]]]]|[c [[ds [I Hc]] <-]]]; eauto 9.
    + intros [H|[c [[ds [[E|I] Hc]] <-]]]; [tauto| |eauto 9].
      injection E as -> ->. left. right. eauto.
Qed.

Lemma dispenserTypesAt_In (dm : DispenserMap) (type : string) (c : Coordinate) :
  In type (dispenserTypesAt dm c) <-> holdsDispenser dm type c.
Proof.
  unfold dispenserTypesAt, holdsDispenser. rewrite in_map_iff. split.
  - intros [[t ds] [E I]]. simpl in E. subst t. apply filter_In in I.
    destruct I as [I M]. exists ds. split; [assumption | now apply mem_In].
  - intros [ds [I Hc]]. exists (type, ds). split; [reflexivity|].
    apply filter_In. split; [assumption | now apply mem_In].
Qed.

Lemma NoDup_map_fst_filter {A B : Type} (p : A * B -> bool) (l : list (A * B)) :
  NoDup (map fst l) -> NoDup (map fst (filter p l)).
Proof.
  induction l as [|[a b] l IH]; simpl; intros ND; [constructor|].
  inversion ND as [|? ? N ND']; subst.
  destruct (p (a, b)); simpl; [|auto].
  constructor; [|auto]. intros I. apply N.
  apply in_map_iff in I. destruct I as [x [E I]].
  apply filter_In in I. apply in_map_iff. exists x. tauto.
Qed.

Lemma dispenserTypesAt_NoDup (dm : DispenserMap) (c : Coordinate) :
  NoDup (keys dm) -> NoDup (dispenserTypesAt dm c).
Proof. apply NoDup_map_fst_filter. Qed.

Lemma isDispenser_iff (dm : DispenserMap) (c : Coordinate) :
  mem c (getAllDispenserCoords dm) = true <-> exists type, holdsDispenser dm type c.
Proof.
  rewrite mem_In. unfold getAllDispenserCoords, holdsDispenser.
  rewrite in_flat_map. split.
  - intros [[t ds] [I Hc]]. exists t, ds. tauto.
  - intros [t [ds [I Hc]]]. exists (t, ds). tauto.
Qed.

(** Two duplicate-free lists with the same elements, one of them with at
    most one element, are the same list. *)
Lemma short_lists_equal {A : Type} (l1 l2 : list A) :
  NoDup l1 -> (List.length l2 <= 1)%nat -> (forall a, In a l1 <-> In a l2) -> l1 = l2.
Proof.
  intros ND Hlen Hiff.
  destruct l2 as [|b [|b' l2]]; simpl in Hlen; [| |lia].
  - destruct l1 as [|a l1]; [reflexivity|]. exfalso. apply (Hiff a). now left.
  - destruct l1 as [|a l1]; [exfalso; apply (Hiff b); now left|].
    assert (a = b) by (destruct (proj1 (Hiff a) (or_introl eq_refl)) as [E|[]]; congruence).
    subst a. f_equal. destruct l1 as [|a' l1]; [reflexivity|]. exfalso.
    inversion ND as [|? ? N _]; subst. apply N.
    destruct (proj1 (Hiff a') (or_intror (or_introl eq_refl))) as [E|[]].
    subst. now left.
Qed.

(** The representation invariant of a map: its dictionaries have distinct
    keys and its coordinates are normalized. *)
Definition wellFormed (d : Dims) (m : DynamicMap) : Prop :=
  NoDup (keys (store m)) /\ NoDup (keys (markers m)) /\ NoDup (keys (dispenserMap m))
  /\ Forall (canonical d) (keys (store m))
  /\ Forall (canonical d) (keys (markers m))
  /\ Forall (canonical d) (getAllDispenserCoords (dispenserMap m)).

(** The map has no cell, marker or dispenser recorded at the coordinate. *)
Definition unknownTo (m : DynamicMap) (s : Coordinate) : Prop :=
  get (store m) s = None /\ get (markers m) s = None
  /\ mem s (getAllDispenserCoords (dispenserMap m)) = false.

Lemma get_Some_key {V : Type} (m : dict Coordinate V) (k : Coordinate) (v : V) :
  get m k = Some v -> In k (keys m).
Proof.
  intros G. apply get_In in G. change k with (fst (k, v)). now apply in_map.
Qed.

Lemma mem_of_types (dm : DispenserMap) (c : Coordinate) :
  mem c (getAllDispenserCoords dm)
  = match dispenserTypesAt dm c with [] => false | _ :: _ => true end.
Proof.
  destruct (mem c (getAllDispenserCoords dm)) eqn:M.
  - apply isDispenser_iff in M. destruct M as [t H].
    apply dispenserTypesAt_In in H. now destruct (dispenserTypesAt dm c).
  - destruct (dispenserTypesAt dm c) as [|t l] eqn:E; [reflexivity|].
    assert (H : holdsDispenser dm t c) by (apply dispenserTypesAt_In; rewrite E; now left).
    assert (mem c (getAllDispenserCoords dm) = true) by (apply isDispenser_iff; eauto).
    congruence.
Qed.

(** The marker of the merged map at the shifted coordinate: the newer of
    the two, the receiving map's on equal steps. *)
Lemma merged_marker_entry (d : Dims) (xd yd : Z) (mine other : dict Coordinate MapValue)
    (k : Coordinate) :
  dims_ok d -> NoDup (keys other) -> Forall (canonical d) (keys other) -> canonical d k ->
  get (mergeMarkers d xd yd mine other) (shiftBy d xd yd k)
  = match get other k with
    | Some m => Some (newer (get mine (shiftBy d xd yd k)) m)
    | None => get mine (shiftBy d xd yd k)
    end.
Proof.
  intros Hd ND Can Ck.
  change (mergeMarkers d xd yd mine other)
    with (fold_left (mergeEntry d xd yd) other mine).
  rewrite Forall_forall in Can.
  destruct (get other k) as [m|] eqn:G.
  - apply (merge_fold_entry d xd yd other mine k m ND); [|exact G].
    intros a b Ha Hb. apply shiftBy_injective; auto.
  - apply merge_fold_untouched.
    intros I. apply in_map_iff in I. destruct I as [b [E Hb]].
    apply shiftBy_injective in E; auto. subst b.
    now apply get_None_keys in G.
Qed.

(** The dispensers of the merged map at the shifted coordinate: those of
    the receiving map there and those of the absorbed map at [k]. *)
Lemma merged_dispenser_holds (d : Dims) (xd yd : Z) (mine other : DispenserMap)
    (k : Coordinate) (type : string) :
  dims_ok d -> NoDup (keys mine) ->
  Forall (canonical d) (getAllDispenserCoords other) -> canonical d k ->
  (holdsDispenser (mergeDispensers d xd yd mine other) type (shiftBy d xd yd k)
   <-> holdsDispenser mine type (shiftBy d xd yd k) \/ holdsDispenser other type k).
Proof.
  intros Hd NDm Can Ck. rewrite Forall_forall in Can.
  destruct (holds_mergeDispensers d xd yd other mine type (shiftBy d xd yd k) NDm) as [_ E].
  rewrite E. split.
  - intros [Hm|[c [Hc Ec]]]; [now left|]. right.
    apply shiftBy_injective in Ec; auto; [now subst c|].
    apply Can. destruct Hc as [ds [I Hc]].
    unfold getAllDispenserCoords. apply in_flat_map. exists (type, ds). tauto.
  - intros [Hm|Ho]; [now left|]. right. eauto.
Qed.

(** Whatever the receiving map [A] has recorded at [s] gives way to what
    the absorbed map [B] has at [k]: a cell and a marker of [A] are
    strictly older than those of [B], and a dispenser of [A] is one of
    [B] too. *)
Definition supersededBy (A : DynamicMap) (s : Coordinate) (B : DynamicMap) (k : Coordinate)
    : Prop :=
  (forall old v, get (store A) s = Some old -> get (store B) k = Some v ->
                 simulationStep old < simulationStep v)
  /\ (forall old, get (markers A) s = Some old ->
                  exists m, get (markers B) k = Some m
                            /\ simulationStep old < simulationStep m)
  /\ (forall type, holdsDispenser (dispenserMap A) type s ->
                   holdsDispenser (dispenserMap B) type k).

Lemma unknownTo_supersededBy (A B : DynamicMap) (s k : Coordinate) :
  unknownTo A s -> supersededBy A s B k.
Proof.
  intros [Us [Um Ud]]. split; [intros old v Ga; congruence|].
  split; [intros old Ga; congruence|].
  intros type Hd.
  assert (M : mem s (getAllDispenserCoords (dispenserMap A)) = true)
    by (apply isDispenser_iff; eauto).
  congruence.
Qed.

Lemma newer_of_older (old : option MapValue) (v : MapValue) :
  (forall o, old = Some o -> simulationStep o < simulationStep v) -> newer old v = v.
Proof.
  intros Older. unfold newer. destruct old as [o|]; [|reflexivity].
  specialize (Older o eq_refl).
  destruct (Z.ltb_spec (simulationStep o) (simulationStep v)); [reflexivity|lia].
Qed.

(** C1 (as stated, refuted).  The receiving map holds an obstacle seen at
    step 5 where the absorbed map holds an empty cell seen at step 3: the
    translation is [p - q], but the merged map answers with its own, newer
    entry. *)
Lemma merge_keeps_newer_entry :
  let A := withContents (newDynamicMap no_dims 1 "agentA" 10 60)
             [(XY 1 0, MkMapValue OBSTACLE "" 5)] [] [] in
  let B := withContents (newDynamicMap no_dims 2 "agentB" 10 60)
             [(XY 0 0, MkMapValue EMPTY "" 3)] [] [] in
  let '(A', t) := merge no_dims A B (XY 1 0) (XY 0 0) in
  t = XY 1 0
  /\ getMapValue B (XY 0 0) true false = Ok (MkMapValue EMPTY "" 3)
  /\ getMapValue A' (getShiftedCoordinate no_dims (XY 0 0) t true) true false
     = Ok (MkMapValue OBSTACLE "" 5).
Proof. repeat split. Qed.

(** C1 (amended).  [merge] returns the translation [p - q].  For a cell
    [k] of the absorbed map (a well-formed map, the dimensions not 0), the
    merged map holds at [k] shifted by the translation: as cell, the newer
    of the entry the receiving map had there and the entry of the
    absorbed map (the receiving map's on equal steps); as marker, the
    newer of the two markers likewise (the receiving map's own where the
    absorbed map has none); and a dispenser of a type exactly when the
    receiving map had one there or the absorbed map has one at [k].
    Hence, where the cell and the marker the receiving map had at the
    shifted coordinate are strictly older than those of the absorbed map
    at [k] and its dispensers there are dispensers of the absorbed map at
    [k] (in particular where it had nothing recorded), and the absorbed
    map has at most one dispenser type at [k], querying the merged map
    there gives what querying the absorbed map at [k] gave, for both
    flags. *)
Theorem merge_known_cells (d : Dims) (A B : DynamicMap) (p q k : Coordinate) (v : MapValue) :
  dims_ok d ->
  NoDup (keys (dispenserMap A)) ->
  wellFormed d B ->
  get (store B) k = Some v ->
  let A' := fst (merge d A B p q) in
  let t := snd (merge d A B p q) in
  let s := getShiftedCoordinate d k t true in
  t = XY (cx p - cx q) (cy p - cy q)
  /\ get (store A') s = Some (newer (get (store A) s) v)
  /\ get (markers A') s
     = match get (markers B) k with
       | Some m => Some (newer (get (markers A) s) m)
       | None => get (markers A) s
       end
  /\ (forall type,
        holdsDispenser (dispenserMap A') type s
        <-> holdsDispenser (dispenserMap A) type s \/ holdsDispenser (dispenserMap B) type k)
  /\ (supersededBy A s B k ->
      (List.length (dispenserTypesAt (dispenserMap B) k) <= 1)%nat ->
      forall needMarker needDispenser,
        getMapValue A' s needMarker needDispenser
        = getMapValue B k needMarker needDispenser)
  /\ (unknownTo A s -> supersededBy A s B k).
Proof.
  intros Hd NDA [NDs [NDm [NDd [Cs [Cm Cd]]]]] G A' t s.
  assert (Es : s = shiftBy d (cx p - cx q) (cy p - cy q) k) by reflexivity.
  assert (Ck : canonical d k).
  { rewrite Forall_forall in Cs. apply Cs. eapply get_Some_key; eauto. }
  assert (Inj : forall a b, In a (keys (store B)) -> In b (keys (store B)) ->
                  shiftBy d (cx p - cx q) (cy p - cy q) a
                  = shiftBy d (cx p - cx q) (cy p - cy q) b -> a = b).
  { rewrite Forall_forall in Cs. intros a b Ha Hb. apply shiftBy_injective; auto. }
  assert (St : get (store A') s = Some (newer (get (store A) s) v)).
  { rewrite Es. unfold A', merge; simpl. rewrite mergeStore_fold.
    now apply merge_fold_entry. }
  assert (Mk : get (markers A') s
               = match get (markers B) k with
                 | Some m => Some (newer (get (markers A) s) m)
                 | None => get (markers A) s
                 end).
  { rewrite Es. unfold A', merge. cbn [fst markers]. now apply merged_marker_entry. }
  assert (Ds : forall type,
            holdsDispenser (dispenserMap A') type s
            <-> holdsDispenser (dispenserMap A) type s
                \/ holdsDispenser (dispenserMap B) type k).
  { intros type. rewrite Es. unfold A', merge. cbn [fst dispenserMap].
    now apply merged_dispenser_holds. }
  split; [reflexivity|]. split; [exact St|]. split; [exact Mk|]. split; [exact Ds|].
  split; [|apply unknownTo_supersededBy].
  intros [Hs [Hm Hdisp]] Hlen needMarker needDispenser.
  assert (Sv : newer (get (store A) s) v = v).
  { apply newer_of_older. intros o Ga. now apply (Hs o v). }
  assert (Mv : get (markers A') s = get (markers B) k).
  { rewrite Mk. destruct (get (markers B) k) as [m|] eqn:Gm.
    - f_equal. apply newer_of_older. intros o Ga.
      destruct (Hm o Ga) as [m' [[= <-] Lt]]. exact Lt.
    - destruct (get (markers A) s) as [o|] eqn:Ga; [|reflexivity].
      destruct (Hm o eq_refl) as [m' [Bad _]]. discriminate. }
  assert (Ty : dispenserTypesAt (dispenserMap A') s = dispenserTypesAt (dispenserMap B) k).
  { apply short_lists_equal; [|exact Hlen|].
    - apply dispenserTypesAt_NoDup. unfold A', merge. cbn [fst dispenserMap].
      now destruct (holds_mergeDispensers d (cx p - cx q) (cy p - cy q) (dispenserMap B)
                      (dispenserMap A) EmptyString (XY 0 0) NDA).
    - intros type. rewrite !dispenserTypesAt_In, Ds. split; [|tauto].
      intros [Ha|Hb]; [now apply Hdisp|exact Hb]. }
  unfold getMapValue, getDispenserMapValueByCoord.
  rewrite Mv, St, Sv, G, !mem_of_types, Ty. reflexivity.
Qed.

Ltac distinct_keys :=
  repeat (constructor; [simpl; intuition discriminate|]); constructor.

Ltac all_canonical := repeat constructor.

Lemma merge_known_cells_witness :
  let d := {| maxWidth := Some 10; maxHeight := Some 10 |} in
  let A := withContents (newDynamicMap d 1 "agentA" 10 60)
             [(XY 2 2, MkMapValue OBSTACLE "" 5); (XY 3 4, MkMapValue OBSTACLE "" 2)]
             [(XY 2 4, MkMapValue MARKER "cp" 1)] [("b0"%string, [XY 1 1])] in
  let B := withContents (newDynamicMap d 2 "agentB" 10 60)
             [(XY 0 0, MkMapValue EMPTY "" 3); (XY 9 0, MkMapValue BLOCK "b1" 4)]
             [(XY 9 0, MkMapValue MARKER "ci" 4)] [("b1"%string, [XY 0 0])] in
  snd (merge d A B (XY 3 4) (XY 0 0)) = XY 3 4
  /\ getMapValue (fst (merge d A B (XY 3 4) (XY 0 0))) (XY 3 4) true false
     = Ok (MkMapValue DISPENSER "b1" 0)
  /\ getMapValue (fst (merge d A B (XY 3 4) (XY 0 0))) (XY 2 4) true false
     = Ok (MkMapValue MARKER "ci" 4).
Proof.
  intros d A B.
  assert (Hd : dims_ok d) by (split; simpl; lia).
  assert (HA : NoDup (keys (dispenserMap A))) by distinct_keys.
  assert (HB : wellFormed d B).
  { repeat split; try distinct_keys; all_canonical. }
  assert (NoDisp : forall s k type,
            s <> XY 1 1 ->
            holdsDispenser (dispenserMap A) type s -> holdsDispenser (dispenserMap B) type k).
  { intros s k type N [ds [I Hc]]. simpl in I. destruct I as [[= <- <-]|[]].
    simpl in Hc. destruct Hc as [Hc|[]]. now elim N. }
  assert (S0 : supersededBy A (XY 3 4) B (XY 0 0)).
  { split; [|split].
    - intros old v Ga Gb. vm_compute in Ga, Gb.
      injection Ga as <-. injection Gb as <-. reflexivity.
    - intros old Ga. vm_compute in Ga. discriminate.
    - intros type. apply NoDisp. discriminate. }
  assert (S9 : supersededBy A (XY 2 4) B (XY 9 0)).
  { split; [|split].
    - intros old v Ga Gb. vm_compute in Ga. discriminate.
    - intros old Ga. vm_compute in Ga. injection Ga as <-.
      exists (MkMapValue MARKER "ci" 4). split; reflexivity.
    - intros type. apply NoDisp. discriminate. }
  destruct (merge_known_cells d A B (XY 3 4) (XY 0 0) (XY 0 0) (MkMapValue EMPTY "" 3)
              Hd HA HB eq_refl) as [Ht [_ [_ [_ [H0 _]]]]].
  destruct (merge_known_cells d A B (XY 3 4) (XY 0 0) (XY 9 0) (MkMapValue BLOCK "b1" 4)
              Hd HA HB eq_refl) as [_ [_ [_ [_ [H9 _]]]]].
  split; [exact Ht|]. split.
  - apply (H0 S0). simpl. lia.
  - apply (H9 S9). simpl. lia.
Defined.

Lemma markers_expire_witness :
  let self := withContents (newDynamicMap no_dims 1 "agentA" 10 60) []
                [(XY 5 5, MkMapValue MARKER "ci" 1); (XY 6 5, MkMapValue MARKER "ci" 8)] [] in
  let updateData := {| things := [(XY 0 0, MkMapValue EMPTY "" 12)];
                       uMarkers := [(XY 1 1, MkMapValue MARKER "ci" 12)];
                       uDispensers := []; uGoalZones := []; uRoleZones := [] |} in
  exists self',
    addRange self 12 updateData = Ok self'
    /\ keys (markers self') = [XY 6 5; XY 1 1]
    /\ forall c m, get (markers self') c = Some m -> 12 - simulationStep m < 10.
Proof.
  intros self updateData.
  assert (H1 : NoDup (keys (markers self))) by distinct_keys.
  assert (H2 : NoDup (keys (things updateData))) by distinct_keys.
  destruct (markers_expire self 12 updateData H1 H2) as [self' [E [Young _]]].
  exists self'. split; [exact E|]. split; [|exact Young].
  vm_compute in E. injection E as <-. reflexivity.
Defined.

Lemma getMapValue_total_witness :
  let self := withContents (newDynamicMap no_dims 1 "agentA" 10 60)
                [(XY 0 0, MkMapValue AGENT "A" 3); (XY 1 0, MkMapValue EMPTY "" 3)]
                [(XY 2 0, MkMapValue MARKER "ci" 3)] [("b0"%string, [XY 1 0; XY 7 7])] in
  getMapValue self (XY 1 0) true false = Ok (MkMapValue DISPENSER "b0" 0)
  /\ getMapValue self (XY 7 7) true true = Ok (MkMapValue UNKNOWN "" 0)
  /\ getMapValue self (XY 4 4) true true = Ok (MkMapValue UNKNOWN "" 0).
Proof.
  intros self. split; [reflexivity|]. split.
  - exact (proj2 (getMapValue_total self (XY 7 7) true true) eq_refl eq_refl).
  - exact (proj2 (getMapValue_total self (XY 4 4) true true) eq_refl eq_refl).
Defined.

(** ** Goal-zone reservations *)

(** The agent holds a claim on the cell. *)
Definition holdsClaim (m : DynamicMap) (agentId : string) (c : Coordinate) : Prop :=
  exists l, get (agentCoordReservations m) agentId = Some l /\ In c l.

Lemma holdsClaim_reserved (m : DynamicMap) (agentId : string) (c : Coordinate) :
  holdsClaim m agentId c -> isCoordinateReservedForTask m c = true.
Proof.
  intros [l [G I]]. unfold isCoordinateReservedForTask, reservedCoordinates.
  apply mem_In, in_flat_map. exists (agentId, l). split; [now apply get_In | exact I].
Qed.

Lemma getMapValueEnum_returns (self : DynamicMap) (key : Coordinate)
    (needMarker needDispenser : bool) :
  exists e, getMapValueEnum self key needMarker needDispenser = Ok e.
Proof.
  unfold getMapValueEnum.
  destruct (getMapValue_returns self key needMarker needDispenser) as [v ->].
  simpl. eauto.
Qed.

Lemma all_result_returns {A : Type} (p : A -> Result bool) (l : list A) :
  (forall a, exists b, p a = Ok b) -> exists b, all_result p l = Ok b.
Proof.
  intros Hp. induction l as [|a l IH]; simpl; [eauto|].
  destruct (Hp a) as [[|] ->]; simpl; eauto.
Qed.

Lemma all_result_true {A : Type} (p : A -> Result bool) (l : list A) :
  all_result p l = Ok true -> forall a, In a l -> p a = Ok true.
Proof.
  induction l as [|a l IH]; simpl; [tauto|].
  destruct (p a) as [[|]|e] eqn:E; simpl; try discriminate.
  intros H a' [<-|I]; auto.
Qed.

Lemma filter_result_returns {A : Type} (p : A -> Result bool) (l : list A) :
  (forall a, exists b, p a = Ok b) ->
  exists l', filter_result p l = Ok l' /\ incl l' l.
Proof.
  intros Hp. induction l as [|a l [l' [E I]]]; simpl.
  - exists []. split; [reflexivity | apply incl_refl].
  - destruct (Hp a) as [b ->]. simpl. rewrite E. simpl.
    eexists. split; [reflexivity|].
    destruct b; [|now apply incl_tl].
    intros x [<-|Hx]; [now left | right; now apply I].
Qed.

Lemma insert_by_In {A : Type} (key : A -> Z) (a x : A) (l : list A) :
  In x (insert_by key a l) <-> x = a \/ In x l.
Proof.
  induction l as [|b l IH]; simpl; [intuition congruence|].
  destruct (key a <=? key b); simpl; [intuition congruence|].
  rewrite IH. intuition congruence.
Qed.

Lemma sorted_by_In {A : Type} (key : A -> Z) (x : A) (l : list A) :
  In x (sorted_by key l) <-> In x l.
Proof.
  unfold sorted_by. induction l as [|a l IH]; simpl; [tauto|].
  rewrite insert_by_In, IH. intuition congruence.
Qed.

Lemma cellIsFree_returns (self : DynamicMap) (reservedCoords : list Coordinate)
    (rc : Coordinate) :
  exists b, cellIsFree self reservedCoords rc = Ok b.
Proof.
  unfold cellIsFree. destruct (mem rc reservedCoords); [eauto|].
  destruct (getMapValueEnum_returns self rc false true) as [e ->]. simpl. eauto.
Qed.

Lemma cellIsFree_true (self : DynamicMap) (reservedCoords : list Coordinate)
    (rc : Coordinate) :
  cellIsFree self reservedCoords rc = Ok true -> mem rc reservedCoords = false.
Proof. unfold cellIsFree. destruct (mem rc reservedCoords); [discriminate | reflexivity]. Qed.

Lemma firstFreeGoalZone_spec (d : Dims) (self : DynamicMap)
    (reservedCoords goalZones_ blockRelCoords : list Coordinate) :
  exists result,
    firstFreeGoalZone d self reservedCoords goalZones_ blockRelCoords = Ok result
    /\ forall g, result = Some g ->
         In g goalZones_
         /\ forall c, In c (cellsChecked d g blockRelCoords) -> mem c reservedCoords = false.
Proof.
  induction goalZones_ as [|g0 rest [result [E S]]]; simpl.
  - exists None. split; [reflexivity | discriminate].
  - destruct (all_result_returns (cellIsFree self reservedCoords)
                (cellsChecked d g0 blockRelCoords) (cellIsFree_returns self reservedCoords))
      as [[|] F]; rewrite F; simpl.
    + exists (Some g0). split; [reflexivity|]. intros g [= <-].
      split; [now left|]. intros c Hc. apply (cellIsFree_true self).
      exact (all_result_true _ _ F c Hc).
    + exists result. split; [exact E|]. intros g Hg.
      destruct (S g Hg) as [I C]. split; [now right | exact C].
Qed.

Lemma closerGoalZoneCandidate_returns (d : Dims) (self : DynamicMap)
    (currentGoalZone : option Coordinate) (currentCoordinate c : Coordinate) :
  exists b, closerGoalZoneCandidate d self currentGoalZone currentCoordinate c = Ok b.
Proof.
  unfold closerGoalZoneCandidate. destruct (Coordinate_eqb c currentCoordinate); [eauto|].
  destruct (getMapValueEnum_returns self c true false) as [e ->]. simpl.
  destruct (negb _); eauto.
Qed.

(** C9 (amended).  Where the dimensions that are set are positive (at a
    dimension 0 the coordinate arithmetic raises [ZeroDivisionError]),
    [tryReserveCloserGoalZoneForTask] returns.  Without a
    free zone the map is unchanged.  On success the zone is a goal zone of
    the map; the agent's claims are exactly the cells of the new
    reservation (its prior claims are released first) and the claims of
    the other agents are untouched; none of the checked cells (the
    surroundings of the block positions) was claimed by any agent at the
    free-zone check, and after the call no other agent claims one of
    them. *)
Theorem reservation_on_success (d : Dims) (self : DynamicMap) (agentId : string)
    (currentGoalZone : option Coordinate) (currentCoordinate : Coordinate)
    (blockRelCoords : list Coordinate) :
  dims_ok d ->
  exists self' result,
    tryReserveCloserGoalZoneForTask d self agentId currentGoalZone currentCoordinate
      blockRelCoords = Ok (self', result)
    /\ match result with
       | None => self' = self
       | Some goalZone =>
           In goalZone (goalZones self)
           /\ get (agentCoordReservations self') agentId
              = Some (cellsToReserve d goalZone blockRelCoords)
           /\ (forall other, other <> agentId ->
                 get (agentCoordReservations self') other
                 = get (agentCoordReservations self) other)
           /\ (forall c, In c (cellsChecked d goalZone blockRelCoords) ->
                 isCoordinateReservedForTask self c = false)
           /\ (forall c other, In c (cellsChecked d goalZone blockRelCoords) ->
                 other <> agentId -> ~ holdsClaim self' other c)
       end.
Proof.
  intros _. unfold tryReserveCloserGoalZoneForTask.
  destruct (filter_result_returns
              (closerGoalZoneCandidate d self currentGoalZone currentCoordinate)
              (goalZones self)
              (closerGoalZoneCandidate_returns d self currentGoalZone currentCoordinate))
    as [candidates [-> Incl]]. simpl.
  unfold getFirstFreeGoalZoneForTask.
  destruct (firstFreeGoalZone_spec d self (reservedCoordinates self)
              (sorted_by (fun c => distanceSquared d c currentCoordinate) candidates)
              blockRelCoords) as [result [-> S]]. simpl.
  destruct result as [goalZone|]; [|exists self, None; split; reflexivity].
  destruct (S goalZone eq_refl) as [I Free].
  eexists. exists (Some goalZone). split; [reflexivity|].
  assert (Others : forall other, other <> agentId ->
            get (agentCoordReservations
                   (reserveCoordinatesForTask d (freeCoordinatesFromTask self agentId)
                      agentId goalZone blockRelCoords)) other
            = get (agentCoordReservations self) other).
  { intros other N. unfold reserveCoordinatesForTask, freeCoordinatesFromTask; simpl.
    unfold contains. rewrite get_set_same.
    now rewrite !get_set_other by assumption. }
  split; [apply Incl; now apply sorted_by_In in I|].
  split.
  { unfold reserveCoordinatesForTask, freeCoordinatesFromTask; simpl.
    unfold contains. rewrite !get_set_same. reflexivity. }
  split; [exact Others|]. split; [exact Free|].
  intros c other Hc N [l [G Hl]]. rewrite Others in G by assumption.
  assert (R : isCoordinateReservedForTask self c = true)
    by (apply (holdsClaim_reserved self other); exists l; auto).
  unfold isCoordinateReservedForTask in R. rewrite (Free c Hc) in R. discriminate.
Qed.

Lemma reservation_on_success_witness :
  let d := {| maxWidth := Some 10; maxHeight := Some 10 |} in
  let self := withGoalZones
                (setReservations (newDynamicMap d 1 "agentA" 10 60)
                   [("agentA"%string, [XY 7 7]); ("agentB"%string, [XY 8 8])])
                [XY 0 0] in
  exists self',
    tryReserveCloserGoalZoneForTask d self "agentA" None (XY 5 5) [XY 0 1]
    = Ok (self', Some (XY 0 0))
    /\ get (agentCoordReservations self') "agentA"%string
       = Some (cellsToReserve d (XY 0 0) [XY 0 1])
    /\ get (agentCoordReservations self') "agentB"%string = Some [XY 8 8]
    /\ ~ holdsClaim self' "agentB" (XY 0 2).
Proof.
  intros d self.
  destruct (reservation_on_success d self "agentA" None (XY 5 5) [XY 0 1])
    as [self' [result [E R]]]; [split; simpl; lia|].
  assert (Er : result = Some (XY 0 0)).
  { vm_compute in E. injection E as _ <-. reflexivity. }
  subst result. destruct R as [_ [Mine [Others [_ Excl]]]].
  exists self'. split; [exact E|]. split; [exact Mine|]. split.
  - rewrite Others by discriminate. reflexivity.
  - apply Excl; [vm_compute; auto 20|discriminate].
Defined.

(** C9 (as stated, refuted).  (1) Agent B holds the cell (0, -1).  Agent A,
    holding nothing, asks for a zone for a task with one block at (0, 1):
    the goal zone (0, 0) is found free, because only the surroundings of
    the block position are checked, and A's new reservation, which also
    covers the surroundings of the goal zone, contains (0, -1).  (2) A merge
    carries the claims of the absorbed map over, shifted: afterwards two
    agents hold a claim on the same cell. *)
Lemma reservation_not_exclusive :
  (let self := withGoalZones
                 (setReservations (newDynamicMap no_dims 1 "agentA" 10 60)
                    [("agentB"%string, [XY 0 (-1)])])
                 [XY 0 0] in
   exists self',
     tryReserveCloserGoalZoneForTask no_dims self "agentA" None (XY 5 5) [XY 0 1]
     = Ok (self', Some (XY 0 0))
     /\ isCoordinateReservedForTask self (XY 0 (-1)) = true
     /\ holdsClaim self' "agentA" (XY 0 (-1))
     /\ holdsClaim self' "agentB" (XY 0 (-1)))
  /\
  (let A := setReservations (newDynamicMap no_dims 1 "agentA" 10 60)
              [("agentA"%string, [XY 3 3])] in
   let B := setReservations (newDynamicMap no_dims 2 "agentB" 10 60)
              [("agentB"%string, [XY 1 3])] in
   holdsClaim (fst (merge no_dims A B (XY 2 0) (XY 0 0))) "agentA" (XY 3 3)
   /\ holdsClaim (fst (merge no_dims A B (XY 2 0) (XY 0 0))) "agentB" (XY 3 3)).
Proof.
  split.
  - eexists. split; [vm_compute; reflexivity|].
    split; [reflexivity|].
    split; eexists; (split; [vm_compute; reflexivity | simpl; tauto]).
  - split; eexists; (split; [vm_compute; reflexivity | simpl; tauto]).
Qed.

(** ** Identity resolution *)

Lemma scan_extends (d : Dims) (agentId : string) (dynamicPercept : dict Coordinate MapValue)
    (otherAgentCoord : Coordinate) (percepts : dict string (dict Coordinate MapValue)) :
  forall canditates canditates1,
  scanCandidates d percepts agentId dynamicPercept otherAgentCoord canditates
  = Ok canditates1 ->
  exists passed, canditates1 = canditates ++ passed.
Proof.
  unfold scanCandidates.
  induction percepts as [|other percepts IH]; intros canditates canditates1;
    cbn [fold_left].
  - intros [= <-]. exists []. now rewrite app_nil_r.
  - unfold scanOther at 2. cbn [bind].
    destruct (seesFromNegatedPerspective d agentId dynamicPercept otherAgentCoord
                (fst other) (snd other)) as [sees|e]; simpl.
    + destruct (sees && contradictionFree d dynamicPercept otherAgentCoord (snd other)).
      * intros E. apply IH in E. destruct E as [passed ->].
        rewrite <- app_assoc. eauto.
      * apply IH.
    + rewrite fold_left_Raise by reflexivity. discriminate.
Qed.

Lemma decideResolution_single (d : Dims) (self : MapServer) (agentId : string)
    (dynamicPercept : dict Coordinate MapValue) (canditates : list Candidate)
    (r : Resolution) :
  decideResolution d self agentId dynamicPercept canditates = Ok r ->
  r <> NoAction -> List.length canditates = 1%nat.
Proof.
  unfold decideResolution.
  destruct (getMap self agentId) as [currentAgentMap|e]; simpl; [|discriminate].
  destruct canditates as [|[canditateId canditateRelCoord] [|c2 rest]];
    try (intros [= <-] N; now elim N).
  reflexivity.
Qed.

Lemma resolveCandidates_idle (d : Dims) (st st1 : Identification) (agentId : string)
    (dynamicPercept : dict Coordinate MapValue) (canditates : list Candidate) :
  List.length canditates <> 1%nat ->
  resolveCandidates d st agentId dynamicPercept canditates = Ok st1 -> st1 = st.
Proof.
  intros Hlen. unfold resolveCandidates.
  destruct (decideResolution d (server st) agentId dynamicPercept canditates)
    as [r|e] eqn:D; simpl; [|discriminate].
  destruct r; simpl.
  - congruence.
  - exfalso. apply Hlen. eapply decideResolution_single; eauto. discriminate.
  - exfalso. apply Hlen. eapply decideResolution_single; eauto. discriminate.
Qed.

Lemma identifySightings_idle (d : Dims) (agentId : string)
    (dynamicPercept : dict Coordinate MapValue) (sightings : list Coordinate) :
  forall st canditates st1 canditates1,
  (2 <= List.length canditates)%nat ->
  identifySightings d agentId dynamicPercept (st, canditates) sightings
  = Ok (st1, canditates1) ->
  st1 = st /\ (2 <= List.length canditates1)%nat.
Proof.
  induction sightings as [|otherAgentCoord rest IH];
    intros st canditates st1 canditates1 Hlen; simpl.
  - intros [= <- <-]. auto.
  - destruct (scanCandidates d (currentDynamicPerceptWrappers (server st)) agentId
                dynamicPercept otherAgentCoord canditates) as [cands|e] eqn:S;
      simpl; [|discriminate].
    destruct (scan_extends _ _ _ _ _ _ _ S) as [passed ->].
    assert (Hlen' : (2 <= List.length (canditates ++ passed))%nat)
      by (rewrite length_app; lia).
    destruct (resolveCandidates d st agentId dynamicPercept (canditates ++ passed))
      as [st2|e] eqn:R; simpl; [|discriminate].
    apply resolveCandidates_idle in R; [subst st2 | lia].
    now apply IH.
Qed.

(** The two tests of the scan on one other agent: it sees a teammate from
    the negated perspective, and the surrounding-cell check finds no
    contradiction. *)
Definition passesCheck (d : Dims) (agentId : string)
    (dynamicPercept : dict Coordinate MapValue) (otherAgentCoord : Coordinate)
    (other : string * dict Coordinate MapValue) : bool :=
  match seesFromNegatedPerspective d agentId dynamicPercept otherAgentCoord
          (fst other) (snd other) with
  | Ok sees => sees && contradictionFree d dynamicPercept otherAgentCoord (snd other)
  | Raise _ => false
  end.

Lemma passesCheck_spec (d : Dims) (agentId : string)
    (dynamicPercept : dict Coordinate MapValue) (otherAgentCoord : Coordinate)
    (other : string * dict Coordinate MapValue) :
  passesCheck d agentId dynamicPercept otherAgentCoord other = true
  <-> seesFromNegatedPerspective d agentId dynamicPercept otherAgentCoord
        (fst other) (snd other) = Ok true
      /\ contradictionFree d dynamicPercept otherAgentCoord (snd other) = true.
Proof.
  unfold passesCheck.
  destruct (seesFromNegatedPerspective d agentId dynamicPercept otherAgentCoord
              (fst other) (snd other)) as [[|]|e]; cbn [andb].
  - split; [auto|intros [_ C]; exact C].
  - split; [discriminate|intros [S _]; discriminate].
  - split; [discriminate|intros [S _]; discriminate].
Qed.

(** The scan of one sighting appends the other agents that pass the two
    tests, in the order of the registry, paired with the sighting. *)
Lemma scan_exact (d : Dims) (agentId : string) (dynamicPercept : dict Coordinate MapValue)
    (otherAgentCoord : Coordinate) (percepts : dict string (dict Coordinate MapValue)) :
  forall canditates canditates1,
  scanCandidates d percepts agentId dynamicPercept otherAgentCoord canditates
  = Ok canditates1 ->
  canditates1
  = canditates
    ++ List.map (fun other => (fst other, copy d otherAgentCoord false))
         (filter (passesCheck d agentId dynamicPercept otherAgentCoord) percepts).
Proof.
  unfold scanCandidates.
  induction percepts as [|other percepts IH]; intros canditates canditates1;
    cbn [fold_left filter].
  - intros [= <-]. cbn [List.map]. now rewrite app_nil_r.
  - unfold scanOther at 2. cbn [bind]. unfold passesCheck at 1.
    destruct (seesFromNegatedPerspective d agentId dynamicPercept otherAgentCoord
                (fst other) (snd other)) as [sees|e]; cbn [bind].
    + destruct (sees && contradictionFree d dynamicPercept otherAgentCoord (snd other)).
      * intros E. apply IH in E. rewrite E. cbn [List.map].
        rewrite <- app_assoc. reflexivity.
      * apply IH.
    + rewrite fold_left_Raise by reflexivity. discriminate.
Qed.

(** What a check acts on: the one entry of the list. *)
Lemma decideResolution_acts (d : Dims) (self : MapServer) (agentId : string)
    (dynamicPercept : dict Coordinate MapValue) (canditates : list Candidate)
    (r : Resolution) :
  decideResolution d self agentId dynamicPercept canditates = Ok r ->
  r <> NoAction ->
  exists canditateId canditateRelCoord,
    canditates = [(canditateId, canditateRelCoord)]
    /\ match r with
       | NoAction => False
       | MergeMaps firstAgentId secondAgentId _ _ =>
           firstAgentId = agentId /\ secondAgentId = canditateId
       | CalculateMapGridSize e => relCoordinate e = canditateRelCoord
       end.
Proof.
  unfold decideResolution.
  destruct (getMap self agentId) as [currentAgentMap|e]; cbn [bind]; [|discriminate].
  destruct canditates as [|[canditateId canditateRelCoord] [|c2 rest]];
    try (intros [= <-] N; now elim N).
  intros E N. exists canditateId, canditateRelCoord. split; [reflexivity|].
  destruct (getAgentCoordinate d currentAgentMap agentId) as [currentAgentCoordinate|e];
    cbn [bind] in E; [|discriminate].
  destruct (item (aliasis self) agentId) as [alias1|e]; cbn [bind] in E; [|discriminate].
  destruct (item (aliasis self) canditateId) as [alias2|e]; cbn [bind] in E; [|discriminate].
  destruct (negb (alias1 =? alias2)).
  - destruct (item (maps self) alias2) as [canditateMap|e]; cbn [bind] in E; [|discriminate].
    injection E as <-. split; reflexivity.
  - destruct (getAgentCoordinate d currentAgentMap canditateId) as [canditateCoordinate|e];
      cbn [bind] in E; [|discriminate].
    destruct (negb (Coordinate_eqb canditateCoordinate
                      (getShiftedCoordinate d currentAgentCoordinate canditateRelCoord true))).
    + destruct (maxX (keys dynamicPercept)) as [vision|e]; cbn [bind] in E; [|discriminate].
      injection E as <-. reflexivity.
    + injection E as <-. now elim N.
Qed.

(** The percepts of the step are not touched by a merge or a dimension
    calculation. *)
Lemma resolveCandidates_percepts (d : Dims) (st st1 : Identification) (agentId : string)
    (dynamicPercept : dict Coordinate MapValue) (canditates : list Candidate) :
  resolveCandidates d st agentId dynamicPercept canditates = Ok st1 ->
  currentDynamicPerceptWrappers (server st1) = currentDynamicPerceptWrappers (server st).
Proof.
  unfold resolveCandidates.
  destruct (decideResolution d (server st) agentId dynamicPercept canditates) as [r|e];
    cbn [bind]; [|discriminate].
  destruct r as [|firstAgentId secondAgentId othersCoordinateInMyMap agentIdsToBeUpdated|e];
    cbn [applyResolution].
  - now intros [= <-].
  - unfold mergeMaps.
    destruct (item (aliasis (server st)) firstAgentId) as [firstMapId|e];
      cbn [bind]; [|discriminate].
    destruct (item (aliasis (server st)) secondAgentId) as [secondMapId|e];
      cbn [bind]; [|discriminate].
    destruct (item (maps (server st)) firstMapId) as [firstMap|e];
      cbn [bind]; [|discriminate].
    destruct (item (maps (server st)) secondMapId) as [secondMap|e];
      cbn [bind]; [|discriminate].
    destruct (getAgentCoordinate d secondMap secondAgentId) as [q|e];
      cbn [bind]; [|discriminate].
    destruct (merge d firstMap secondMap othersCoordinateInMyMap q) as [merged offsetCoord].
    cbn [bind]. now intros [= <-].
  - now intros [= <-].
Qed.

(** Over the sightings of one agent the candidate list only grows, and
    every entry it gains passed the two tests for one of the sightings. *)
Lemma identifySightings_candidates (d : Dims) (agentId : string)
    (dynamicPercept : dict Coordinate MapValue) (sightings : list Coordinate) :
  forall st canditates st1 canditates1,
  identifySightings d agentId dynamicPercept (st, canditates) sightings
  = Ok (st1, canditates1) ->
  currentDynamicPerceptWrappers (server st1) = currentDynamicPerceptWrappers (server st)
  /\ exists appended,
       canditates1 = canditates ++ appended
       /\ forall c, In c appended ->
            exists sighting other,
              In sighting sightings
              /\ In other (currentDynamicPerceptWrappers (server st))
              /\ c = (fst other, copy d sighting false)
              /\ passesCheck d agentId dynamicPercept sighting other = true.
Proof.
  induction sightings as [|otherAgentCoord rest IH];
    intros st canditates st1 canditates1; cbn [identifySightings].
  - intros [= <- <-]. split; [reflexivity|]. exists []. split; [now rewrite app_nil_r|].
    intros c [].
  - unfold identifySighting at 1.
    destruct (scanCandidates d (currentDynamicPerceptWrappers (server st)) agentId
                dynamicPercept otherAgentCoord canditates) as [cands|e] eqn:S;
      cbn [bind]; [|discriminate].
    destruct (resolveCandidates d st agentId dynamicPercept cands) as [st2|e] eqn:R;
      cbn [bind]; [|discriminate].
    intros E. apply IH in E. destruct E as [P [appended [-> Passed]]].
    apply resolveCandidates_percepts in R. apply scan_exact in S. subst cands.
    split; [congruence|]. eexists. split; [rewrite <- app_assoc; reflexivity|].
    intros c Hc. apply in_app_or in Hc. destruct Hc as [Hc|Hc].
    + apply in_map_iff in Hc. destruct Hc as [other [<- Ho]].
      apply filter_In in Ho. destruct Ho as [Ho Pass].
      exists otherAgentCoord, other. split; [now left|]. now repeat split.
    + destruct (Passed c Hc) as [sighting [other [Hs [Ho [Ec Pass]]]]].
      exists sighting, other. split; [now right|]. rewrite <- R. now repeat split.
Qed.

(** C2 (amended).  In the pass of one observing agent: a merge or a
    dimension calculation is chosen only at a check where the agent's
    candidate list holds exactly one entry, it is for that entry, and the
    entry is a pair (other agent, sighting) that has passed the
    negated-perspective test and the surrounding-cell contradiction check
    for a sighting scanned so far; the scan of a sighting appends exactly
    the other agents that pass the two tests, and a check with a list of
    another length leaves the registry and the results as they are; from
    the first check at which the list holds two or more entries on,
    nothing more happens for that agent in the pass. *)
Theorem unique_candidate_resolution (d : Dims) (agentId : string)
    (dynamicPercept : dict Coordinate MapValue) :
  (forall self canditates r,
     decideResolution d self agentId dynamicPercept canditates = Ok r ->
     r <> NoAction ->
     List.length canditates = 1%nat
     /\ exists canditateId canditateRelCoord,
          canditates = [(canditateId, canditateRelCoord)]
          /\ match r with
             | NoAction => False
             | MergeMaps firstAgentId secondAgentId _ _ =>
                 firstAgentId = agentId /\ secondAgentId = canditateId
             | CalculateMapGridSize e => relCoordinate e = canditateRelCoord
             end)
  /\ (forall st canditates otherAgentCoord st1 canditates1,
        identifySighting d agentId dynamicPercept (st, canditates) otherAgentCoord
        = Ok (st1, canditates1) ->
        canditates1
        = canditates
          ++ List.map (fun other => (fst other, copy d otherAgentCoord false))
               (filter (passesCheck d agentId dynamicPercept otherAgentCoord)
                  (currentDynamicPerceptWrappers (server st)))
        /\ (List.length canditates1 <> 1%nat -> st1 = st))
  /\ (forall sightings st canditates st1 canditates1,
        (2 <= List.length canditates)%nat ->
        identifySightings d agentId dynamicPercept (st, canditates) sightings
        = Ok (st1, canditates1) ->
        st1 = st /\ (2 <= List.length canditates1)%nat)
  /\ (forall otherAgentCoord other,
        passesCheck d agentId dynamicPercept otherAgentCoord other = true
        <-> seesFromNegatedPerspective d agentId dynamicPercept otherAgentCoord
              (fst other) (snd other) = Ok true
            /\ contradictionFree d dynamicPercept otherAgentCoord (snd other) = true)
  /\ (forall st scanned otherAgentCoord st1 canditates canditates1 r,
        identifySightings d agentId dynamicPercept (st, []) scanned = Ok (st1, canditates) ->
        scanCandidates d (currentDynamicPerceptWrappers (server st1)) agentId dynamicPercept
          otherAgentCoord canditates = Ok canditates1 ->
        decideResolution d (server st1) agentId dynamicPercept canditates1 = Ok r ->
        r <> NoAction ->
        exists sighting other,
          In sighting (scanned ++ [otherAgentCoord])
          /\ In other (currentDynamicPerceptWrappers (server st))
          /\ canditates1 = [(fst other, copy d sighting false)]
          /\ seesFromNegatedPerspective d agentId dynamicPercept sighting
               (fst other) (snd other) = Ok true
          /\ contradictionFree d dynamicPercept sighting (snd other) = true).
Proof.
  split.
  { intros self canditates r E N. split; [now apply (decideResolution_single _ _ _ _ _ _ E)|].
    now apply (decideResolution_acts _ _ _ _ _ _ E). }
  split.
  { intros st canditates otherAgentCoord st1 canditates1. unfold identifySighting.
    destruct (scanCandidates d (currentDynamicPerceptWrappers (server st)) agentId
                dynamicPercept otherAgentCoord canditates) as [cands|e] eqn:S;
      simpl; [|discriminate].
    destruct (resolveCandidates d st agentId dynamicPercept cands) as [st2|e] eqn:R;
      simpl; [|discriminate].
    intros [= <- <-]. split; [now apply scan_exact|].
    intros Hlen. eapply resolveCandidates_idle; eauto. }
  split; [intros sightings st canditates st1 canditates1; apply identifySightings_idle|].
  split; [intros otherAgentCoord other; apply passesCheck_spec|].
  intros st scanned otherAgentCoord st1 canditates canditates1 r Pre S D N.
  apply identifySightings_candidates in Pre.
  destruct Pre as [P [appended [-> Passed]]]. cbn [app] in S.
  apply scan_exact in S.
  destruct (decideResolution_acts _ _ _ _ _ _ D N) as [canditateId [canditateRelCoord [E _]]].
  assert (Hc : In (canditateId, canditateRelCoord) canditates1)
    by (rewrite E; now left).
  rewrite S in Hc. apply in_app_or in Hc.
  assert (Found : exists sighting other,
            In sighting (scanned ++ [otherAgentCoord])
            /\ In other (currentDynamicPerceptWrappers (server st))
            /\ (canditateId, canditateRelCoord) = (fst other, copy d sighting false)
            /\ passesCheck d agentId dynamicPercept sighting other = true).
  { destruct Hc as [Hc|Hc].
    - destruct (Passed _ Hc) as [sighting [other [Hs [Ho [Ec Pass]]]]].
      exists sighting, other. split; [apply in_or_app; now left|]. now repeat split.
    - apply in_map_iff in Hc. destruct Hc as [other [Ec Ho]].
      apply filter_In in Ho. destruct Ho as [Ho Pass].
      exists otherAgentCoord, other. split; [apply in_or_app; right; now left|].
      rewrite <- P. now repeat split. }
  destruct Found as [sighting [other [Hs [Ho [Ec Pass]]]]].
  apply passesCheck_spec in Pass. destruct Pass as [Sees Free].
  exists sighting, other. rewrite E, Ec. now repeat split.
Qed.

(** Three teammates, each with its own map: agentA at the origin sees
    agentB at (1, 0) and agentC at (0, 1), and they see it and each other
    from the negated perspectives. *)
Definition teammate : MapValue := MkMapValue AGENT "A" 1.

Definition threeAgents : MapServer :=
  {| aliasis := [("agentA"%string, 1); ("agentB"%string, 2); ("agentC"%string, 3)];
     maps := [(1, newDynamicMap no_dims 1 "agentA" 10 60);
              (2, newDynamicMap no_dims 2 "agentB" 10 60);
              (3, newDynamicMap no_dims 3 "agentC" 10 60)];
     nextMapId := 3; gridWidth := None; gridHeight := None;
     mapUnknownCoordSearchMaxIter := 60;
     currentDynamicPerceptWrappers :=
       [("agentA"%string, [(XY 0 0, teammate); (XY 1 0, teammate); (XY 0 1, teammate)]);
        ("agentB"%string, [(XY 0 0, teammate); (XY (-1) 0, teammate); (XY (-1) 1, teammate)]);
        ("agentC"%string, [(XY 0 0, teammate); (XY 0 (-1), teammate); (XY 1 (-1), teammate)])] |}.

Definition startOfPass (self : MapServer) : Identification :=
  {| server := self; coordOffsetForMergedAgents := []; mapBoundaryReached := false |}.

(** C2 (as stated, refuted).  In the pass of agentA the candidate list
    ends with two entries, agentB at (1, 0) and agentC at (0, 1), and yet
    the map of agentB has been merged into the map of agentA: the merge
    was triggered after the first sighting, when the list held one
    entry. *)
Lemma merge_before_second_candidate :
  exists st' canditates,
    identifyAgent no_dims (startOfPass threeAgents)
      ("agentA"%string, [(XY 0 0, teammate); (XY 1 0, teammate); (XY 0 1, teammate)])
    = Ok (st', canditates)
    /\ canditates = [("agentB"%string, XY 1 0); ("agentC"%string, XY 0 1)]
    /\ keys (maps (server st')) = [1; 3]
    /\ aliasis (server st') = [("agentA"%string, 1); ("agentB"%string, 1); ("agentC"%string, 3)]
    /\ coordOffsetForMergedAgents st' = [("agentB"%string, XY 1 0)].
Proof.
  eexists. eexists. split; [vm_compute; reflexivity|]. repeat split.
Qed.

Lemma unique_candidate_resolution_witness :
  let dynamicPercept := [(XY 0 0, teammate); (XY 1 0, teammate); (XY 0 1, teammate)] in
  decideResolution no_dims threeAgents "agentA" dynamicPercept [("agentB"%string, XY 1 0)]
  = Ok (MergeMaps "agentA" "agentB" (XY 1 0) ["agentB"%string])
  /\ List.length [("agentB"%string, XY 1 0)] = 1%nat
  /\ forall st1 canditates1,
       identifySightings no_dims "agentA" dynamicPercept
         (startOfPass threeAgents, [("agentB"%string, XY 1 0); ("agentC"%string, XY 0 1)])
         [XY 1 0; XY 0 1]
       = Ok (st1, canditates1) ->
       st1 = startOfPass threeAgents.
Proof.
  intros dynamicPercept.
  destruct (unique_candidate_resolution no_dims "agentA" dynamicPercept)
    as [H1 [_ [H3 _]]].
  split; [reflexivity|]. split.
  - apply (proj1 (H1 threeAgents [("agentB"%string, XY 1 0)]
                    (MergeMaps "agentA" "agentB" (XY 1 0) ["agentB"%string]) eq_refl
                    ltac:(discriminate))).
  - intros st1 canditates1 E.
    apply (H3 [XY 1 0; XY 0 1] (startOfPass threeAgents)
             [("agentB"%string, XY 1 0); ("agentC"%string, XY 0 1)] st1 canditates1
             (Nat.le_refl 2) E).
Defined.

(** ** The edge costs of the planner *)

Lemma bind_Ok {A B : Type} (r : Result A) (f : A -> Result B) (b : B) :
  bind r f = Ok b -> exists a, r = Ok a /\ f a = Ok b.
Proof. destruct r as [a|e]; simpl; [eauto | discriminate]. Qed.

(** C5 (as stated, refuted).  Speed 2, energy 10 of 8 after a clear that
    costs 2, clear chance 0.5 and constant cost 2.5 (binary64 arithmetic,
    every operation exact): the constants are 0.5, 2.5 and 2; the cost of
    a step onto an obstacle is 1 + (2 + 2.5) = 5.5, not 1/speed plus the
    surcharge, 0.5 + (2 + 2.5) = 5. *)
Lemma obstacle_cost_not_travel_time :
  calculateTravelConstantCosts 2 2 10 8 0.5%float 2.5%float = Ok (0.5%float, 2.5%float, 2)
  /\ distanceCostWithoutRotating OBSTACLE 0.5%float 2 2.5%float = 5.5%float
  /\ fadd 0.5%float (clearCostOf 2 2.5%float) = 5%float
  /\ PrimFloat.eqb (distanceCostWithoutRotating OBSTACLE 0.5%float 2 2.5%float)
       (fadd 0.5%float (clearCostOf 2 2.5%float)) = false.
Proof. repeat split; vm_compute; reflexivity. Qed.

(** C5 (amended).  For a step in the facing direction (one attached
    block, any rotation dictionary) the edge cost is 1/speed when the
    destination is neither an obstacle nor a block, 1 plus the clear
    surcharge when it is an obstacle and [blockClearValue] = 100 plus the
    surcharge when it is a block; the surcharge is
    [ceil(1/clearChance) + clearConstantCost / (max(agentEnergy -
    clearEnergyCost, 0.1) / agentMaxEnergy)]. *)
Theorem straight_edge_cost {F : Type} `{PyFloat F} (d : Dims) (map : DynamicMap)
    (currentCoordinate nextCoordinate attachedCoord : Coordinate) (rotateDict : RotateDict)
    (agentSpeed_ clearEnergyCost_ agentEnergy_ agentMaxEnergy_ : Z)
    (clearChance_ clearConstantCost_ agentTravelTime clearCost : F) (clearSuccessTime : Z) :
  calculateTravelConstantCosts agentSpeed_ clearEnergyCost_ agentEnergy_ agentMaxEnergy_
    clearChance_ clearConstantCost_ = Ok (agentTravelTime, clearCost, clearSuccessTime) ->
  isSameDirection (getDirection d currentCoordinate nextCoordinate)
    (getDirection d attachedCoord (origo d)) = true ->
  let surcharge := fadd (ofInt clearSuccessTime) clearCost in
  (fdiv (ofInt 1) (ofInt agentSpeed_) = Ok agentTravelTime
   /\ (exists chances, fdiv (ofInt 1) clearChance_ = Ok chances
                       /\ fceil chances = Ok clearSuccessTime)
   /\ (exists share,
         fdiv (if agentEnergy_ - clearEnergyCost_ <=? 0 then tenth
               else ofInt (agentEnergy_ - clearEnergyCost_)) (ofInt agentMaxEnergy_)
         = Ok share
         /\ fdiv clearConstantCost_ share = Ok clearCost))
  /\ exists endValue,
       getMapValueEnum map nextCoordinate false false = Ok endValue
       /\ distanceCost d map currentCoordinate nextCoordinate agentTravelTime
            clearSuccessTime clearCost [attachedCoord] rotateDict
          = Ok (match endValue with
                | OBSTACLE => fadd (ofInt 1) surcharge
                | BLOCK => fadd (ofInt 100) surcharge
                | _ => agentTravelTime
                end, None).
Proof.
  intros C Same surcharge. split.
  - unfold calculateTravelConstantCosts in C.
    apply bind_Ok in C. destruct C as [tt [E1 C]].
    apply bind_Ok in C. destruct C as [share [E2 C]].
    apply bind_Ok in C. destruct C as [cc [E3 C]].
    apply bind_Ok in C. destruct C as [chances [E4 C]].
    apply bind_Ok in C. destruct C as [cst [E5 C]].
    injection C as <- <- <-. eauto 8.
  - destruct (getMapValueEnum_returns map nextCoordinate false false) as [endValue E].
    exists endValue. split; [exact E|].
    unfold distanceCost. destruct rotateDict as [rotations|]; rewrite ?Same, E; simpl;
      destruct endValue; reflexivity.
Qed.

Lemma straight_edge_cost_witness :
  let map := withContents (newDynamicMap no_dims 1 "agentA" 10 60)
               [(XY 1 0, MkMapValue OBSTACLE "" 3)] [] [] in
  calculateTravelConstantCosts 2 2 10 8 0.5%float 2.5%float = Ok (0.5%float, 2.5%float, 2)
  /\ isSameDirection (getDirection no_dims (XY 0 0) (XY 1 0))
       (getDirection no_dims (XY (-1) 0) (origo no_dims)) = true
  /\ distanceCost no_dims map (XY 0 0) (XY 1 0) 0.5%float 2 2.5%float [XY (-1) 0] None
     = Ok (5.5%float, None).
Proof.
  intros map.
  assert (C : calculateTravelConstantCosts 2 2 10 8 0.5%float 2.5%float
              = Ok (0.5%float, 2.5%float, 2)) by (vm_compute; reflexivity).
  assert (S : isSameDirection (getDirection no_dims (XY 0 0) (XY 1 0))
                (getDirection no_dims (XY (-1) 0) (origo no_dims)) = true) by reflexivity.
  split; [exact C|]. split; [exact S|].
  destruct (straight_edge_cost no_dims map (XY 0 0) (XY 1 0) (XY (-1) 0) None
              2 2 10 8 0.5%float 2.5%float 0.5%float 2.5%float 2 C S)
    as [_ [endValue [E D]]].
  rewrite D. vm_compute in E. injection E as <-. vm_compute. reflexivity.
Defined.

(** ** The heuristic and the cost of a path *)

(** A step of a path: the neighbour stepped to, with the attachment and
    the rotation dictionary the planner has for the step. *)
Record PathEdge : Type := {
  edgeTo : Coordinate;
  edgeAttached : list Coordinate;
  edgeRotateDict : RotateDict
}.

(** Every step goes to a neighbour ([neighbors()]) of the node it leaves. *)
Fixpoint isPath (d : Dims) (current : Coordinate) (path : list PathEdge) : Prop :=
  match path with
  | [] => True
  | e :: rest => In (edgeTo e) (neighbors d current true 1 0) /\ isPath d (edgeTo e) rest
  end.

Fixpoint pathEnd (current : Coordinate) (path : list PathEdge) : Coordinate :=
  match path with
  | [] => current
  | e :: rest => pathEnd (edgeTo e) rest
  end.

(** The sum of the edge costs ([distanceCost]) along the path. *)
Fixpoint pathCost {F : Type} `{PyFloat F} (d : Dims) (map : DynamicMap)
    (agentTravelTime : F) (clearSuccessTime : Z) (clearCost : F)
    (current : Coordinate) (path : list PathEdge) : Result F :=
  match path with
  | [] => Ok (ofInt 0)
  | e :: rest =>
      ' (cost, _) <-
        distanceCost d map current (edgeTo e) agentTravelTime clearSuccessTime clearCost
          (edgeAttached e) (edgeRotateDict e) ;;
      restCost <- pathCost d map agentTravelTime clearSuccessTime clearCost (edgeTo e) rest ;;
      Ok (fadd cost restCost)
  end.

(** *** The geometry: Euclidean, Manhattan and the number of steps *)

Lemma wrapDifference_triangle (o : option Z) (x y : Z) :
  dim_pos o ->
  Z.abs (wrapDifference o (x + y)) <= Z.abs (wrapDifference o x) + Z.abs (wrapDifference o y).
Proof.
  destruct o as [w|]; [|unfold wrapDifference; lia].
  cbn [dim_pos]. intros Hw.
  destruct (wrapDifference_congruent w x Hw) as [i Hi].
  destruct (wrapDifference_congruent w y Hw) as [j Hj].
  pose proof (wrapDifference_minimal w (x + y) (i + j) Hw) as M.
  replace (x + y + (i + j) * w)
    with (wrapDifference (Some w) x + wrapDifference (Some w) y) in M by lia.
  lia.
Qed.

Lemma manhattanDistance_triangle (d : Dims) (a b c : Coordinate) :
  dims_ok d ->
  manhattanDistance d a c <= manhattanDistance d a b + manhattanDistance d b c.
Proof.
  intros [Hw Hh]. unfold manhattanDistance, getRelativeCoordinate; simpl.
  pose proof (wrapDifference_triangle (maxWidth d) (cx b - cx a) (cx c - cx b) Hw) as Tx.
  pose proof (wrapDifference_triangle (maxHeight d) (cy b - cy a) (cy c - cy b) Hh) as Ty.
  replace (cx b - cx a + (cx c - cx b)) with (cx c - cx a) in Tx by lia.
  replace (cy b - cy a + (cy c - cy b)) with (cy c - cy a) in Ty by lia.
  lia.
Qed.

Lemma wrapDifference_zero (o : option Z) : wrapDifference o 0 = 0.
Proof.
  destruct o as [w|]; unfold wrapDifference; [|reflexivity].
  rewrite !Zmod_0_l. reflexivity.
Qed.

Lemma manhattanDistance_self (d : Dims) (a : Coordinate) : manhattanDistance d a a = 0.
Proof.
  unfold manhattanDistance, getRelativeCoordinate; simpl.
  now rewrite !Z.sub_diag, !wrapDifference_zero.
Qed.

Lemma list_remove_incl (c : Coordinate) (l : list Coordinate) : incl (list_remove c l) l.
Proof.
  induction l as [|a l IH]; simpl; [apply incl_refl|].
  destruct (key_eqb c a); [apply incl_tl, incl_refl|].
  intros x [<-|Hx]; [now left | right; now apply IH].
Qed.

Lemma neighbors_within_range (d : Dims) (self c : Coordinate) (searchRange distant : Z) :
  In c (neighbors d self true searchRange distant) ->
  manhattanDistance d self c <= searchRange.
Proof.
  unfold neighbors.
  match goal with |- In c (if mem self ?cells then _ else _) -> _ =>
    assert (Hcells : forall x, In x cells -> manhattanDistance d self x <= searchRange)
  end.
  { intros x Hx. apply in_flat_map in Hx. destruct Hx as [i [_ Hx]].
    apply in_flat_map in Hx. destruct Hx as [j [_ Hx]].
    destruct (Z.leb_spec (manhattanDistance d self (Coord d i j true)) searchRange);
      simpl in Hx; [|contradiction].
    destruct (distant <=? _); simpl in Hx; [|contradiction].
    destruct Hx as [<-|[]]. assumption. }
  destruct (mem self _); intros Hc; apply Hcells; [|assumption].
  eapply list_remove_incl; eauto.
Qed.

Lemma path_steps_bound (d : Dims) (path : list PathEdge) :
  forall current,
  dims_ok d -> isPath d current path ->
  manhattanDistance d current (pathEnd current path) <= Z.of_nat (List.length path).
Proof.
  induction path as [|e rest IH]; intros current Hd P; simpl.
  - rewrite manhattanDistance_self. lia.
  - destruct P as [N P]. apply neighbors_within_range in N.
    pose proof (manhattanDistance_triangle d current (edgeTo e) (pathEnd (edgeTo e) rest) Hd).
    specialize (IH (edgeTo e) Hd P). lia.
Qed.

Lemma euclidean_le_manhattan (d : Dims) (a b : Coordinate) :
  (heuristicCost d a b <= IZR (manhattanDistance d a b))%R.
Proof.
  unfold heuristicCost, distanceSquared, manhattanDistance.
  generalize (getRelativeCoordinate d a b). intros [x y].
  cbn [cx cy fsqrt ofInt PyFloat_real].
  set (n := Z.abs x + Z.abs y).
  assert (Hn : 0 <= n) by (unfold n; lia).
  assert (Hs : x ^ 2 + y ^ 2 <= n * n).
  { unfold n. rewrite !Z.pow_2_r, <- (Z.abs_square x), <- (Z.abs_square y).
    pose proof (Z.abs_nonneg x). pose proof (Z.abs_nonneg y). nia. }
  apply Rle_trans with (R_sqrt.sqrt (IZR (n * n))).
  - apply sqrt_le_1_alt. now apply IZR_le.
  - rewrite mult_IZR. rewrite sqrt_square; [apply Rle_refl|]. now apply IZR_le.
Qed.

(** *** Edge costs over the real numbers *)

Section RealCosts.
Variable clearSuccessTime : Z.
Variables agentTravelTime clearCost : R.
Hypothesis travel_time : (1 <= agentTravelTime)%R.
Hypothesis surcharge : (0 <= IZR clearSuccessTime + clearCost)%R.

Lemma addClearCost_nondecreasing (cost : R) (coordValue : MapValueEnum) (blockCounts : bool) :
  (cost <= addClearCost cost coordValue blockCounts clearSuccessTime clearCost)%R.
Proof.
  unfold addClearCost, clearCostOf, blockClearValue; cbn [fadd ofInt PyFloat_real].
  destruct coordValue; try destruct blockCounts; lra.
Qed.

Lemma distanceCostWithoutRotating_at_least_one (endValue : MapValueEnum) :
  (1 <= distanceCostWithoutRotating endValue agentTravelTime clearSuccessTime clearCost)%R.
Proof.
  unfold distanceCostWithoutRotating, clearCostOf, blockClearValue;
    cbn [fadd ofInt PyFloat_real].
  destruct endValue; lra.
Qed.

Lemma rotateCost_nondecreasing (map : DynamicMap) (checkableCoords : list Coordinate) :
  forall cost total,
  rotateCost map cost checkableCoords clearSuccessTime clearCost = Ok total ->
  (cost <= total)%R.
Proof.
  induction checkableCoords as [|c rest IH]; intros cost total; simpl.
  - intros [= <-]. apply Rle_refl.
  - destruct (getMapValueEnum map c false false) as [v|e]; simpl; [|discriminate].
    intros E. apply IH in E.
    pose proof (addClearCost_nondecreasing cost v true). lra.
Qed.

Lemma distanceCost_at_least_one (d : Dims) (map : DynamicMap)
    (currentCoordinate nextCoordinate : Coordinate) (attachedCoordList : list Coordinate)
    (rotateDict : RotateDict) (cost : R) (direction : option Direction) :
  distanceCost d map currentCoordinate nextCoordinate agentTravelTime clearSuccessTime
    clearCost attachedCoordList rotateDict = Ok (cost, direction) ->
  (1 <= cost)%R.
Proof.
  assert (Plain : forall r,
            (endValue <- getMapValueEnum map nextCoordinate false false ;;
             Ok (distanceCostWithoutRotating endValue agentTravelTime clearSuccessTime
                   clearCost, r)) = Ok (cost, direction) -> (1 <= cost)%R).
  { intros r E. apply bind_Ok in E. destruct E as [v [_ [= <- _]]].
    apply distanceCostWithoutRotating_at_least_one. }
  unfold distanceCost.
  destruct attachedCoordList as [|attachedCoord [|second rest]]; try apply Plain.
  destruct rotateDict as [rotations|]; [|apply Plain].
  destruct (isSameDirection _ _); [apply Plain|].
  destruct (isOppositeDirection _ _).
  - intros E. apply bind_Ok in E. destruct E as [[c dir] [E [= <- _]]].
    unfold distanceCostWithOppositeRotating in E.
    apply bind_Ok in E. destruct E as [[leftDirection rightDirection] [_ E]].
    apply bind_Ok in E. destruct E as [leftRotateCost [L E]].
    apply bind_Ok in E. destruct E as [rightRotateCost [Rt E]].
    apply rotateCost_nondecreasing in L. apply rotateCost_nondecreasing in Rt.
    cbn [ofInt PyFloat_real] in L, Rt.
    apply bind_Ok in E. destruct E as [canLeft [_ E]].
    destruct (negb canLeft); [injection E as <- _; lra|].
    apply bind_Ok in E. destruct E as [canRight [_ E]].
    destruct (negb canRight); [injection E as <- _; lra|].
    destruct (fle leftRotateCost rightRotateCost); injection E as <- _; lra.
  - intros E. apply bind_Ok in E. destruct E as [c [E E2]].
    apply bind_Ok in E2. destruct E2 as [dir [_ [= <- _]]].
    unfold distanceCostWithRotating in E.
    apply bind_Ok in E. destruct E as [v1 [_ E]].
    apply bind_Ok in E. destruct E as [v2 [_ [= <-]]].
    match goal with |- (1 <= addClearCost ?c0 v2 ?b _ _)%R =>
      pose proof (addClearCost_nondecreasing c0 v2 b)
    end.
    pose proof (addClearCost_nondecreasing (ofInt 3) v1 true) as H1.
    cbn [ofInt PyFloat_real] in *. lra.
Qed.

Lemma pathCost_at_least_steps (d : Dims) (map : DynamicMap) (path : list PathEdge) :
  forall current total,
  pathCost d map agentTravelTime clearSuccessTime clearCost current path = Ok total ->
  (IZR (Z.of_nat (List.length path)) <= total)%R.
Proof.
  induction path as [|e rest IH]; intros current total; simpl pathCost.
  - intros [= <-]. simpl. apply Rle_refl.
  - intros E. apply bind_Ok in E. destruct E as [[cost dir] [C E]].
    apply bind_Ok in E. destruct E as [restCost [P [= <-]]].
    apply distanceCost_at_least_one in C. apply IH in P.
    cbn [fadd PyFloat_real]. cbn [List.length]. rewrite Nat2Z.inj_succ, succ_IZR. lra.
Qed.

End RealCosts.

(** *** The constants of an agent of speed 1 *)

Lemma real_div_Ok (a b q : R) : real_div a b = Ok q -> b <> 0%R /\ q = (a / b)%R.
Proof. unfold real_div. destruct (Req_dec_T b 0); [discriminate|]. intros [= <-]. now split. Qed.

Lemma real_div_nonzero (a b : R) : b <> 0%R -> real_div a b = Ok (a / b)%R.
Proof. intros N. unfold real_div. destruct (Req_dec_T b 0); [contradiction|reflexivity]. Qed.

Lemma real_ceil_above (a : R) (z : Z) : real_ceil a = Ok z -> (a <= IZR z)%R.
Proof.
  unfold real_ceil. destruct (Req_dec_T (IZR (up a - 1)) a) as [E|_]; intros [= <-].
  - rewrite E. apply Rle_refl.
  - pose proof (archimed a). lra.
Qed.

Lemma real_ceil_IZR (z : Z) : real_ceil (IZR z) = Ok z.
Proof.
  assert (U : up (IZR z) = z + 1).
  { symmetry. apply tech_up; rewrite plus_IZR; lra. }
  unfold real_ceil. rewrite U. replace (z + 1 - 1) with z by lia.
  destruct (Req_dec_T (IZR z) (IZR z)); [reflexivity|contradiction].
Qed.

Lemma unit_speed_constants (clearEnergyCost_ agentEnergy_ agentMaxEnergy_ : Z)
    (clearChance_ clearConstantCost_ agentTravelTime clearCost : R) (clearSuccessTime : Z) :
  calculateTravelConstantCosts 1 clearEnergyCost_ agentEnergy_ agentMaxEnergy_
    clearChance_ clearConstantCost_ = Ok (agentTravelTime, clearCost, clearSuccessTime) ->
  0 < agentMaxEnergy_ -> (0 < clearChance_)%R -> (0 <= clearConstantCost_)%R ->
  agentTravelTime = 1%R /\ (0 <= IZR clearSuccessTime + clearCost)%R.
Proof.
  intros C Hmax Hchance Hconst. unfold calculateTravelConstantCosts in C.
  apply bind_Ok in C. destruct C as [tt [E1 C]].
  apply bind_Ok in C. destruct C as [share [E2 C]].
  apply bind_Ok in C. destruct C as [cc [E3 C]].
  apply bind_Ok in C. destruct C as [chances [E4 C]].
  apply bind_Ok in C. destruct C as [cst [E5 C]].
  injection C as <- <- <-.
  cbn [fdiv fceil ofInt tenth PyFloat_real] in E1, E2, E3, E4, E5.
  apply real_div_Ok in E1. destruct E1 as [_ ->].
  apply real_div_Ok in E2. destruct E2 as [_ ->].
  apply real_div_Ok in E3. destruct E3 as [_ ->].
  apply real_div_Ok in E4. destruct E4 as [_ ->].
  apply real_ceil_above in E5.
  split; [lra|].
  assert (Hm : (0 < IZR agentMaxEnergy_)%R) by now apply (IZR_lt 0).
  assert (Hr : (0 < (if agentEnergy_ - clearEnergyCost_ <=? 0 then 1 / 10
                     else IZR (agentEnergy_ - clearEnergyCost_)))%R).
  { destruct (Z.leb_spec (agentEnergy_ - clearEnergyCost_) 0); [lra|].
    now apply (IZR_lt 0). }
  set (remaining := (if agentEnergy_ - clearEnergyCost_ <=? 0 then (1 / 10)%R
                     else IZR (agentEnergy_ - clearEnergyCost_))) in *.
  assert (Hs : (0 < remaining / IZR agentMaxEnergy_)%R).
  { unfold Rdiv. apply Rmult_lt_0_compat; [assumption|now apply Rinv_0_lt_compat]. }
  assert (Hc : (0 <= clearConstantCost_ / (remaining / IZR agentMaxEnergy_))%R).
  { unfold Rdiv at 1. apply Rle_mult_inv_pos; assumption. }
  assert (Hch : (0 < 1 / clearChance_)%R).
  { unfold Rdiv. rewrite Rmult_1_l. now apply Rinv_0_lt_compat. }
  lra.
Qed.

Lemma heuristic_le_path_cost (d : Dims) (map : DynamicMap) (agentTravelTime clearCost : R)
    (clearSuccessTime : Z) (current : Coordinate) (path : list PathEdge) (total : R) :
  dims_ok d -> (1 <= agentTravelTime)%R -> (0 <= IZR clearSuccessTime + clearCost)%R ->
  isPath d current path ->
  pathCost d map agentTravelTime clearSuccessTime clearCost current path = Ok total ->
  (heuristicCost d current (pathEnd current path) <= total)%R.
Proof.
  intros Hd Htt Hs P C.
  apply Rle_trans with (IZR (manhattanDistance d current (pathEnd current path)));
    [apply euclidean_le_manhattan|].
  apply Rle_trans with (IZR (Z.of_nat (List.length path))).
  - apply IZR_le. now apply path_steps_bound.
  - exact (pathCost_at_least_steps clearSuccessTime agentTravelTime clearCost Htt Hs
             d map path current total C).
Qed.

(** C6 (as stated, refuted).  An agent of speed 2 on a map with nothing
    recorded (binary64 arithmetic, every operation exact): the travel time
    is 0.5, so the one-step path from (0,0) to (1,0) costs 0.5, while the
    heuristic of the two cells is 1.0.  The same holds over the reals. *)
Lemma heuristic_exceeds_path_cost :
  let map := newDynamicMap no_dims 1 "agentA" 10 60 in
  let path := [{| edgeTo := XY 1 0; edgeAttached := []; edgeRotateDict := None |}] in
  calculateTravelConstantCosts 2 2 10 8 0.5%float 2.5%float = Ok (0.5%float, 2.5%float, 2)
  /\ isPath no_dims (XY 0 0) path
  /\ pathEnd (XY 0 0) path = XY 1 0
  /\ pathCost no_dims map 0.5%float 2 2.5%float (XY 0 0) path = Ok 0.5%float
  /\ heuristicCost no_dims (XY 0 0) (XY 1 0) = 1%float
  /\ flt 0.5%float (heuristicCost no_dims (XY 0 0) (XY 1 0)) = true
  /\ exists total : R,
       pathCost no_dims map (1 / 2)%R 2 (5 / 2)%R (XY 0 0) path = Ok total
       /\ (total < heuristicCost no_dims (XY 0 0) (XY 1 0))%R.
Proof.
  intros map path.
  split; [vm_compute; reflexivity|].
  split; [split; [vm_compute; auto|exact I]|].
  split; [reflexivity|].
  split; [vm_compute; reflexivity|].
  split; [vm_compute; reflexivity|].
  split; [vm_compute; reflexivity|].
  exists (1 / 2 + 0)%R. split; [reflexivity|].
  unfold heuristicCost, distanceSquared, getRelativeCoordinate, wrapDifference;
    cbn [fsqrt ofInt PyFloat_real cx cy no_dims maxWidth maxHeight].
  replace ((1 - 0) ^ 2 + (0 - 0) ^ 2) with 1 by reflexivity.
  rewrite sqrt_1. lra.
Qed.

(** C6 (amended).  Over the real numbers (the planner's arithmetic
    without rounding), for an agent of speed 1 with a positive maximum
    energy, a positive clear chance and a non-negative constant clear
    cost: on every map, with dimensions unset or positive, for every path
    of neighbour steps, whatever the attachment and the rotation
    dictionary of each step, the Euclidean heuristic from the first to the
    last coordinate of the path is at most the sum of the edge costs
    ([distanceCost]) of the path. *)
Theorem heuristic_admissible_at_unit_speed (d : Dims) (map : DynamicMap)
    (clearEnergyCost_ agentEnergy_ agentMaxEnergy_ : Z)
    (clearChance_ clearConstantCost_ agentTravelTime clearCost : R) (clearSuccessTime : Z)
    (current : Coordinate) (path : list PathEdge) (total : R) :
  dims_ok d ->
  0 < agentMaxEnergy_ -> (0 < clearChance_)%R -> (0 <= clearConstantCost_)%R ->
  calculateTravelConstantCosts 1 clearEnergyCost_ agentEnergy_ agentMaxEnergy_
    clearChance_ clearConstantCost_ = Ok (agentTravelTime, clearCost, clearSuccessTime) ->
  isPath d current path ->
  pathCost d map agentTravelTime clearSuccessTime clearCost current path = Ok total ->
  (heuristicCost d current (pathEnd current path) <= total)%R.
Proof.
  intros Hd Hmax Hchance Hconst C P T.
  destruct (unit_speed_constants clearEnergyCost_ agentEnergy_ agentMaxEnergy_ clearChance_
              clearConstantCost_ agentTravelTime clearCost clearSuccessTime
              C Hmax Hchance Hconst) as [Htt Hs].
  apply (heuristic_le_path_cost d map agentTravelTime clearCost clearSuccessTime current path
           total Hd); [lra|exact Hs|exact P|exact T].
Qed.

Lemma heuristic_admissible_at_unit_speed_witness :
  let map := newDynamicMap no_dims 1 "agentA" 10 60 in
  let path := [{| edgeTo := XY 1 0; edgeAttached := []; edgeRotateDict := None |};
               {| edgeTo := XY 1 1; edgeAttached := [XY 0 1]; edgeRotateDict := None |}] in
  calculateTravelConstantCosts 1 2 10 8 1%R (5 / 2)%R
  = Ok ((1 / 1)%R, (5 / 2 / (8 / 8))%R, 1)
  /\ pathCost no_dims map (1 / 1)%R 1 (5 / 2 / (8 / 8))%R (XY 0 0) path
     = Ok (1 / 1 + (1 / 1 + 0))%R
  /\ (heuristicCost no_dims (XY 0 0) (XY 1 1) <= 1 / 1 + (1 / 1 + 0))%R.
Proof.
  intros map path.
  assert (C : calculateTravelConstantCosts 1 2 10 8 1%R (5 / 2)%R
              = Ok ((1 / 1)%R, (5 / 2 / (8 / 8))%R, 1)).
  { unfold calculateTravelConstantCosts. cbn [fdiv fceil ofInt tenth PyFloat_real].
    rewrite (real_div_nonzero 1 1) by lra. cbn [bind].
    replace (10 - 2 <=? 0) with false by reflexivity.
    replace (10 - 2) with 8 by reflexivity.
    rewrite (real_div_nonzero 8 8) by lra. cbn [bind].
    rewrite (real_div_nonzero (5 / 2) (8 / 8)) by lra. cbn [bind].
    assert (Cl : real_ceil (1 / 1) = Ok 1).
    { replace (1 / 1)%R with 1%R by lra. apply real_ceil_IZR. }
    rewrite Cl. reflexivity. }
  assert (T : pathCost no_dims map (1 / 1)%R 1 (5 / 2 / (8 / 8))%R (XY 0 0) path
              = Ok (1 / 1 + (1 / 1 + 0))%R) by reflexivity.
  split; [exact C|]. split; [exact T|].
  apply (heuristic_admissible_at_unit_speed no_dims map 2 10 8 1%R (5 / 2)%R
           (1 / 1)%R (5 / 2 / (8 / 8))%R 1 (XY 0 0) path (1 / 1 + (1 / 1 + 0))%R).
  - split; exact I.
  - lia.
  - lra.
  - lra.
  - exact C.
  - split; [vm_compute; auto|]. split; [vm_compute; auto|exact I].
  - exact T.
Defined.

(** ** The search loop and its degradation *)

Lemma contains_keys {K V : Type} `{Key K} (m : dict K V) (k : K) :
  contains m k = true <-> In k (keys m).
Proof.
  unfold contains. pose proof (get_None_keys m k) as G.
  destruct (get m k) as [v|].
  - split; [|reflexivity]. intros _.
    destruct (in_dec (fun a b => reflect_dec _ _ (key_eqb_spec a b)) k (keys m)) as [I|N];
      [exact I|]. apply G in N. discriminate.
  - split; [discriminate|]. intros I. exfalso. now apply G.
Qed.

Lemma contains_set {K V : Type} `{Key K} (m : dict K V) (k k2 : K) (v : V) :
  contains (set m k v) k2 = true <-> k2 = k \/ contains m k2 = true.
Proof.
  unfold contains. destruct (key_eqb_spec k2 k) as [->|N].
  - rewrite get_set_same. tauto.
  - rewrite (get_set_other m k k2 v N). tauto.
Qed.

Lemma queueInsert_In {F : Type} `{PyFloat F} (node x : QueueNode F) (queue : list (QueueNode F)) :
  In x (queueInsert node queue) <-> x = node \/ In x queue.
Proof.
  induction queue as [|q rest IH]; simpl; [intuition congruence|].
  destruct (fle (snd q) (snd node)); simpl; [rewrite IH|]; intuition congruence.
Qed.

(** [min] returns an element of the sequence. *)
Lemma minBy_In {A F : Type} `{PyFloat F} (key : A -> F) (l : list A) (best : A) :
  minBy key l = Ok best -> In best l.
Proof.
  destruct l as [|a rest]; simpl; [discriminate|]. intros [= <-].
  assert (G : forall l0 b, let r := fold_left (fun best x =>
                                      if flt (key x) (key best) then x else best) l0 b in
                          r = b \/ In r l0).
  { induction l0 as [|x l0 IH]; intros b; simpl; [now left|].
    destruct (IH (if flt (key x) (key b) then x else b)) as [E|I]; [|tauto].
    rewrite E. destruct (flt (key x) (key b)); auto. }
  destruct (G rest a) as [E|I]; [left; now rewrite E|now right].
Qed.

(** [min] on a non-empty sequence returns. *)
Lemma minBy_returns {A F : Type} `{PyFloat F} (key : A -> F) (l : list A) :
  l <> [] -> exists best, minBy key l = Ok best.
Proof. destruct l as [|a rest]; [congruence|]. intros _. simpl. eauto. Qed.

(** The keys are ordered by [<] as numbers are: [<] is asymmetric and
    [not (a < b)] is transitive (real numbers; floats that are not NaN). *)
Definition orderedKeys {A F : Type} `{PyFloat F} (key : A -> F) : Prop :=
  (forall a b : A, flt (key a) (key b) = true -> flt (key b) (key a) = false)
  /\ (forall a b c : A, flt (key a) (key b) = false -> flt (key b) (key c) = false ->
                        flt (key a) (key c) = false).

(** No element has a key below the key of the one [min] returns. *)
Lemma minBy_minimal {A F : Type} `{PyFloat F} (key : A -> F) (l : list A) (best : A) :
  orderedKeys key -> minBy key l = Ok best ->
  forall x, In x l -> flt (key x) (key best) = false.
Proof.
  intros [Asym Trans]. destruct l as [|a rest]; simpl; [discriminate|]. intros [= <-].
  assert (Irr : forall a0, flt (key a0) (key a0) = false).
  { intros a0. destruct (flt (key a0) (key a0)) eqn:E; [|reflexivity].
    rewrite (Asym a0 a0 E) in E. discriminate. }
  set (f := fun best x => if flt (key x) (key best) then x else best).
  assert (G : forall l0 b,
            flt (key b) (key (fold_left f l0 b)) = false
            /\ forall x, In x l0 -> flt (key x) (key (fold_left f l0 b)) = false).
  { induction l0 as [|x l0 IH]; intros b; simpl; [split; [apply Irr|tauto]|].
    destruct (IH (f b x)) as [Hb Hl].
    assert (Ef : f b x = if flt (key x) (key b) then x else b) by reflexivity.
    rewrite Ef in Hb, Hl |- *.
    destruct (flt (key x) (key b)) eqn:E.
    - split; [apply (Trans b x _ (Asym x b E) Hb)|].
      intros y [<-|Hy]; [exact Hb|now apply Hl].
    - split; [exact Hb|].
      intros y [<-|Hy]; [apply (Trans x b _ E Hb)|now apply Hl]. }
  destruct (G rest a) as [Ha Hrest].
  intros x [<-|Hx]; [exact Ha|now apply Hrest].
Qed.

Lemma real_orderedKeys {A : Type} (key : A -> R) : orderedKeys key.
Proof.
  split.
  - intros a b. cbn [flt PyFloat_real].
    destruct (Rlt_dec (key a) (key b)); [|discriminate].
    destruct (Rlt_dec (key b) (key a)); [lra|reflexivity].
  - intros a b c. cbn [flt PyFloat_real].
    destruct (Rlt_dec (key a) (key b)); [discriminate|].
    destruct (Rlt_dec (key b) (key c)); [discriminate|].
    destruct (Rlt_dec (key a) (key c)); [lra|reflexivity].
Qed.

Section SearchFacts.
Context {F : Type} `{PyFloat F}.
Variable d : Dims.
Variable shuffle : Z -> list Neighbor -> list Neighbor.
Variable map : DynamicMap.
Variables startCoordinate endCoordinate : Coordinate.
Variables agentTravelTime clearCost : F.
Variable clearSuccessTime : Z.
Variables maximumIteration vision : Z.
Variable ignoreMarker : bool.

Let relax_ := relax d map endCoordinate agentTravelTime clearCost clearSuccessTime.
Let expand_ := expand d shuffle map startCoordinate endCoordinate agentTravelTime clearCost
                 clearSuccessTime vision ignoreMarker.
Let aStarLoop_ := aStarLoop d shuffle map startCoordinate endCoordinate agentTravelTime
                    clearCost clearSuccessTime maximumIteration vision ignoreMarker.

(** Every open node but the start has a predecessor and an f-score, and
    every coordinate with an f-score has a g-score. *)
Definition recorded (st : SearchState F) : Prop :=
  (forall node, In node (openSet st) ->
     contains (cameFrom st) (fst node) = true /\ contains (fScore st) (fst node) = true)
  /\ (forall c, contains (fScore st) c = true -> contains (gScore st) c = true).

Lemma relax_Raise (current : Coordinate) (e : PyError) (n : Neighbor) :
  relax_ current (Raise e) n = Raise e.
Proof. reflexivity. Qed.

Lemma relax_fold (P : SearchState F -> Prop) (current : Coordinate) :
  (forall st n st', relax_ current (Ok st) n = Ok st' -> P st -> P st') ->
  forall nexts st st',
  fold_left (relax_ current) nexts (Ok st) = Ok st' -> P st -> P st'.
Proof.
  intros Step. induction nexts as [|n nexts IH]; intros st st'; cbn [fold_left].
  - intros [= <-]. trivial.
  - destruct (relax_ current (Ok st) n) as [st1|e] eqn:R.
    + intros E HP. apply (IH st1 st' E). exact (Step st n st1 R HP).
    + rewrite (fold_left_Raise (relax_ current) nexts e (relax_Raise current e)).
      discriminate.
Qed.

Lemma relax_cases (current : Coordinate) (st st' : SearchState F) (n : Neighbor) :
  relax_ current (Ok st) n = Ok st' ->
  st' = st
  \/ exists g f direction,
       st' = {| iterationCount := iterationCount st;
                cameFrom := set (cameFrom st) (fst (fst n)) current;
                gScore := set (gScore st) (fst (fst n)) g;
                fScore := set (fScore st) (fst (fst n)) f;
                openSet := queueInsert (fst (fst n), f) (openSet st);
                attachedSet := set (attachedSet st) (fst (fst n)) (snd (fst n));
                rotations := set (rotations st) (fst (fst n)) direction |}.
Proof.
  destruct n as [[neighbor attachedList] rotateDict].
  unfold relax_, relax. cbn [bind fst snd].
  intros E. apply bind_Ok in E. destruct E as [attachedCurrent [_ E]].
  apply bind_Ok in E. destruct E as [[cost rotateDirection] [_ E]].
  apply bind_Ok in E. destruct E as [gCurrent [_ E]].
  match type of E with (if ?b then _ else _) = _ => destruct b end;
    injection E as <-; [right; eauto|now left].
Qed.

Lemma relax_iterationCount (current : Coordinate) (st st' : SearchState F) (n : Neighbor) :
  relax_ current (Ok st) n = Ok st' -> iterationCount st' = iterationCount st.
Proof.
  intros R. destruct (relax_cases current st st' n R) as [->|[g [f [dir ->]]]]; reflexivity.
Qed.

Lemma relax_recorded (current : Coordinate) (st st' : SearchState F) (n : Neighbor) :
  relax_ current (Ok st) n = Ok st' -> recorded st -> recorded st'.
Proof.
  intros R [Open Scores].
  destruct (relax_cases current st st' n R) as [->|[g [f [dir ->]]]]; [now split|].
  split; cbn [openSet cameFrom fScore gScore].
  - intros node I. apply queueInsert_In in I. rewrite !contains_set.
    destruct I as [->|I]; [cbn [fst]; tauto|].
    destruct (Open node I). tauto.
  - intros c. rewrite !contains_set. intros [->|I]; [tauto|]. right. now apply Scores.
Qed.

Lemma expand_iterationCount (st st1 : SearchState F) (current : Coordinate)
    (rest : list (QueueNode F)) :
  expand_ st current rest = Ok st1 -> iterationCount st1 = iterationCount st + 1.
Proof.
  unfold expand_, expand. intros E.
  apply bind_Ok in E. destruct E as [attachedCurrent [_ E]].
  apply bind_Ok in E. destruct E as [nexts [_ E]].
  apply bind_Ok in E. destruct E as [st2 [L [= <-]]]. cbn [iterationCount].
  f_equal.
  apply (relax_fold (fun s => iterationCount s = iterationCount st) current) in L;
    [exact L| |reflexivity].
  intros s n s' R Hs. rewrite <- Hs. now apply (relax_iterationCount current s s' n).
Qed.

(** After an iteration that popped the last open node the open nodes are
    recorded ones. *)
Lemma expand_recorded (st st1 : SearchState F) (current : Coordinate)
    (rest : list (QueueNode F)) :
  (forall node, In node rest ->
     contains (cameFrom st) (fst node) = true /\ contains (fScore st) (fst node) = true) ->
  (forall c, contains (fScore st) c = true -> contains (gScore st) c = true) ->
  expand_ st current rest = Ok st1 -> recorded st1.
Proof.
  intros Open Scores. unfold expand_, expand. intros E.
  apply bind_Ok in E. destruct E as [attachedCurrent [_ E]].
  apply bind_Ok in E. destruct E as [nexts [_ E]].
  apply bind_Ok in E. destruct E as [st2 [L [= <-]]].
  apply (relax_fold recorded current) in L.
  - destruct L as [O S]. split; cbn [openSet cameFrom fScore gScore]; assumption.
  - intros s n s'. apply relax_recorded.
  - split; cbn [openSet cameFrom fScore gScore]; assumption.
Qed.

Lemma aStarLoop_unfold (fuel : nat) (st : SearchState F) :
  aStarLoop_ fuel st
  = if iterationCount st <=? maximumIteration then
      match openSet st with
      | [] => Ok (Stopped st)
      | (current, priority) :: rest =>
          if Coordinate_eqb current endCoordinate then
            g <- item (gScore st) current ;;
            Ok (ReachedGoal g
                  {| iterationCount := iterationCount st; cameFrom := cameFrom st;
                     gScore := gScore st; fScore := fScore st; openSet := rest;
                     attachedSet := attachedSet st; rotations := rotations st |}
                  current)
          else
            match fuel with
            | O => Raise NonTermination
            | S fuel' => st1 <- expand_ st current rest ;; aStarLoop_ fuel' st1
            end
      end
    else Ok (Stopped st).
Proof. destruct fuel; reflexivity. Qed.

(** The counter bounds the number of iterations: with fuel for
    [maximumIteration + 1 - iterationCount] iterations the loop never runs
    out of fuel, more fuel changes nothing. *)
Lemma aStarLoop_more_fuel (fuel : nat) :
  forall (st : SearchState F) (more : nat),
  maximumIteration + 1 - iterationCount st <= Z.of_nat fuel -> (fuel <= more)%nat ->
  aStarLoop d shuffle map startCoordinate endCoordinate agentTravelTime clearCost
    clearSuccessTime maximumIteration vision ignoreMarker more st
  = aStarLoop d shuffle map startCoordinate endCoordinate agentTravelTime clearCost
      clearSuccessTime maximumIteration vision ignoreMarker fuel st.
Proof.
  fold aStarLoop_.
  induction fuel as [|fuel IH]; intros st more Bound Le;
    rewrite (aStarLoop_unfold more st), (aStarLoop_unfold _ st).
  - destruct (Z.leb_spec (iterationCount st) maximumIteration) as [C|C]; [|reflexivity].
    simpl in Bound. lia.
  - destruct (Z.leb_spec (iterationCount st) maximumIteration) as [C|C]; [|reflexivity].
    destruct (openSet st) as [|[current priority] rest]; [reflexivity|].
    destruct (Coordinate_eqb current endCoordinate); [reflexivity|].
    destruct more as [|more]; [lia|].
    destruct (expand_ st current rest) as [st1|e] eqn:E; [|reflexivity].
    cbn [bind]. apply IH; [|lia].
    rewrite (expand_iterationCount st st1 current rest E). lia.
Qed.

Lemma aStarLoop_recorded (fuel : nat) :
  forall st st' : SearchState F,
  recorded st ->
  aStarLoop d shuffle map startCoordinate endCoordinate agentTravelTime clearCost
    clearSuccessTime maximumIteration vision ignoreMarker fuel st = Ok (Stopped st') ->
  recorded st'.
Proof.
  fold aStarLoop_.
  induction fuel as [|fuel IH]; intros st st' Rec; rewrite (aStarLoop_unfold _ st);
    (destruct (iterationCount st <=? maximumIteration); [|now intros [= <-]]);
    (destruct (openSet st) as [|[current priority] rest] eqn:O; [now intros [= <-]|]);
    (destruct (Coordinate_eqb current endCoordinate);
     [intros E; apply bind_Ok in E; destruct E as [g [_ E]]; discriminate|]);
    [discriminate|].
  destruct (expand_ st current rest) as [st1|e] eqn:E; [|discriminate].
  cbn [bind]. apply IH. destruct Rec as [Open Scores].
  apply (expand_recorded st st1 current rest); [|exact Scores|exact E].
  intros node I. apply Open. rewrite O. now right.
Qed.

(** When at least one iteration is allowed, a search that stops without
    reaching the goal stops with recorded open nodes: the start has been
    popped in the first iteration. *)
Lemma search_recorded (attachedCoordinates_ : list Coordinate) (st : SearchState F) :
  0 <= maximumIteration -> Coordinate_eqb startCoordinate endCoordinate = false ->
  aStarLoop d shuffle map startCoordinate endCoordinate agentTravelTime clearCost
    clearSuccessTime maximumIteration vision ignoreMarker
    (Z.to_nat (maximumIteration + 1))
    (initialSearch d startCoordinate endCoordinate attachedCoordinates_)
  = Ok (Stopped st) ->
  recorded st.
Proof.
  intros Pos Ne. fold aStarLoop_.
  replace (Z.to_nat (maximumIteration + 1)) with (S (Z.to_nat maximumIteration))
    by (rewrite <- Z2Nat.inj_succ by lia; f_equal; lia).
  rewrite aStarLoop_unfold. cbn [initialSearch iterationCount openSet].
  destruct (Z.leb_spec 0 maximumIteration) as [_|C]; [|lia].
  rewrite Ne.
  match goal with |- context [expand_ ?s ?c ?r] =>
    destruct (expand_ s c r) as [st1|e] eqn:E; [|discriminate] end.
  cbn [bind]. apply aStarLoop_recorded.
  apply expand_recorded in E; [exact E|intros node []|].
  unfold contains, initialSearch. cbn [fScore gScore get].
  intros c. now destruct (key_eqb c startCoordinate).
Qed.

(** A loop left by its condition with an open node left has used up its
    iterations. *)
Lemma aStarLoop_exhausted (fuel : nat) :
  forall st st' : SearchState F,
  aStarLoop d shuffle map startCoordinate endCoordinate agentTravelTime clearCost
    clearSuccessTime maximumIteration vision ignoreMarker fuel st = Ok (Stopped st') ->
  openSet st' = [] \/ maximumIteration < iterationCount st'.
Proof.
  fold aStarLoop_.
  induction fuel as [|fuel IH]; intros st st'; rewrite (aStarLoop_unfold _ st);
    (destruct (Z.leb_spec (iterationCount st) maximumIteration);
     [|intros [= <-]; now right]);
    (destruct (openSet st) as [|[current priority] rest] eqn:O;
     [intros [= <-]; now left|]);
    (destruct (Coordinate_eqb current endCoordinate);
     [intros E; apply bind_Ok in E; destruct E as [g [_ E]]; discriminate|]);
    [discriminate|].
  destruct (expand_ st current rest) as [st1|e] eqn:E; [|discriminate].
  cbn [bind]. apply IH.
Qed.

End SearchFacts.

(** The closest discovered coordinate exists when an open node is left. *)
Lemma closestDiscovered_returns {F : Type} `{PyFloat F} (d : Dims) (endCoordinate : Coordinate)
    (st : SearchState F) :
  recorded st -> openSet st <> [] ->
  exists closestCoord g,
    closestDiscovered d endCoordinate st = Ok closestCoord
    /\ In closestCoord (discovered st)
    /\ item (gScore st) closestCoord = Ok g.
Proof.
  intros [Open Scores] Ne.
  destruct (openSet st) as [|node rest] eqn:O; [congruence|].
  destruct (Open node (or_introl eq_refl)) as [Hc Hf].
  assert (D : In (fst node) (discovered st)).
  { unfold discovered. apply filter_In. split; [now apply contains_keys|exact Hc]. }
  destruct (minBy_returns (fun coord => heuristicCost d coord endCoordinate) (discovered st))
    as [closestCoord M]; [intros E; rewrite E in D; destruct D|].
  pose proof (minBy_In _ _ _ M) as I.
  assert (G : contains (gScore st) closestCoord = true).
  { apply Scores. unfold discovered in I. apply filter_In in I.
    apply contains_keys. tauto. }
  unfold contains in G.
  destruct (get (gScore st) closestCoord) as [g|] eqn:Gg; [|discriminate].
  exists closestCoord, g. split; [exact M|]. split; [exact I|].
  unfold item. now rewrite Gg.
Qed.


(** *** [findNextAction] *)

(** An agent of speed 2 on a map with nothing recorded, at (0, 0). *)
Definition loneAgent (maxIteration_ : Z) : PathFinderData float :=
  {| map_ := newDynamicMap no_dims 1 "agentA" 10 60; start := XY 0 0; agentSpeed := 2;
     clearEnergyCost := 2; agentEnergy := 10; agentMaxEnergy := 8;
     clearChance := 0.5%float; clearConstantCost := 2.5%float;
     maxIteration := maxIteration_; agentVision_ := 5; attachedCoordinates := [] |}.

(** [random.shuffle] leaving the neighbours in their order. *)
Definition unshuffled (iteration : Z) (l : list Neighbor) : list Neighbor := l.

(** The state after the one iteration the bound 0 allows, towards (3, 0). *)
Definition afterOneIteration : SearchState float :=
  Eval vm_compute in
    match expand no_dims unshuffled (map_ (loneAgent 0)) (XY 0 0) (XY 3 0)
            0.5%float 2.5%float 2 5 false
            (initialSearch no_dims (XY 0 0) (XY 3 0) []) (XY 0 0) [] with
    | Ok st => st
    | Raise _ => initialSearch no_dims (XY 0 0) (XY 3 0) []
    end.




(* ===================================================================== *)
(** * Part III: the rest of the cited modules                             *)
(* ===================================================================== *)

(** ** Directions (data/coreData/enums.py) *)

(** X1.  [opposite] is an involution; [isSameDirection] is equality;
    [isOppositeDirection], a parity test on the values, holds for the
    opposite direction and for the direction itself; [getAdjacentDirections]
    returns, for every direction, the two directions the parity test
    rejects, the second the opposite of the first. *)
Theorem direction_relations (a b : Direction) :
  opposite (opposite a) = a
  /\ (isSameDirection a b = true <-> a = b)
  /\ (isOppositeDirection a b = true <-> b = a \/ b = opposite a)
  /\ exists leftDirection rightDirection,
       getAdjacentDirections a = Ok (leftDirection, rightDirection)
       /\ rightDirection = opposite leftDirection
       /\ (isOppositeDirection a b = false <-> b = leftDirection \/ b = rightDirection).
Proof.
  split; [destruct a; reflexivity|].
  split; [destruct a, b; vm_compute; split; congruence|].
  split; [destruct a, b; vm_compute; intuition congruence|].
  destruct a.
  - exists EAST, WEST. split; [reflexivity|]. split; [reflexivity|].
    destruct b; vm_compute; intuition congruence.
  - exists SOUTH, NORTH. split; [reflexivity|]. split; [reflexivity|].
    destruct b; vm_compute; intuition congruence.
  - exists WEST, EAST. split; [reflexivity|]. split; [reflexivity|].
    destruct b; vm_compute; intuition congruence.
  - exists NORTH, SOUTH. split; [reflexivity|]. split; [reflexivity|].
    destruct b; vm_compute; intuition congruence.
Qed.

(** ** Rotation of relative coordinates (data/coreData/coordinate.py) *)

(** The four relative coordinates next to the agent. *)
Definition adjacentRelCoord (c : Coordinate) : Prop :=
  c = XY 0 (-1) \/ c = XY 1 0 \/ c = XY 0 1 \/ c = XY (-1) 0.

(** The attachment after the step, as [isCoordinatePassable] computes it
    when a rotation is needed: two clockwise rotations for a move against
    the facing direction, else the rotation [getRotateDirection] names. *)
Definition attachmentAfterRotation (d : Dims) (attachment : Coordinate)
    (moveDirection : Direction) : Coordinate :=
  let faceDirection := getDirection d attachment (origo d) in
  if isOppositeDirection moveDirection faceDirection then
    getRotatedRelCoord (getRotatedRelCoord attachment CLOCKWISE) CLOCKWISE
  else
    getRotatedRelCoord attachment (getRotateDirection attachment moveDirection).

(** X2.  The two rotations are inverse to each other, two rotations the
    same way negate the coordinate, four are the identity, and a rotation
    keeps the Manhattan and the squared Euclidean length. *)
Theorem rotation_round_trip (c : Coordinate) (direction : RotateDirection) :
  getRotatedRelCoord (getRotatedRelCoord c CLOCKWISE) COUNTERCLOCKWISE = c
  /\ getRotatedRelCoord (getRotatedRelCoord c COUNTERCLOCKWISE) CLOCKWISE = c
  /\ getRotatedRelCoord (getRotatedRelCoord c direction) direction = negate c
  /\ getRotatedRelCoord (getRotatedRelCoord (getRotatedRelCoord
       (getRotatedRelCoord c direction) direction) direction) direction = c
  /\ Z.abs (cx (getRotatedRelCoord c direction)) + Z.abs (cy (getRotatedRelCoord c direction))
     = Z.abs (cx c) + Z.abs (cy c)
  /\ cx (getRotatedRelCoord c direction) ^ 2 + cy (getRotatedRelCoord c direction) ^ 2
     = cx c ^ 2 + cy c ^ 2.
Proof.
  destruct c as [x y]. unfold getRotatedRelCoord, negate; cbn [cx cy].
  repeat split; try (destruct direction; cbn [cx cy]); try (f_equal; lia); try lia; ring.
Qed.

(** Every dimension that is set is at least [n]. *)
Definition dims_at_least (n : Z) (d : Dims) : Prop :=
  match maxWidth d with Some w => n <= w | None => True end
  /\ match maxHeight d with Some h => n <= h | None => True end.

Lemma dims_at_least_ok (n : Z) (d : Dims) : 0 < n -> dims_at_least n d -> dims_ok d.
Proof.
  unfold dims_at_least, dims_ok, dim_pos. intros Hn [Hw Hh].
  destruct (maxWidth d), (maxHeight d); split; lia.
Qed.

(** The wrap-around representative depends on the residue alone. *)
Lemma wrapDifference_residue (w z z' : Z) :
  0 < w -> z mod w = z' mod w -> wrapDifference (Some w) z = wrapDifference (Some w) z'.
Proof. intros Hw E. rewrite !(wrapDifference_char w _ Hw), E. reflexivity. Qed.

Lemma wrapDifference_short (o : option Z) (z r : Z) :
  dim_pos o -> shortAxis o r ->
  match o with Some w => z mod w = r mod w | None => z = r end ->
  wrapDifference o z = r.
Proof.
  destruct o as [w|]; cbn [dim_pos shortAxis]; intros Hw Hr E.
  - rewrite (wrapDifference_residue w z r Hw E). now apply wrapDifference_fixpoint.
  - exact E.
Qed.

Lemma origo_zero (d : Dims) : origo d = XY 0 0.
Proof.
  unfold origo, Coord, normalize; cbn [cx cy].
  destruct (maxWidth d), (maxHeight d); reflexivity.
Qed.

(** [getRelativeCoordinateByDirection] *)
Definition getRelativeCoordinateByDirection (direction : Direction) : Coordinate :=
  match direction with
  | NORTH => XY 0 (-1)
  | EAST => XY 1 0
  | SOUTH => XY 0 1
  | WEST => XY (-1) 0
  end.

(** One axis of a normalized step from a normalized coordinate. *)
Lemma axis_step (o : option Z) (x delta : Z) :
  dim_pos o -> shortAxis o delta ->
  wrapDifference o
    (match o with
     | Some w => (match o with Some w' => x mod w' | None => x end + delta) mod w
     | None => match o with Some w' => x mod w' | None => x end + delta
     end - x) = delta.
Proof.
  intros Hw Hs. apply wrapDifference_short; [assumption|assumption|].
  destruct o as [w|]; [|lia]. cbn [dim_pos] in Hw.
  rewrite Zminus_mod_idemp_l. rewrite (Z.mod_eq x w) by lia.
  replace (x - w * (x / w) + delta - x) with (delta + (- (x / w)) * w) by ring.
  apply Z_mod_plus_full.
Qed.

Lemma unit_is_short (n : Z) (d : Dims) (direction : Direction) :
  3 <= n -> dims_at_least n d ->
  shortestOffset d (getRelativeCoordinateByDirection direction).
Proof.
  unfold dims_at_least, shortestOffset, shortAxis. intros Hn [Hw Hh].
  destruct (maxWidth d), (maxHeight d), direction; cbn [getRelativeCoordinateByDirection cx cy];
    split; lia.
Qed.

Lemma relative_of_step (d : Dims) (c : Coordinate) (direction : Direction) :
  dims_at_least 3 d ->
  getRelativeCoordinate d c (getMovedCoord d c [direction] true)
  = getRelativeCoordinateByDirection direction.
Proof.
  intros Hd. pose proof (dims_at_least_ok 3 d ltac:(lia) Hd) as [Pw Ph].
  pose proof (unit_is_short 3 d direction ltac:(lia) Hd) as [Sw Sh].
  pose proof (unit_is_short 3 d EAST ltac:(lia) Hd) as [Zw Zh].
  pose proof (unit_is_short 3 d SOUTH ltac:(lia) Hd) as [Zw' Zh'].
  cbn [getRelativeCoordinateByDirection cx cy] in Zw, Zh, Zw', Zh'.
  unfold getRelativeCoordinate, getMovedCoord, move, Coord, normalize.
  destruct c as [x y]. cbn [fold_left cx cy].
  destruct direction; cbn [step cx cy getRelativeCoordinateByDirection] in *; f_equal.
  - rewrite <- (Z.add_0_r (match maxWidth d with Some w => x mod w | None => x end)).
    now apply axis_step.
  - replace (match maxHeight d with Some h => y mod h | None => y end - 1)
      with (match maxHeight d with Some h => y mod h | None => y end + -1) by lia.
    now apply axis_step.
  - now apply axis_step.
  - rewrite <- (Z.add_0_r (match maxHeight d with Some h => y mod h | None => y end)).
    now apply axis_step.
  - rewrite <- (Z.add_0_r (match maxWidth d with Some w => x mod w | None => x end)).
    now apply axis_step.
  - now apply axis_step.
  - replace (match maxWidth d with Some w => x mod w | None => x end - 1)
      with (match maxWidth d with Some w => x mod w | None => x end + -1) by lia.
    now apply axis_step.
  - rewrite <- (Z.add_0_r (match maxHeight d with Some h => y mod h | None => y end)).
    now apply axis_step.
Qed.

Lemma moved_is_shifted (d : Dims) (c : Coordinate) (direction : Direction) :
  getMovedCoord d c [direction] true
  = getShiftedCoordinate d c (getRelativeCoordinateByDirection direction) true.
Proof.
  unfold getMovedCoord, getShiftedCoordinate, move, Coord, normalize.
  destruct c as [x y]. cbn [fold_left cx cy].
  destruct (maxWidth d) as [w|], (maxHeight d) as [h|], direction;
    cbn [step cx cy getRelativeCoordinateByDirection]; f_equal;
    rewrite ?Z.add_0_r, ?Zmod_mod, ?Zplus_mod_idemp_l, ?Zminus_mod_idemp_l;
    try reflexivity; try (f_equal; lia).
Qed.

(** X3.  Where every dimension that is set is at least 3, one step from a
    coordinate leads to a cell whose relative coordinate is the unit
    vector of the direction, whose direction from the coordinate is the
    direction stepped in and whose Manhattan distance is 1; it is the
    coordinate shifted by the unit vector, and the step back returns to
    the normalized coordinate. *)
Theorem step_direction_round_trip (d : Dims) (c : Coordinate) (direction : Direction) :
  dims_at_least 3 d ->
  let next := getMovedCoord d c [direction] true in
  getRelativeCoordinate d c next = getRelativeCoordinateByDirection direction
  /\ getDirection d c next = direction
  /\ manhattanDistance d c next = 1
  /\ next = getShiftedCoordinate d c (getRelativeCoordinateByDirection direction) true
  /\ getMovedCoord d next [opposite direction] true = normalize d c.
Proof.
  intros Hd next.
  pose proof (relative_of_step d c direction Hd) as R. fold next in R.
  split; [exact R|]. split; [|split; [|split]].
  - unfold getDirection. rewrite R. destruct direction; reflexivity.
  - unfold manhattanDistance. rewrite R. destruct direction; reflexivity.
  - apply moved_is_shifted.
  - unfold next, getMovedCoord. unfold Coord at 1.
    change (move d (Coord d (cx c) (cy c) true) [direction] true)
      with (move d (normalize d c) [direction] true).
    replace (normalize d (XY (cx (move d (normalize d c) [direction] true))
                             (cy (move d (normalize d c) [direction] true))))
      with (move d (normalize d c) [direction] true).
    + pose proof (move_round_trip d (normalize d c) [direction]) as M.
      cbn [List.map rev app] in M. rewrite M. apply normalize_idempotent.
    + unfold move.
      match goal with |- normalize d ?X = _ =>
        replace (XY (cx (normalize d X)) (cy (normalize d X))) with (normalize d X)
          by (now destruct (normalize d X))
      end.
      now rewrite normalize_idempotent.
Qed.

Lemma step_direction_round_trip_witness :
  let d := {| maxWidth := Some 3; maxHeight := None |} in
  getDirection d (XY 2 5) (getMovedCoord d (XY 2 5) [EAST] true) = EAST
  /\ getMovedCoord d (XY 2 5) [EAST] true = XY 0 5.
Proof.
  intros d.
  destruct (step_direction_round_trip d (XY 2 5) EAST) as [_ [D _]].
  - split; simpl; lia.
  - split; [exact D|reflexivity].
Defined.

(** The direction an adjacent block is faced from does not depend on the
    dimensions, when these are at least 3. *)
Lemma face_of_adjacent (d : Dims) (a : Coordinate) :
  dims_at_least 3 d -> adjacentRelCoord a ->
  getDirection d a (origo d) = getDirection no_dims a (XY 0 0).
Proof.
  intros Hd Ha. pose proof (dims_at_least_ok 3 d ltac:(lia) Hd) as [Pw Ph].
  assert (R : getRelativeCoordinate d a (origo d) = getRelativeCoordinate no_dims a (XY 0 0)).
  { rewrite origo_zero. unfold getRelativeCoordinate. cbn [no_dims maxWidth maxHeight].
    destruct Hd as [Hw Hh]. f_equal; apply wrapDifference_short; try assumption;
      cbn [wrapDifference cx cy];
      destruct Ha as [->|[->|[->| ->]]]; cbn [cx cy];
      try (destruct (maxWidth d); cbn [shortAxis]; lia);
      try (destruct (maxHeight d); cbn [shortAxis]; lia);
      try (destruct (maxWidth d); reflexivity);
      try (destruct (maxHeight d); reflexivity). }
  unfold getDirection. now rewrite R.
Qed.

(** X4.  For a block attached next to the agent, where every dimension
    that is set is at least 3: after the rotation the planner records for
    a step that is not in the facing direction, the block is again next to
    the agent and the facing direction is the direction of the step. *)
Theorem attachment_trails_after_rotation (d : Dims) (attachment : Coordinate)
    (moveDirection : Direction) :
  dims_at_least 3 d -> adjacentRelCoord attachment ->
  isSameDirection moveDirection (getDirection d attachment (origo d)) = false ->
  adjacentRelCoord (attachmentAfterRotation d attachment moveDirection)
  /\ getDirection d (attachmentAfterRotation d attachment moveDirection) (origo d)
     = moveDirection.
Proof.
  intros Hd Adj Same. rewrite (face_of_adjacent d attachment Hd Adj) in Same.
  assert (E : attachmentAfterRotation d attachment moveDirection
              = attachmentAfterRotation no_dims attachment moveDirection).
  { unfold attachmentAfterRotation. rewrite (face_of_adjacent d attachment Hd Adj).
    reflexivity. }
  rewrite E.
  assert (Adj' : adjacentRelCoord (attachmentAfterRotation no_dims attachment moveDirection)).
  { unfold adjacentRelCoord.
    destruct Adj as [->|[->|[->| ->]]]; destruct moveDirection; vm_compute;
      intuition congruence. }
  split; [exact Adj'|]. rewrite (face_of_adjacent d _ Hd Adj').
  destruct Adj as [->|[->|[->| ->]]]; destruct moveDirection;
    vm_compute in Same |- *; congruence.
Qed.

Lemma attachment_trails_after_rotation_witness :
  attachmentAfterRotation no_dims (XY 0 1) EAST = XY (-1) 0
  /\ getDirection no_dims (XY (-1) 0) (origo no_dims) = EAST.
Proof.
  destruct (attachment_trails_after_rotation no_dims (XY 0 1) EAST) as [_ D].
  - split; exact I.
  - right. right. left. reflexivity.
  - reflexivity.
  - split; [reflexivity|exact D].
Defined.

(** ** The Manhattan distance of cells (data/coreData/coordinate.py) *)

Lemma wrapDifference_abs_opp (o : option Z) (z : Z) :
  dim_pos o -> Z.abs (wrapDifference o (- z)) = Z.abs (wrapDifference o z).
Proof.
  destruct o as [w|]; [|cbn [wrapDifference]; lia]. cbn [dim_pos]. intros Hw.
  destruct (wrapDifference_congruent w z Hw) as [k Hk].
  destruct (wrapDifference_congruent w (- z) Hw) as [j Hj].
  pose proof (wrapDifference_minimal w (- z) (- k) Hw) as M1.
  pose proof (wrapDifference_minimal w z (- j) Hw) as M2.
  replace (- z + - k * w) with (- wrapDifference (Some w) z) in M1 by lia.
  replace (z + - j * w) with (- wrapDifference (Some w) (- z)) in M2 by lia.
  lia.
Qed.

Lemma wrapDifference_null (o : option Z) (a b : Z) :
  dim_pos o ->
  (wrapDifference o (b - a) = 0
   <-> match o with Some w => a mod w = b mod w | None => a = b end).
Proof.
  destruct o as [w|]; [|cbn [wrapDifference]; lia]. cbn [dim_pos]. intros Hw.
  rewrite (wrapDifference_char w (b - a) Hw).
  pose proof (Z.mod_pos_bound (b - a) w Hw) as B.
  rewrite (Z.cong_iff_0 a b w).
  assert (S : (a - b) mod w = 0 <-> (b - a) mod w = 0).
  { rewrite <- !Z.cong_iff_0. split; congruence. }
  rewrite S. destruct (Z.ltb_spec (2 * ((b - a) mod w)) w); lia.
Qed.

(** X5.  Where the dimensions that are set are positive, the Manhattan
    distance is a metric on the cells: it is not negative, symmetric, 0
    exactly for two coordinates of the same cell, it satisfies the
    triangle inequality and it does not change when a coordinate is
    normalized. *)
Theorem manhattanDistance_metric (d : Dims) (a b c : Coordinate) :
  dims_ok d ->
  0 <= manhattanDistance d a b
  /\ manhattanDistance d a b = manhattanDistance d b a
  /\ (manhattanDistance d a b = 0 <-> normalize d a = normalize d b)
  /\ manhattanDistance d a c <= manhattanDistance d a b + manhattanDistance d b c
  /\ manhattanDistance d (normalize d a) b = manhattanDistance d a b.
Proof.
  intros Hd. split; [unfold manhattanDistance; lia|].
  split; [|split; [|split]].
  - destruct Hd as [Hw Hh]. unfold manhattanDistance, getRelativeCoordinate; cbn [cx cy].
    rewrite <- (wrapDifference_abs_opp (maxWidth d) (cx b - cx a) Hw).
    rewrite <- (wrapDifference_abs_opp (maxHeight d) (cy b - cy a) Hh).
    replace (- (cx b - cx a)) with (cx a - cx b) by lia.
    replace (- (cy b - cy a)) with (cy a - cy b) by lia. reflexivity.
  - destruct Hd as [Hw Hh]. unfold manhattanDistance, getRelativeCoordinate, normalize;
      cbn [cx cy].
    pose proof (wrapDifference_null (maxWidth d) (cx a) (cx b) Hw) as Nx.
    pose proof (wrapDifference_null (maxHeight d) (cy a) (cy b) Hh) as Ny.
    split.
    + intros Z0.
      assert (wrapDifference (maxWidth d) (cx b - cx a) = 0) by lia.
      assert (wrapDifference (maxHeight d) (cy b - cy a) = 0) by lia.
      destruct (maxWidth d), (maxHeight d); f_equal; tauto.
    + intros E. injection E as Ex Ey.
      assert (wrapDifference (maxWidth d) (cx b - cx a) = 0)
        by (apply Nx; destruct (maxWidth d); assumption).
      assert (wrapDifference (maxHeight d) (cy b - cy a) = 0)
        by (apply Ny; destruct (maxHeight d); assumption).
      lia.
  - now apply manhattanDistance_triangle.
  - destruct Hd as [Hw Hh]. unfold manhattanDistance, getRelativeCoordinate, normalize;
      cbn [cx cy].
    assert (A : forall o x y, dim_pos o ->
              wrapDifference o (y - match o with Some w => x mod w | None => x end)
              = wrapDifference o (y - x)).
    { intros [w|] x y Ho; [|reflexivity]. cbn [dim_pos] in Ho.
      apply wrapDifference_residue; [assumption|].
      now rewrite Zminus_mod_idemp_r. }
    now rewrite (A _ _ _ Hw), (A _ _ _ Hh).
Qed.

Lemma manhattanDistance_metric_witness :
  let d := {| maxWidth := Some 10; maxHeight := Some 8 |} in
  manhattanDistance d (XY 1 1) (XY 9 7) = 4
  /\ manhattanDistance d (XY 9 7) (XY 1 1) = 4
  /\ manhattanDistance d (XY 1 1) (XY 21 (-7)) = 0.
Proof.
  intros d.
  destruct (manhattanDistance_metric d (XY 1 1) (XY 9 7) (XY 0 0)) as [_ [S _]];
    [split; simpl; lia|].
  destruct (manhattanDistance_metric d (XY 1 1) (XY 21 (-7)) (XY 0 0)) as [_ [_ [Z0 _]]];
    [split; simpl; lia|].
  split; [reflexivity|]. split; [rewrite <- S; reflexivity|].
  apply Z0. reflexivity.
Defined.

(** ** The neighbours of a cell (data/coreData/coordinate.py) *)

Lemma range_around (x : Z) : range (x - 1) (x + 1 + 1) = [x + -1; x + 0; x + 1].
Proof.
  unfold range. replace (x + 1 + 1 - (x - 1)) with 3 by lia.
  change (Z.to_nat 3) with 3%nat. cbn [seq List.map].
  f_equal; [lia|]. f_equal; [lia|]. f_equal. lia.
Qed.

Lemma distance_to_offset (d : Dims) (self : Coordinate) (dx dy : Z) :
  dims_at_least 3 d -> -1 <= dx <= 1 -> -1 <= dy <= 1 ->
  manhattanDistance d self (Coord d (cx self + dx) (cy self + dy) true)
  = Z.abs dx + Z.abs dy.
Proof.
  intros Hd Hx Hy. pose proof (dims_at_least_ok 3 d ltac:(lia) Hd) as [Pw Ph].
  destruct Hd as [Hw Hh].
  unfold manhattanDistance, getRelativeCoordinate, Coord, normalize; cbn [cx cy].
  f_equal; f_equal; apply wrapDifference_short; try assumption.
  - destruct (maxWidth d); cbn [shortAxis]; lia.
  - destruct (maxWidth d) as [w|]; [|lia].
    rewrite Zminus_mod_idemp_l. f_equal. lia.
  - destruct (maxHeight d); cbn [shortAxis]; lia.
  - destruct (maxHeight d) as [h|]; [|lia].
    rewrite Zminus_mod_idemp_l. f_equal. lia.
Qed.

Lemma offset_is_other_cell (d : Dims) (self : Coordinate) (dx dy : Z) :
  dims_at_least 3 d -> -1 <= dx <= 1 -> -1 <= dy <= 1 -> Z.abs dx + Z.abs dy <> 0 ->
  key_eqb self (Coord d (cx self + dx) (cy self + dy) true) = false.
Proof.
  intros Hd Hx Hy N. apply key_eqb_neq. intros E.
  pose proof (distance_to_offset d self dx dy Hd Hx Hy) as D.
  rewrite <- E, manhattanDistance_self in D. lia.
Qed.

(** The cells of the 3 x 3 square that pass the distance test. *)
Lemma cells_around (d : Dims) (self : Coordinate) :
  dims_at_least 3 d ->
  flat_map (fun i =>
    flat_map (fun j =>
      if (manhattanDistance d self (Coord d i j true) <=? 1)
         && (0 <=? manhattanDistance d self (Coord d i j true))
      then [Coord d i j true] else [])
      (range (cy self - 1) (cy self + 1 + 1)))
    (range (cx self - 1) (cx self + 1 + 1))
  = [Coord d (cx self + -1) (cy self + 0) true; Coord d (cx self + 0) (cy self + -1) true;
     Coord d (cx self + 0) (cy self + 0) true; Coord d (cx self + 0) (cy self + 1) true;
     Coord d (cx self + 1) (cy self + 0) true].
Proof.
  intros Hd. rewrite !range_around. cbn [flat_map app].
  rewrite !(distance_to_offset d self _ _ Hd) by lia. reflexivity.
Qed.

(** X6.  Where every dimension that is set is at least 3, the neighbours
    of a normalized coordinate ([neighbors()] with its default arguments)
    are the four cells one step away, in the order west, north, south,
    east, without the coordinate itself.  For a coordinate that is not
    normalized the removal of [self] finds nothing, and the normalized
    coordinate of its own cell stays in the list. *)
Theorem neighbors_of_cell (d : Dims) (self : Coordinate) :
  dims_at_least 3 d ->
  let around := List.map (fun direction => getMovedCoord d self [direction] true) in
  (normalize d self = self ->
   neighbors d self true 1 0 = around [WEST; NORTH; SOUTH; EAST])
  /\ (normalize d self <> self ->
      neighbors d self true 1 0
      = around [WEST; NORTH] ++ [normalize d self] ++ around [SOUTH; EAST]).
Proof.
  intros Hd around. unfold neighbors. rewrite (cells_around d self Hd).
  assert (Mid : Coord d (cx self + 0) (cy self + 0) true = normalize d self).
  { unfold Coord. rewrite !Z.add_0_r. now destruct self. }
  rewrite Mid. cbn [mem list_remove].
  rewrite !(offset_is_other_cell d self _ _ Hd) by lia. cbn [orb].
  unfold around. cbn [List.map app]. rewrite !moved_is_shifted.
  unfold getShiftedCoordinate. cbn [getRelativeCoordinateByDirection cx cy].
  split; intros E.
  - rewrite E, key_eqb_refl. reflexivity.
  - rewrite (key_eqb_neq self (normalize d self)) by congruence. reflexivity.
Qed.

Lemma neighbors_of_cell_witness :
  let d := {| maxWidth := Some 5; maxHeight := None |} in
  neighbors d (XY 4 0) true 1 0 = [XY 3 0; XY 4 (-1); XY 4 1; XY 0 0]
  /\ neighbors d (XY 9 0) true 1 0 = [XY 3 0; XY 4 (-1); XY 4 0; XY 4 1; XY 0 0].
Proof.
  intros d.
  destruct (neighbors_of_cell d (XY 4 0)) as [N _]; [split; simpl; lia|].
  destruct (neighbors_of_cell d (XY 9 0)) as [_ U]; [split; simpl; lia|].
  split; [rewrite N; reflexivity|rewrite U; [reflexivity|discriminate]].
Defined.

(** ** The border of the vision (data/coreData/coordinate.py) *)

(** The body of the loop of [getVisionBorderCoordinates]: the state is
    [iteration] and [coords]. *)
Definition borderStep (d : Dims) (self : Coordinate) (st : Z * list Coordinate) (i : Z)
    : Z * list Coordinate :=
  let '(iteration, coords) := st in
  (if i <? cx self then iteration + 1 else iteration - 1,
   coords ++ [Coord d i (cy self + iteration) true; Coord d i (cy self - iteration) true]).

(** [getVisionBorderCoordinates]; [coords[1:-1]] drops the first and the
    last element. *)
Definition getVisionBorderCoordinates (d : Dims) (self : Coordinate) (vision : Z)
    : list Coordinate :=
  let coords :=
    snd (fold_left (borderStep d self)
           (range (cx self - vision - 1) (cx self + vision + 2)) (0, [])) in
  removelast (tl coords).

Lemma range_nil (a b : Z) : b <= a -> range a b = [].
Proof. intros L. unfold range. replace (Z.to_nat (b - a)) with 0%nat by lia. reflexivity. Qed.

Lemma range_cons (a b : Z) : a < b -> range a b = a :: range (a + 1) b.
Proof.
  intros L. unfold range.
  replace (Z.to_nat (b - a)) with (S (Z.to_nat (b - (a + 1)))) by lia.
  cbn [seq List.map]. f_equal; [lia|].
  rewrite <- seq_shift, map_map. apply map_ext. intros t. lia.
Qed.

Lemma range_snoc (a b : Z) : a <= b -> range a (b + 1) = range a b ++ [b].
Proof.
  intros L. unfold range.
  replace (Z.to_nat (b + 1 - a)) with (Z.to_nat (b - a) + 1)%nat by lia.
  rewrite seq_app, map_app. cbn [seq List.map]. do 2 f_equal. lia.
Qed.

Lemma In_range (a b i : Z) : In i (range a b) <-> a <= i < b.
Proof.
  unfold range. rewrite in_map_iff. split.
  - intros [t [<- I]]. apply in_seq in I. lia.
  - intros B. exists (Z.to_nat (i - a)). split; [lia|]. apply in_seq. lia.
Qed.

Lemma range_length (a b : Z) : List.length (range a b) = Z.to_nat (b - a).
Proof. unfold range. now rewrite length_map, length_seq. Qed.

(** The two coordinates appended for the column [i]. *)
Definition borderPair (d : Dims) (self : Coordinate) (r i : Z) : list Coordinate :=
  [Coord d i (cy self + (r - Z.abs (i - cx self))) true;
   Coord d i (cy self - (r - Z.abs (i - cx self))) true].

Lemma border_fold (d : Dims) (self : Coordinate) (r b : Z) (n : nat) :
  forall a iteration coords,
  n = Z.to_nat (b - a) -> iteration = r - Z.abs (a - cx self) ->
  snd (fold_left (borderStep d self) (range a b) (iteration, coords))
  = coords ++ flat_map (borderPair d self r) (range a b).
Proof.
  induction n as [|n IH]; intros a iteration coords Hn Hi.
  - rewrite range_nil by lia. cbn [fold_left flat_map snd]. now rewrite app_nil_r.
  - rewrite range_cons by lia. cbn [fold_left flat_map borderStep].
    rewrite (IH (a + 1)) by (destruct (Z.ltb_spec a (cx self)); lia).
    rewrite <- app_assoc. f_equal. unfold borderPair at 2. subst iteration. reflexivity.
Qed.

Lemma flat_map_pairs_length (d : Dims) (self : Coordinate) (r : Z) (l : list Z) :
  List.length (flat_map (borderPair d self r) l) = (2 * List.length l)%nat.
Proof. induction l as [|i l IH]; cbn [flat_map List.length app borderPair]; lia. Qed.

(** The list before the slice, and the slice. *)
Lemma border_slice (d : Dims) (self : Coordinate) (vision : Z) :
  0 <= vision ->
  let r := vision + 1 in
  getVisionBorderCoordinates d self vision
  = Coord d (cx self - r) (cy self - (r - Z.abs (cx self - r - cx self))) true
    :: flat_map (borderPair d self r) (range (cx self - r + 1) (cx self + r))
    ++ [Coord d (cx self + r) (cy self + (r - Z.abs (cx self + r - cx self))) true].
Proof.
  intros Hv r. unfold getVisionBorderCoordinates.
  replace (cx self - vision - 1) with (cx self - r) by (unfold r; lia).
  replace (cx self + vision + 2) with (cx self + r + 1) by (unfold r; lia).
  rewrite (border_fold d self r (cx self + r + 1) (Z.to_nat (cx self + r + 1 - (cx self - r)))
             (cx self - r) 0 [] eq_refl) by (unfold r; lia).
  rewrite (range_cons (cx self - r)) by (unfold r; lia).
  rewrite (range_snoc (cx self - r + 1)) by (unfold r; lia).
  cbn [flat_map app]. rewrite flat_map_app. cbn [flat_map borderPair app tl].
  match goal with
  | |- removelast (?A :: ?M ++ [?B; ?B']) = _ =>
      change (A :: M ++ [B; B']) with ((A :: M) ++ [B; B']);
      replace ((A :: M) ++ [B; B']) with (((A :: M) ++ [B]) ++ [B'])
        by (rewrite <- app_assoc; reflexivity);
      rewrite removelast_last
  end.
  reflexivity.
Qed.

(** X7.  For a vision that is not negative (and dimensions that are
    positive where set), [getVisionBorderCoordinates]
    returns [4 * (vision + 1)] coordinates, and a coordinate is returned
    exactly when it is the normalized coordinate of [self] shifted by an
    offset of Manhattan length [vision + 1], one more than the vision. *)
Theorem vision_border_ring (d : Dims) (self : Coordinate) (vision : Z) :
  dims_ok d -> 0 <= vision ->
  Z.of_nat (List.length (getVisionBorderCoordinates d self vision)) = 4 * (vision + 1)
  /\ forall c,
       In c (getVisionBorderCoordinates d self vision)
       <-> exists dx dy, Z.abs dx + Z.abs dy = vision + 1
                         /\ c = Coord d (cx self + dx) (cy self + dy) true.
Proof.
  intros _ Hv. rewrite (border_slice d self vision Hv). cbv zeta.
  set (r := vision + 1). assert (Hr : 1 <= r) by (unfold r; lia).
  split.
  - cbn [List.length]. rewrite length_app, flat_map_pairs_length, range_length.
    cbn [List.length]. lia.
  - intros c. cbn [In]. rewrite in_app_iff, in_flat_map. cbn [In]. split.
    + intros [<-|[[i [Hi Hc]]|[<-|[]]]].
      * exists (- r), 0. split; [lia|]. f_equal; lia.
      * apply In_range in Hi. unfold borderPair in Hc. cbn [In] in Hc.
        destruct Hc as [<-|[<-|[]]].
        -- exists (i - cx self), (r - Z.abs (i - cx self)). split; [lia|]. f_equal; lia.
        -- exists (i - cx self), (- (r - Z.abs (i - cx self))). split; [lia|]. f_equal; lia.
      * exists r, 0. split; [lia|]. f_equal; lia.
    + intros [dx [dy [L ->]]].
      destruct (Z.eq_dec dx (- r)) as [->|N1]; [left; f_equal; lia|].
      destruct (Z.eq_dec dx r) as [->|N2]; [right; right; left; f_equal; lia|].
      right. left. exists (cx self + dx). split; [apply In_range; lia|].
      unfold borderPair. cbn [In].
      destruct (Z_le_gt_dec 0 dy); [left|right; left]; f_equal; lia.
Qed.

Lemma vision_border_ring_witness :
  getVisionBorderCoordinates no_dims (XY 0 0) 0 = [XY (-1) 0; XY 0 1; XY 0 (-1); XY 1 0]
  /\ In (XY 0 1) (getVisionBorderCoordinates no_dims (XY 0 0) 0).
Proof.
  split; [reflexivity|].
  destruct (vision_border_ring no_dims (XY 0 0) 0) as [_ R]; [split; exact I|lia|].
  apply R. exists 0, 1. split; reflexivity.
Defined.

(** ** Equality of cell entries (data/coreData/mapValue.py) *)

Lemma MapValueEnum_eqb_spec (a b : MapValueEnum) : reflect (a = b) (MapValueEnum_eqb a b).
Proof. destruct a, b; simpl; constructor; congruence. Qed.

(** X8.  [MapValue.__eq__] is an equivalence relation.  It compares the
    entity and the step, and the details too except between agents noted
    at step 0, which are equal whatever their details (their team). *)
Theorem MapValue_eq_equivalence (a b c : MapValue) :
  MapValue_eqb a a = true
  /\ MapValue_eqb a b = MapValue_eqb b a
  /\ (MapValue_eqb a b = true -> MapValue_eqb b c = true -> MapValue_eqb a c = true)
  /\ (MapValue_eqb a b = true
      <-> value a = value b /\ simulationStep a = simulationStep b
          /\ (details a = details b \/ (value a = AGENT /\ simulationStep a = 0))).
Proof.
  assert (Char : forall u v,
            MapValue_eqb u v = true
            <-> value u = value v /\ simulationStep u = simulationStep v
                /\ (details u = details v \/ (value u = AGENT /\ simulationStep u = 0))).
  { intros u v. unfold MapValue_eqb.
    destruct (MapValueEnum_eqb_spec (value u) (value v)),
             (Z.eqb_spec (simulationStep u) (simulationStep v)),
             (String.eqb_spec (details u) (details v)),
             (MapValueEnum_eqb_spec (value u) AGENT),
             (Z.eqb_spec (simulationStep u) 0); cbn [andb orb];
      intuition congruence. }
  split; [apply Char; tauto|]. split; [|split; [|apply Char]].
  - destruct (MapValue_eqb a b) eqn:E1, (MapValue_eqb b a) eqn:E2; try reflexivity.
    + apply Char in E1. assert (E : MapValue_eqb b a = true); [|congruence].
      apply Char. intuition congruence.
    + apply Char in E2. assert (E : MapValue_eqb a b = true); [|congruence].
      apply Char. intuition congruence.
  - rewrite !Char. intuition congruence.
Qed.

(** ** The dispenser index (data/map/dispenserMap.py) *)

(** [getDispenserCoordsByType]: [list(self.dispensers[type])]. *)
Definition getDispenserCoordsByType (dispensers : DispenserMap) (type : string)
    : Result (list Coordinate) :=
  item dispensers type.

(** X9.  After [addDispenser(type, c)] the coordinates of the type are
    those it had, and [c]; the other types are as before; a type never
    added raises [KeyError]; [c] is among all dispenser coordinates and has
    a dispenser value; adding the same dispenser again changes nothing. *)
Theorem dispenser_add_lookup (dispensers : DispenserMap) (type type' : string)
    (c : Coordinate) :
  (exists l,
     getDispenserCoordsByType (addDispenser dispensers type c) type = Ok l
     /\ forall c', In c' l
                   <-> c' = c \/ exists l0, get dispensers type = Some l0 /\ In c' l0)
  /\ (type' <> type ->
      getDispenserCoordsByType (addDispenser dispensers type c) type'
      = getDispenserCoordsByType dispensers type')
  /\ (contains dispensers type' = false ->
      getDispenserCoordsByType dispensers type' = Raise KeyError)
  /\ mem c (getAllDispenserCoords (addDispenser dispensers type c)) = true
  /\ (exists t, getDispenserMapValueByCoord (addDispenser dispensers type c) c
                = Ok (MkMapValue DISPENSER t 0))
  /\ addDispenser (addDispenser dispensers type c) type c = addDispenser dispensers type c.
Proof.
  assert (Got : get (addDispenser dispensers type c) type
                = Some (set_add c (match get dispensers type with
                                   | Some ds => ds | None => [] end))).
  { unfold addDispenser. destruct (get dispensers type); apply get_set_same. }
  assert (All : mem c (getAllDispenserCoords (addDispenser dispensers type c)) = true).
  { apply mem_In. unfold getAllDispenserCoords. apply in_flat_map.
    exists (type, set_add c (match get dispensers type with Some ds => ds | None => [] end)).
    split; [now apply get_In|]. cbn [snd]. apply set_add_In. now right. }
  split; [|split; [|split; [|split; [exact All|split]]]].
  - unfold getDispenserCoordsByType, item. rewrite Got. cbn [of_option].
    eexists. split; [reflexivity|]. intros c'. rewrite set_add_In.
    destruct (get dispensers type) as [ds|].
    + split; [intros [I| ->]; [right; eauto|now left]|].
      intros [->|[l0 [[= <-] I]]]; [now right|now left].
    + split; [intros [[]| ->]; now left|].
      intros [->|[l0 [[=] _]]]. now right.
  - intros N. unfold getDispenserCoordsByType, item, addDispenser.
    destruct (get dispensers type); now rewrite get_set_other.
  - unfold contains, getDispenserCoordsByType, item.
    destruct (get dispensers type'); [discriminate|reflexivity].
  - destruct (dispenser_has_type _ _ All) as [t [rest E]].
    exists t. unfold getDispenserMapValueByCoord. now rewrite E.
  - unfold addDispenser at 1. rewrite Got.
    assert (Again : set_add c (set_add c (match get dispensers type with
                                          | Some ds => ds | None => [] end))
                    = set_add c (match get dispensers type with
                                 | Some ds => ds | None => [] end)).
    { unfold set_add at 1.
      replace (mem c (set_add c _)) with true; [reflexivity|].
      symmetry. apply mem_In, set_add_In. now right. }
    rewrite Again. unfold addDispenser.
    assert (SetSet : forall (m : DispenserMap) k v, set (set m k v) k v = set m k v).
    { induction m as [|[k0 v0] m IH]; intros k v; cbn [set].
      - now rewrite key_eqb_refl.
      - destruct (key_eqb k k0) eqn:E; cbn [set]; rewrite E; [reflexivity|].
        now rewrite IH. }
    destruct (get dispensers type); apply SetSet.
Qed.

(** ** The speed of a role (data/coreData/mapcRole.py) *)

(** [l[i]]: a negative index counts from the end; [IndexError] outside. *)
Definition py_index {A : Type} (l : list A) (i : Z) : Result A :=
  let n := Z.of_nat (List.length l) in
  let j := if i <? 0 then i + n else i in
  if (0 <=? j) && (j <? n) then of_option IndexError (nth_error l (Z.to_nat j))
  else Raise IndexError.

(** [MapcRole.getSpeed] on the list [self.speed]. *)
Definition getSpeed (speed : list Z) (attachedCount : Z) : Result Z :=
  s <- (if Z.of_nat (List.length speed) <=? attachedCount then py_index speed (-1)
        else py_index speed attachedCount) ;;
  Ok (Z.min s 2).

(** [MapcRole.getFreeSpeed] *)
Definition getFreeSpeed (speed : list Z) : Result Z :=
  s <- py_index speed 0 ;;
  Ok (Z.min s 2).

Lemma py_index_in_range {A : Type} (l : list A) (i : Z) (default : A) :
  0 <= i < Z.of_nat (List.length l) -> py_index l i = Ok (nth (Z.to_nat i) l default).
Proof.
  intros B. unfold py_index.
  destruct (Z.ltb_spec i 0); [lia|].
  destruct (Z.leb_spec 0 i); [|lia].
  destruct (Z.ltb_spec i (Z.of_nat (List.length l))); [|lia]. cbn [andb].
  rewrite (nth_error_nth' l default) by lia. reflexivity.
Qed.

Lemma py_index_last {A : Type} (l : list A) (default : A) :
  l <> [] -> py_index l (-1) = Ok (last l default).
Proof.
  intros N. unfold py_index. cbn [Z.ltb Z.compare].
  destruct (exists_last N) as [front [x ->]].
  rewrite last_last, length_app. cbn [List.length].
  destruct (Z.leb_spec 0 (-1 + Z.of_nat (List.length front + 1))); [|lia].
  destruct (Z.ltb_spec (-1 + Z.of_nat (List.length front + 1))
              (Z.of_nat (List.length front + 1))); [|lia].
  cbn [andb].
  replace (Z.to_nat (-1 + Z.of_nat (List.length front + 1))) with (List.length front) by lia.
  rewrite nth_error_app2 by lia. now rewrite Nat.sub_diag.
Qed.

(** X10.  [getSpeed] never returns more than 2: it is the entry of the
    speed list at the number of attached entities, the last entry for a
    number at or beyond the length, capped at 2.  With an empty list it
    raises [IndexError].  [getFreeSpeed] is [getSpeed(0)]. *)
Theorem getSpeed_capped (speed : list Z) (attachedCount : Z) :
  (speed = [] -> getSpeed speed attachedCount = Raise IndexError)
  /\ (speed <> [] -> 0 <= attachedCount ->
      exists s, getSpeed speed attachedCount = Ok s /\ s <= 2
                /\ s = Z.min (nth (Z.to_nat attachedCount) speed (last speed 0)) 2)
  /\ getFreeSpeed speed = getSpeed speed 0.
Proof.
  split; [|split].
  - intros ->. unfold getSpeed, py_index. cbn [List.length Z.of_nat].
    destruct (0 <=? attachedCount); [reflexivity|].
    destruct (attachedCount <? 0);
      match goal with |- context [(0 <=? ?j) && (?j <? 0)] =>
        destruct (Z.leb_spec 0 j); destruct (Z.ltb_spec j 0); try lia; reflexivity
      end.
  - intros N Pos. unfold getSpeed.
    destruct (Z.leb_spec (Z.of_nat (List.length speed)) attachedCount) as [L|L].
    + rewrite (py_index_last speed 0 N). cbn [bind]. eexists. split; [reflexivity|].
      split; [lia|]. now rewrite nth_overflow by lia.
    + rewrite (py_index_in_range speed attachedCount (last speed 0)) by lia.
      cbn [bind]. eexists. split; [reflexivity|]. split; [lia|reflexivity].
  - unfold getFreeSpeed, getSpeed.
    destruct (Z.leb_spec (Z.of_nat (List.length speed)) 0) as [L|L]; [|reflexivity].
    destruct speed; [reflexivity|cbn [List.length] in L; lia].
Qed.

(** ** The priority queue (data/dataStructure/priorityQueue.py) *)

(** Each node has at most the priority of the next one. *)
Fixpoint queueSorted {F : Type} `{PyFloat F} (queue : list (QueueNode F)) : Prop :=
  match queue with
  | a :: rest =>
      match rest with
      | b :: _ => fle (snd a) (snd b) = true
      | [] => True
      end /\ queueSorted rest
  | [] => True
  end.

Lemma queueInsert_position {F : Type} `{PyFloat F} (node : QueueNode F)
    (queue : list (QueueNode F)) :
  exists front back,
    queue = front ++ back
    /\ queueInsert node queue = front ++ node :: back
    /\ Forall (fun q => fle (snd q) (snd node) = true) front
    /\ match back with b :: _ => fle (snd b) (snd node) = false | [] => True end.
Proof.
  induction queue as [|q rest IH]; cbn [queueInsert].
  - exists [], []. repeat split. constructor.
  - destruct (fle (snd q) (snd node)) eqn:E.
    + destruct IH as [front [back [-> [I [Fa B]]]]].
      exists (q :: front), back. cbn [app]. rewrite I.
      repeat split; [constructor; assumption|exact B].
    + exists [], (q :: rest). repeat split; [constructor|exact E].
Qed.

(** X11.  [insert] puts the node behind the nodes from the front whose
    priority is at most its own and before the first node of greater
    priority, so among equal priorities the older node is popped first;
    nothing is lost or reordered.  Where [<=] on the priorities is total
    (no NaN), a sorted queue stays sorted. *)
Theorem queueInsert_keeps_order {F : Type} `{PyFloat F} (node : QueueNode F)
    (queue : list (QueueNode F)) :
  (forall a b : F, fle a b = false -> fle b a = true) ->
  queueSorted queue ->
  queueSorted (queueInsert node queue)
  /\ Permutation (node :: queue) (queueInsert node queue)
  /\ exists front back,
       queue = front ++ back
       /\ queueInsert node queue = front ++ node :: back
       /\ Forall (fun q => fle (snd q) (snd node) = true) front
       /\ match back with b :: _ => fle (snd b) (snd node) = false | [] => True end.
Proof.
  intros Total Sorted_. split; [|split; [|apply queueInsert_position]].
  - induction queue as [|q rest IH]; cbn [queueInsert]; [cbn; tauto|].
    destruct (fle (snd q) (snd node)) eqn:E.
    + destruct Sorted_ as [Hq Hrest]. specialize (IH Hrest).
      cbn [queueSorted]. split; [|exact IH].
      destruct rest as [|b rest']; cbn [queueInsert]; [exact E|].
      destruct (fle (snd b) (snd node)); [exact Hq|exact E].
    + cbn [queueSorted]. split; [now apply Total|]. exact Sorted_.
  - destruct (queueInsert_position node queue) as [front [back [-> [-> _]]]].
    apply Permutation_middle.
Qed.

Lemma real_fle_total (a b : R) : fle a b = false -> fle b a = true.
Proof.
  cbn [fle PyFloat_real]. destruct (Rle_dec a b); [discriminate|].
  destruct (Rle_dec b a); [reflexivity|lra].
Qed.

Lemma queueInsert_keeps_order_witness :
  queueSorted (queueInsert (XY 2 0, 1%R) [(XY 0 0, 0%R); (XY 1 0, 1%R); (XY 3 0, 2%R)])
  /\ Permutation ((XY 2 0, 1%R) :: [(XY 0 0, 0%R); (XY 1 0, 1%R); (XY 3 0, 2%R)])
       (queueInsert (XY 2 0, 1%R) [(XY 0 0, 0%R); (XY 1 0, 1%R); (XY 3 0, 2%R)]).
Proof.
  destruct (queueInsert_keeps_order (XY 2 0, 1%R)
              [(XY 0 0, 0%R); (XY 1 0, 1%R); (XY 3 0, 2%R)] real_fle_total)
    as [S [P _]].
  - cbn [queueSorted snd fle PyFloat_real].
    repeat split; match goal with |- (if ?c then _ else _) = _ => destruct c; [reflexivity|lra] end.
  - split; [exact S|exact P].
Defined.

(** ** The percept completed with the empty cells
       (data/wrapper/dynamicPerceptWrapper.py) *)

(** The body of the loops of [fillWithEmptyThings]. *)
Definition fillCell (d : Dims) (vision simulationStep_ : Z)
    (things_ : dict Coordinate MapValue) (coordinate : Coordinate)
    : dict Coordinate MapValue :=
  if negb (contains things_ coordinate)
     && (manhattanDistance d (origo d) coordinate <=? vision)
  then set things_ coordinate (MkMapValue EMPTY "" simulationStep_)
  else things_.

Definition fillWithEmptyThings (d : Dims) (things_ : dict Coordinate MapValue)
    (vision simulationStep_ : Z) : dict Coordinate MapValue :=
  fold_left
    (fun acc i =>
       fold_left (fun acc' j => fillCell d vision simulationStep_ acc' (Coord d i j false))
         (range ((-1) * vision) (vision + 1)) acc)
    (range ((-1) * vision) (vision + 1)) things_.

Lemma fillCell_get (d : Dims) (vision simulationStep_ : Z)
    (things_ : dict Coordinate MapValue) (coordinate c : Coordinate) :
  get (fillCell d vision simulationStep_ things_ coordinate) c
  = match get things_ c with
    | Some v => Some v
    | None =>
        if key_eqb c coordinate && (manhattanDistance d (origo d) c <=? vision)
        then Some (MkMapValue EMPTY "" simulationStep_) else None
    end.
Proof.
  unfold fillCell, contains.
  destruct (key_eqb_spec c coordinate) as [->|N]; cbn [andb].
  - destruct (get things_ coordinate) as [v|] eqn:G; cbn [negb andb]; [now rewrite G|].
    destruct (manhattanDistance d (origo d) coordinate <=? vision);
      [apply get_set_same|exact G].
  - destruct (negb _ && _); [rewrite (get_set_other things_ coordinate c _ N)|];
      now destruct (get things_ c).
Qed.

Lemma fillCells_get (d : Dims) (vision simulationStep_ : Z) (cells : list Coordinate)
    (c : Coordinate) :
  forall things_ : dict Coordinate MapValue,
  get (fold_left (fillCell d vision simulationStep_) cells things_) c
  = match get things_ c with
    | Some v => Some v
    | None =>
        if mem c cells && (manhattanDistance d (origo d) c <=? vision)
        then Some (MkMapValue EMPTY "" simulationStep_) else None
    end.
Proof.
  induction cells as [|a cells IH]; intros things_; cbn [fold_left mem].
  - now destruct (get things_ c).
  - rewrite IH, fillCell_get. destruct (get things_ c) as [v|]; [reflexivity|].
    destruct (key_eqb c a); cbn [orb andb]; [|reflexivity].
    destruct (manhattanDistance d (origo d) c <=? vision); [|now rewrite andb_false_r].
    reflexivity.
Qed.

Lemma fillCells_NoDup (d : Dims) (vision simulationStep_ : Z) (cells : list Coordinate) :
  forall things_ : dict Coordinate MapValue,
  NoDup (keys things_) ->
  NoDup (keys (fold_left (fillCell d vision simulationStep_) cells things_)).
Proof.
  induction cells as [|a cells IH]; intros things_ ND; cbn [fold_left]; [exact ND|].
  apply IH. unfold fillCell. destruct (negb _ && _); [now apply NoDup_set|exact ND].
Qed.

(** The nested loops visit the cells of the square row by row. *)
Lemma fill_as_one_loop (d : Dims) (vision simulationStep_ : Z) (rows columns : list Z) :
  forall things_ : dict Coordinate MapValue,
  fold_left
    (fun acc i =>
       fold_left (fun acc' j => fillCell d vision simulationStep_ acc' (Coord d i j false))
         columns acc)
    rows things_
  = fold_left (fillCell d vision simulationStep_)
      (flat_map (fun i => List.map (fun j => XY i j) columns) rows) things_.
Proof.
  induction rows as [|i rows IH]; intros things_; cbn [fold_left flat_map]; [reflexivity|].
  rewrite fold_left_app, IH. f_equal.
  clear IH. revert things_. induction columns as [|j columns IHc]; intros things_;
    cbn [fold_left List.map]; [reflexivity|]. apply IHc.
Qed.

Lemma In_square (a b : Z) (c : Coordinate) :
  In c (flat_map (fun i => List.map (fun j => XY i j) (range a b)) (range a b))
  <-> a <= cx c < b /\ a <= cy c < b.
Proof.
  rewrite in_flat_map. split.
  - intros [i [Hi Hc]]. apply in_map_iff in Hc. destruct Hc as [j [<- Hj]].
    apply In_range in Hi. apply In_range in Hj. cbn [cx cy]. lia.
  - intros [Hx Hy]. exists (cx c). split; [now apply In_range|].
    apply in_map_iff. exists (cy c). split; [now destruct c|now apply In_range].
Qed.

(** X12.  Where the dimensions that are set are positive: after
    [fillWithEmptyThings] a cell of the percept keeps its
    entry, and a cell without one gets an [EMPTY] entry of the current
    step exactly when its coordinates lie within the square of the vision
    and its Manhattan distance from the origin is at most the vision; the
    keys stay distinct. *)
Theorem fillWithEmptyThings_covers (d : Dims) (things_ : dict Coordinate MapValue)
    (vision simulationStep_ : Z) (c : Coordinate) :
  dims_ok d ->
  get (fillWithEmptyThings d things_ vision simulationStep_) c
  = match get things_ c with
    | Some v => Some v
    | None =>
        if (Z.abs (cx c) <=? vision) && (Z.abs (cy c) <=? vision)
           && (manhattanDistance d (origo d) c <=? vision)
        then Some (MkMapValue EMPTY "" simulationStep_) else None
    end
  /\ (NoDup (keys things_) ->
      NoDup (keys (fillWithEmptyThings d things_ vision simulationStep_))).
Proof.
  intros _. unfold fillWithEmptyThings. rewrite fill_as_one_loop. split.
  - rewrite fillCells_get. destruct (get things_ c); [reflexivity|].
    match goal with |- (if mem c ?g && _ then _ else _) = _ =>
      assert (M : mem c g = (Z.abs (cx c) <=? vision) && (Z.abs (cy c) <=? vision))
    end.
    { match goal with |- mem c ?g = _ => destruct (mem c g) eqn:M end.
      - apply mem_In, In_square in M.
        destruct (Z.leb_spec (Z.abs (cx c)) vision), (Z.leb_spec (Z.abs (cy c)) vision);
          try reflexivity; lia.
      - apply mem_false_In in M. rewrite In_square in M.
        destruct (Z.leb_spec (Z.abs (cx c)) vision), (Z.leb_spec (Z.abs (cy c)) vision);
          try reflexivity. exfalso. apply M. lia. }
    now rewrite M.
  - apply fillCells_NoDup.
Qed.

(** ** The map after a dimension is discovered (data/map/dynamicMap.py) *)

(** One iteration of the loops of [updateCoordinatesByBoundary] over the
    cells and over the markers: the entry goes to the normalized copy of
    its coordinate, where the newer step wins. *)
Definition rebaseEntry (d : Dims) (acc : dict Coordinate MapValue)
    (entry : Coordinate * MapValue) : dict Coordinate MapValue :=
  let newCoord := copy d (fst entry) true in
  match get acc newCoord with
  | None => set acc newCoord (snd entry)
  | Some old =>
      if simulationStep old <? simulationStep (snd entry)
      then set acc newCoord (snd entry) else acc
  end.

Definition updateCoordinatesByBoundary (d : Dims) (self : DynamicMap) : DynamicMap :=
  {| mapId := mapId self; markerPurgeInterval := markerPurgeInterval self;
     unknownCoordSearchMaxIter := unknownCoordSearchMaxIter self;
     agentCoordinates :=
       List.map (fun entry => (fst entry, normalize d (snd entry))) (agentCoordinates self);
     agentStartingCoordinates :=
       List.map (fun entry => (fst entry, normalize d (snd entry)))
         (agentStartingCoordinates self);
     agentCoordReservations :=
       List.map (fun entry => (fst entry, List.map (normalize d) (snd entry)))
         (agentCoordReservations self);
     store := fold_left (rebaseEntry d) (store self) [];
     markers := fold_left (rebaseEntry d) (markers self) [];
     dispenserMap :=
       fold_left
         (fun acc entry =>
            fold_left (fun acc' coord => addDispenser acc' (fst entry) (copy d coord true))
              (snd entry) acc)
         (dispenserMap self) [];
     roleZones := set_update [] (List.map (fun coord => copy d coord true) (roleZones self));
     goalZones := set_update [] (List.map (fun coord => copy d coord true) (goalZones self))
  |}.

Lemma copy_normalize (d : Dims) (c : Coordinate) : copy d c true = normalize d c.
Proof. unfold copy, Coord. now destruct c. Qed.

Lemma copy_canonical (d : Dims) (c : Coordinate) : canonical d (copy d c true).
Proof. rewrite copy_normalize. apply normalize_idempotent. Qed.

Lemma rebaseEntry_same (d : Dims) (acc : dict Coordinate MapValue) (k : Coordinate)
    (v : MapValue) :
  get (rebaseEntry d acc (k, v)) (normalize d k) = Some (newer (get acc (normalize d k)) v).
Proof.
  unfold rebaseEntry, newer; cbn [fst snd]. rewrite copy_normalize.
  destruct (get acc (normalize d k)) as [old|] eqn:G.
  - destruct (simulationStep old <? simulationStep v); [apply get_set_same | exact G].
  - apply get_set_same.
Qed.

Lemma rebaseEntry_other (d : Dims) (acc : dict Coordinate MapValue) (k s : Coordinate)
    (v : MapValue) :
  s <> normalize d k -> get (rebaseEntry d acc (k, v)) s = get acc s.
Proof.
  intros N. unfold rebaseEntry; cbn [fst snd]. rewrite copy_normalize.
  destruct (get acc (normalize d k)) as [old|].
  - destruct (simulationStep old <? simulationStep v);
      [now apply get_set_other | reflexivity].
  - now apply get_set_other.
Qed.

Lemma rebaseEntry_keys (d : Dims) (acc : dict Coordinate MapValue)
    (entry : Coordinate * MapValue) :
  NoDup (keys acc) -> Forall (canonical d) (keys acc) ->
  NoDup (keys (rebaseEntry d acc entry))
  /\ Forall (canonical d) (keys (rebaseEntry d acc entry)).
Proof.
  intros ND Ca. unfold rebaseEntry.
  assert (S : forall v, NoDup (keys (set acc (copy d (fst entry) true) v))
                        /\ Forall (canonical d) (keys (set acc (copy d (fst entry) true) v))).
  { intros v. split; [now apply NoDup_set|]. rewrite keys_set.
    destruct (mem _ _); [exact Ca|]. apply Forall_app. split; [exact Ca|].
    constructor; [apply copy_canonical|constructor]. }
  destruct (get acc (copy d (fst entry) true)) as [old|]; [|apply S].
  destruct (simulationStep old <? simulationStep (snd entry)); [apply S|now split].
Qed.

(** What the loop leaves at a cell: an entry that was there or came from a
    coordinate of the cell, at least as new as every one of these. *)
Lemma rebase_fold (d : Dims) (entries : dict Coordinate MapValue) :
  forall acc : dict Coordinate MapValue,
  NoDup (keys acc) -> Forall (canonical d) (keys acc) ->
  let r := fold_left (rebaseEntry d) entries acc in
  NoDup (keys r) /\ Forall (canonical d) (keys r)
  /\ (forall s v0, get acc s = Some v0 ->
        exists v', get r s = Some v' /\ simulationStep v0 <= simulationStep v')
  /\ (forall k v, In (k, v) entries ->
        exists v', get r (normalize d k) = Some v' /\ simulationStep v <= simulationStep v')
  /\ (forall s v', get r s = Some v' ->
        get acc s = Some v' \/ exists k, In (k, v') entries /\ normalize d k = s).
Proof.
  induction entries as [|[k v] entries IH]; intros acc ND Ca; cbn [fold_left].
  - repeat split; try assumption.
    + intros s v0 G. exists v0. split; [exact G|lia].
    + intros k v [].
    + intros s v' G. now left.
  - destruct (rebaseEntry_keys d acc (k, v) ND Ca) as [ND1 Ca1].
    destruct (IH (rebaseEntry d acc (k, v)) ND1 Ca1) as [NDr [Car [Old [New From]]]].
    assert (Mono : forall s v0, get acc s = Some v0 ->
              exists v1, get (rebaseEntry d acc (k, v)) s = Some v1
                         /\ simulationStep v0 <= simulationStep v1).
    { intros s v0 G. destruct (key_eqb_spec s (normalize d k)) as [->|N].
      - rewrite rebaseEntry_same, G. eexists. split; [reflexivity|].
        cbn [newer]. destruct (Z.ltb_spec (simulationStep v0) (simulationStep v)); lia.
      - rewrite (rebaseEntry_other d acc k s v N). exists v0. split; [exact G|lia]. }
    repeat split; try assumption.
    + intros s v0 G. destruct (Mono s v0 G) as [v1 [G1 L1]].
      destruct (Old s v1 G1) as [v' [G' L']]. exists v'. split; [exact G'|lia].
    + intros k1 v1 [[= <- <-]|I]; [|now apply New].
      pose proof (rebaseEntry_same d acc k v) as G1.
      destruct (Old _ _ G1) as [v' [G' L']]. exists v'. split; [exact G'|].
      unfold newer in L'. destruct (get acc (normalize d k)) as [o|]; [|exact L'].
      destruct (Z.ltb_spec (simulationStep o) (simulationStep v)); lia.
    + intros s v' G. destruct (From s v' G) as [G1|[k1 [I E]]];
        [|right; exists k1; split; [now right|exact E]].
      destruct (key_eqb_spec s (normalize d k)) as [->|N].
      * rewrite rebaseEntry_same in G1. injection G1 as <-. unfold newer.
        destruct (get acc (normalize d k)) as [o|] eqn:Go;
          [|right; exists k; split; [now left|reflexivity]].
        destruct (simulationStep o <? simulationStep v);
          [right; exists k; split; [now left|reflexivity]|now left].
      * rewrite (rebaseEntry_other d acc k s v N) in G1. now left.
Qed.

Lemma set_add_NoDup (c : Coordinate) (s : list Coordinate) :
  NoDup s -> NoDup (set_add c s).
Proof.
  intros ND. unfold set_add. destruct (mem c s) eqn:M; [exact ND|].
  apply mem_false_In in M. apply NoDup_app; [exact ND|repeat constructor; cbn; tauto|].
  intros x Hx [<-|[]]. contradiction.
Qed.

Lemma set_update_spec (l : list Coordinate) :
  forall s : list Coordinate,
  NoDup s ->
  NoDup (set_update s l) /\ forall c, In c (set_update s l) <-> In c s \/ In c l.
Proof.
  unfold set_update. induction l as [|a l IH]; intros s ND; cbn [fold_left].
  - split; [exact ND|]. intros c. cbn. tauto.
  - destruct (IH (set_add a s) (set_add_NoDup a s ND)) as [ND' I']. split; [exact ND'|].
    intros c. rewrite I', set_add_In. cbn [In]. intuition congruence.
Qed.

Lemma holds_addDispensers_map (f : Coordinate -> Coordinate) (type : string)
    (coordList : list Coordinate) :
  forall (dm : DispenserMap) (type' : string) (s : Coordinate),
  NoDup (keys dm) ->
  let dm' := fold_left (fun acc' coord => addDispenser acc' type (f coord)) coordList dm in
  NoDup (keys dm')
  /\ (holdsDispenser dm' type' s
      <-> holdsDispenser dm type' s \/ (type' = type /\ exists c, In c coordList /\ f c = s)).
Proof.
  induction coordList as [|c0 l IH]; intros dm type' s ND; cbn [fold_left].
  - split; [exact ND|]. split; [tauto|]. intros [Hd|[_ [c [[] _]]]]. exact Hd.
  - destruct (IH (addDispenser dm type (f c0)) type' s (addDispenser_NoDup dm type (f c0) ND))
      as [ND' I']. split; [exact ND'|].
    rewrite I', (holds_addDispenser dm type (f c0) type' s ND). cbn [In]. split.
    + intros [[Hd|[-> ->]]|[-> [c [I E]]]]; [now left| |]; right; split; eauto.
    + intros [Hd|[-> [c [[<-|I] E]]]]; [now left; left|left; right; now split|].
      right. split; eauto.
Qed.

Lemma rebase_dispensers (d : Dims) (entries : DispenserMap) :
  forall (acc : DispenserMap) (type : string) (s : Coordinate),
  NoDup (keys acc) ->
  let r := fold_left
             (fun acc0 entry =>
                fold_left (fun acc' coord => addDispenser acc' (fst entry) (copy d coord true))
                  (snd entry) acc0) entries acc in
  NoDup (keys r)
  /\ (holdsDispenser r type s
      <-> holdsDispenser acc type s
          \/ exists ds c, In (type, ds) entries /\ In c ds /\ normalize d c = s).
Proof.
  induction entries as [|[t ds] entries IH]; intros acc type s ND; cbn [fold_left fst snd].
  - split; [exact ND|]. split; [tauto|]. intros [Hd|[ds [c [[] _]]]]. exact Hd.
  - destruct (holds_addDispensers_map (fun coord => copy d coord true) t ds acc type s ND)
      as [ND1 I1].
    destruct (IH _ type s ND1) as [ND' I']. split; [exact ND'|].
    rewrite I', I1. split.
    + intros [[Hd|[-> [c [I E]]]]|[ds' [c [I [Ic E]]]]]; [now left| |].
      * right. exists ds, c. rewrite <- copy_normalize. repeat split; [now left|exact I|exact E].
      * right. exists ds', c. repeat split; [now right|exact Ic|exact E].
    + intros [Hd|[ds' [c [[[= <- <-]|I] [Ic E]]]]]; [now left; left| |].
      * left. right. split; [reflexivity|]. exists c. rewrite copy_normalize. now split.
      * right. exists ds', c. now repeat split.
Qed.

Lemma In_all_dispensers (dm : DispenserMap) (c : Coordinate) :
  In c (getAllDispenserCoords dm) <-> exists type, holdsDispenser dm type c.
Proof.
  unfold getAllDispenserCoords, holdsDispenser. rewrite in_flat_map. split.
  - intros [[t ds] [I Hc]]. exists t, ds. now split.
  - intros [t [ds [I Hc]]]. exists (t, ds). now split.
Qed.

(** The index [new] is the index [old] brought to normalized coordinates. *)
Definition rebased (d : Dims) (old new : dict Coordinate MapValue) : Prop :=
  (forall k v, In (k, v) old ->
     exists v', get new (normalize d k) = Some v' /\ simulationStep v <= simulationStep v')
  /\ (forall s v', get new s = Some v' -> exists k, In (k, v') old /\ normalize d k = s).

(** X13.  Where the dimensions that are set are positive,
    [updateCoordinatesByBoundary] leaves a well-formed map: the
    keys of the cells and of the markers and the dispenser coordinates are
    normalized and distinct.  Every cell and marker entry kept comes from
    a coordinate of its cell and is at least as new as every entry
    recorded for the cell; the dispensers, the zones and the agents are
    those recorded, at normalized coordinates. *)
Theorem updateCoordinatesByBoundary_normalizes (d : Dims) (self : DynamicMap) :
  dims_ok d ->
  let self' := updateCoordinatesByBoundary d self in
  wellFormed d self'
  /\ rebased d (store self) (store self')
  /\ rebased d (markers self) (markers self')
  /\ (forall type s,
        holdsDispenser (dispenserMap self') type s
        <-> exists ds c, In (type, ds) (dispenserMap self) /\ In c ds /\ normalize d c = s)
  /\ (NoDup (goalZones self')
      /\ forall s, In s (goalZones self')
                   <-> exists c, In c (goalZones self) /\ normalize d c = s)
  /\ (NoDup (roleZones self')
      /\ forall s, In s (roleZones self')
                   <-> exists c, In c (roleZones self) /\ normalize d c = s)
  /\ (forall agentId,
        get (agentCoordinates self') agentId
        = option_map (normalize d) (get (agentCoordinates self) agentId)).
Proof.
  intros _ self'.
  destruct (rebase_fold d (store self) [] (NoDup_nil _) (Forall_nil _))
    as [NDs [Cs [_ [News Froms]]]].
  destruct (rebase_fold d (markers self) [] (NoDup_nil _) (Forall_nil _))
    as [NDm [Cm [_ [Newm Fromm]]]].
  assert (Disp : forall type s,
            holdsDispenser (dispenserMap self') type s
            <-> exists ds c, In (type, ds) (dispenserMap self) /\ In c ds
                             /\ normalize d c = s).
  { intros type s.
    destruct (rebase_dispensers d (dispenserMap self) [] type s (NoDup_nil _)) as [_ I].
    cbv zeta in I. unfold self'. cbn [updateCoordinatesByBoundary dispenserMap].
    rewrite I. split; [|tauto]. intros [[ds [[] _]]|Hd]. exact Hd. }
  assert (Zones : forall zones,
            NoDup (set_update [] (List.map (fun coord => copy d coord true) zones))
            /\ forall s, In s (set_update [] (List.map (fun coord => copy d coord true) zones))
                         <-> exists c, In c zones /\ normalize d c = s).
  { intros zones.
    destruct (set_update_spec (List.map (fun coord => copy d coord true) zones) []
                (NoDup_nil _)) as [ND I].
    split; [exact ND|]. intros s. rewrite I, in_map_iff. cbn [In]. split.
    - intros [[]|[c [E Hc]]]. exists c. rewrite <- copy_normalize. now split.
    - intros [c [Hc E]]. right. exists c. rewrite copy_normalize. now split. }
  split; [|split; [|split; [|split; [exact Disp|split; [apply Zones|split; [apply Zones|]]]]]].
  - unfold wellFormed, self'. cbn [updateCoordinatesByBoundary store markers dispenserMap].
    repeat split; try assumption.
    + now destruct (rebase_dispensers d (dispenserMap self) [] EmptyString (XY 0 0)
                      (NoDup_nil _)) as [ND _].
    + apply Forall_forall. intros s Hs. apply In_all_dispensers in Hs.
      destruct Hs as [type Hs]. apply Disp in Hs. destruct Hs as [ds [c [_ [_ <-]]]].
      apply normalize_idempotent.
  - split.
    + intros k v I. destruct (News k v I) as [v' [G L]]. exists v'. now split.
    + intros s v' G. destruct (Froms s v' G) as [[=]|Hk]. exact Hk.
  - split.
    + intros k v I. destruct (Newm k v I) as [v' [G L]]. exists v'. now split.
    + intros s v' G. destruct (Fromm s v' G) as [[=]|Hk]. exact Hk.
  - intros agentId. unfold self'. cbn [updateCoordinatesByBoundary agentCoordinates].
    induction (agentCoordinates self) as [|[a c] l IH]; cbn [List.map get fst snd];
      [reflexivity|].
    destruct (key_eqb agentId a); [reflexivity|exact IH].
Qed.

Lemma updateCoordinatesByBoundary_normalizes_witness :
  let d := {| maxWidth := Some 10; maxHeight := None |} in
  let self :=
    withContents (newDynamicMap no_dims 1 "agentA" 10 60)
      [(XY 12 0, MkMapValue OBSTACLE "" 3); (XY 2 0, MkMapValue EMPTY "" 7);
       (XY (-8) 0, MkMapValue BLOCK "b0" 7)] [] [] in
  store (updateCoordinatesByBoundary d self) = [(XY 2 0, MkMapValue EMPTY "" 7)]
  /\ wellFormed d (updateCoordinatesByBoundary d self).
Proof.
  intros d self. split; [reflexivity|].
  destruct (updateCoordinatesByBoundary_normalizes d self) as [W _];
    [split; simpl; [lia|exact I]|exact W].
Defined.

Lemma fillWithEmptyThings_covers_witness :
  let things_ := [(XY 0 0, MkMapValue AGENT "A" 4); (XY 1 0, MkMapValue OBSTACLE "" 4)] in
  get (fillWithEmptyThings no_dims things_ 1 4) (XY 0 1) = Some (MkMapValue EMPTY "" 4)
  /\ get (fillWithEmptyThings no_dims things_ 1 4) (XY 1 0) = Some (MkMapValue OBSTACLE "" 4)
  /\ get (fillWithEmptyThings no_dims things_ 1 4) (XY 1 1) = None.
Proof.
  intros things_.
  destruct (fillWithEmptyThings_covers no_dims things_ 1 4 (XY 0 1)) as [G1 _];
    [split; exact I|].
  destruct (fillWithEmptyThings_covers no_dims things_ 1 4 (XY 1 1)) as [G2 _];
    [split; exact I|].
  split; [rewrite G1; reflexivity|]. split; [reflexivity|rewrite G2; reflexivity].
Defined.

(** ** Conflicting reservations (data/map/dynamicMap.py) *)

(** [any(set(a).intersection(b))]: the two lists share a coordinate. *)
Definition intersects (a b : list Coordinate) : bool :=
  existsb (fun c => mem c b) a.

(** The body of the inner loop of [getConflictingCoordinateReservations]. *)
Definition conflictStep (agent : string * list Coordinate)
    (acc : dict string (list string)) (other : string * list Coordinate)
    : dict string (list string) :=
  if key_eqb (fst agent) (fst other) then acc
  else if intersects (snd agent) (snd other) then
    match get acc (fst agent) with
    | None => set acc (fst agent) [fst other]
    | Some l => set acc (fst agent) (l ++ [fst other])
    end
  else acc.

Definition getConflictingCoordinateReservations (self : DynamicMap)
    : dict string (list string) :=
  fold_left
    (fun acc agent => fold_left (conflictStep agent) (agentCoordReservations self) acc)
    (agentCoordReservations self) [].

(** The agents whose claims meet the claims of [agent], in dictionary
    order. *)
Definition conflictingWith (agent : string * list Coordinate)
    (others : dict string (list Coordinate)) : list string :=
  List.map fst
    (filter (fun other => negb (key_eqb (fst agent) (fst other))
                          && intersects (snd agent) (snd other)) others).

Lemma set_set {K V : Type} `{Key K} (m : dict K V) (k : K) (v1 v2 : V) :
  set (set m k v1) k v2 = set m k v2.
Proof.
  induction m as [|[k0 v0] m IH]; cbn [set].
  - now rewrite key_eqb_refl.
  - destruct (key_eqb k k0) eqn:E; cbn [set]; rewrite E; [reflexivity|now rewrite IH].
Qed.

Lemma intersects_spec (a b : list Coordinate) :
  intersects a b = true <-> exists c, In c a /\ In c b.
Proof.
  unfold intersects. rewrite existsb_exists. split; intros [c [Ha Hb]]; exists c.
  - split; [exact Ha|now apply mem_In].
  - split; [exact Ha|now apply mem_In].
Qed.

(** The inner loop for one agent. *)
Lemma conflict_inner (agent : string * list Coordinate)
    (others : dict string (list Coordinate)) :
  forall acc : dict string (list string),
  fold_left (conflictStep agent) others acc
  = match conflictingWith agent others with
    | [] => acc
    | names =>
        set acc (fst agent)
          (match get acc (fst agent) with Some l => l | None => [] end ++ names)
    end.
Proof.
  unfold conflictingWith.
  induction others as [|other others IH]; intros acc; cbn [fold_left filter List.map];
    [reflexivity|].
  destruct (key_eqb (fst agent) (fst other)) eqn:K; cbn [negb andb].
  - assert (S : conflictStep agent acc other = acc)
      by (unfold conflictStep; now rewrite K).
    rewrite S. apply IH.
  - destruct (intersects (snd agent) (snd other)) eqn:I.
    + assert (S : conflictStep agent acc other
                  = set acc (fst agent)
                      (match get acc (fst agent) with Some l => l | None => [] end
                       ++ [fst other])).
      { unfold conflictStep. rewrite K, I. now destruct (get acc (fst agent)). }
      rewrite S, IH, get_set_same. cbn [List.map].
      destruct (List.map fst (filter _ others)) as [|n rest]; [reflexivity|].
      rewrite set_set, <- app_assoc. reflexivity.
    + assert (S : conflictStep agent acc other = acc)
        by (unfold conflictStep; now rewrite K, I).
      rewrite S. apply IH.
Qed.

(** The outer loop over a part of the agents. *)
Lemma conflict_outer (others : dict string (list Coordinate))
    (agents : dict string (list Coordinate)) (a : string) :
  forall acc : dict string (list string),
  NoDup (keys agents) -> (forall x, In x (keys agents) -> get acc x = None) ->
  get (fold_left (fun acc0 agent => fold_left (conflictStep agent) others acc0) agents acc) a
  = match get agents a with
    | Some reservedCoords =>
        match conflictingWith (a, reservedCoords) others with
        | [] => None
        | names => Some names
        end
    | None => get acc a
    end.
Proof.
  induction agents as [|[x lx] agents IH]; intros acc ND Fresh; cbn [fold_left get];
    [reflexivity|].
  inversion ND as [|? ? Nx ND']; subst.
  assert (Step : forall y, get (fold_left (conflictStep (x, lx)) others acc) y
                 = if key_eqb y x
                   then match conflictingWith (x, lx) others with
                        | [] => None
                        | names => Some names
                        end
                   else get acc y).
  { intros y. rewrite conflict_inner. cbn [fst].
    rewrite (Fresh x (or_introl eq_refl)). cbn [app].
    destruct (key_eqb_spec y x) as [->|N].
    - destruct (conflictingWith (x, lx) others);
        [apply Fresh; now left|apply get_set_same].
    - destruct (conflictingWith (x, lx) others); [reflexivity|now apply get_set_other]. }
  rewrite IH; [|exact ND'|].
  - destruct (key_eqb_spec a x) as [->|N].
    + assert (G : get agents x = None) by now apply get_None_keys.
      rewrite G, Step, key_eqb_refl. reflexivity.
    + destruct (get agents a); [reflexivity|].
      rewrite Step. now rewrite (key_eqb_neq a x N).
  - intros y Hy. rewrite Step.
    destruct (key_eqb_spec y x) as [->|N]; [contradiction|].
    apply Fresh. now right.
Qed.

Lemma conflict_entry (self : DynamicMap) (a b : string) :
  NoDup (keys (agentCoordReservations self)) ->
  ((exists l, get (getConflictingCoordinateReservations self) a = Some l /\ In b l)
   <-> a <> b
       /\ exists la lb,
            get (agentCoordReservations self) a = Some la
            /\ get (agentCoordReservations self) b = Some lb
            /\ exists c, In c la /\ In c lb).
Proof.
  intros ND. unfold getConflictingCoordinateReservations.
  rewrite (conflict_outer (agentCoordReservations self) (agentCoordReservations self) a []
             ND (fun x _ => eq_refl)).
  assert (Names : forall la,
            In b (conflictingWith (a, la) (agentCoordReservations self))
            <-> a <> b /\ exists lb, get (agentCoordReservations self) b = Some lb
                                     /\ exists c, In c la /\ In c lb).
  { intros la. unfold conflictingWith. rewrite in_map_iff. split.
    - intros [[y lb] [E I]]. cbn [fst] in E. subst y. apply filter_In in I.
      destruct I as [I C]. cbn [fst snd] in C. apply andb_true_iff in C.
      destruct C as [N X]. apply intersects_spec in X.
      destruct (key_eqb_spec a b) as [|Nab]; [discriminate|].
      split; [exact Nab|]. exists lb. split; [now apply In_get|exact X].
    - intros [Nab [lb [G X]]]. exists (b, lb). split; [reflexivity|].
      apply filter_In. split; [now apply get_In|]. cbn [fst snd].
      rewrite (key_eqb_neq a b Nab). cbn [negb andb]. now apply intersects_spec. }
  destruct (get (agentCoordReservations self) a) as [la|] eqn:Ga.
  - split.
    + intros [l [G I]].
      destruct (conflictingWith (a, la) (agentCoordReservations self)) as [|n names] eqn:E;
        [discriminate|]. injection G as <-. rewrite <- E in I. apply Names in I.
      destruct I as [Nab [lb [Gb X]]]. split; [exact Nab|]. exists la, lb. now repeat split.
    + intros [Nab [la' [lb [[= <-] [Gb X]]]]].
      assert (I : In b (conflictingWith (a, la) (agentCoordReservations self)))
        by (apply Names; split; [exact Nab|]; exists lb; now split).
      destruct (conflictingWith (a, la) (agentCoordReservations self)) as [|n names];
        [destruct I|]. eexists. split; [reflexivity|exact I].
  - cbn [get]. split; [intros [l [[=] _]]|intros [_ [la [lb [[=] _]]]]].
Qed.

(** X14.  For reservations held under distinct agent ids,
    [getConflictingCoordinateReservations] lists agent [b] for agent [a]
    exactly when the two are different agents whose reserved coordinates
    share a coordinate; the relation is symmetric, and no agent is listed
    with an empty list. *)
Theorem conflicting_reservations (self : DynamicMap) (a b : string) :
  NoDup (keys (agentCoordReservations self)) ->
  let conflicts := getConflictingCoordinateReservations self in
  ((exists l, get conflicts a = Some l /\ In b l)
   <-> a <> b
       /\ exists la lb,
            get (agentCoordReservations self) a = Some la
            /\ get (agentCoordReservations self) b = Some lb
            /\ exists c, In c la /\ In c lb)
  /\ ((exists l, get conflicts a = Some l /\ In b l)
      <-> (exists l, get conflicts b = Some l /\ In a l))
  /\ get conflicts a <> Some [].
Proof.
  intros ND conflicts. split; [now apply conflict_entry|]. split.
  - unfold conflicts. rewrite (conflict_entry self a b ND), (conflict_entry self b a ND).
    split; intros [N [l1 [l2 [G1 [G2 [c [I1 I2]]]]]]];
      (split; [congruence|]); exists l2, l1; repeat split; try assumption; now exists c.
  - unfold conflicts, getConflictingCoordinateReservations.
    rewrite (conflict_outer (agentCoordReservations self) (agentCoordReservations self) a []
               ND (fun x _ => eq_refl)).
    destruct (get (agentCoordReservations self) a) as [la|]; [|discriminate].
    destruct (conflictingWith (a, la) (agentCoordReservations self)); discriminate.
Qed.

Lemma conflicting_reservations_witness :
  let self :=
    setReservations (newDynamicMap no_dims 1 "agentA" 10 60)
      [("agentA"%string, [XY 0 0; XY 1 0]); ("agentB"%string, [XY 1 0; XY 2 0]);
       ("agentC"%string, [XY 5 5])] in
  getConflictingCoordinateReservations self
  = [("agentA"%string, ["agentB"%string]); ("agentB"%string, ["agentA"%string])]
  /\ exists l, get (getConflictingCoordinateReservations self) "agentB"%string = Some l
               /\ In "agentA"%string l.
Proof.
  intros self. split; [reflexivity|].
  destruct (conflicting_reservations self "agentA"%string "agentB"%string) as [_ [S _]].
  - cbn. repeat constructor; cbn; intuition discriminate.
  - apply S. exists ["agentB"%string]. split; [reflexivity|now left].
Defined.

(** ** The explored map (data/map/dynamicMap.py) *)

(** [Coordinate.dimensionsCalculated], as the one assignment that can
    make it [True] computes it from the dimensions
    (agent/server/intentionGenerator.py, [checkAgentIdentifications]). *)
Definition dimensionsCalculated (d : Dims) : bool :=
  match maxHeight d, maxWidth d with
  | Some _, Some _ => true
  | _, _ => false
  end.

(** [isMapExplored]; the product is evaluated only behind the flag. *)
Definition isMapExplored (d : Dims) (self : DynamicMap) : bool :=
  dimensionsCalculated d
  && match maxWidth d, maxHeight d with
     | Some w, Some h => Z.of_nat (List.length (keys (store self))) =? w * h
     | _, _ => false
     end.

(** The cells of a [w] x [h] grid. *)
Definition gridCells (w h : Z) : list Coordinate :=
  flat_map (fun i => List.map (fun j => XY i j) (range 0 h)) (range 0 w).

Lemma In_gridCells (w h : Z) (c : Coordinate) :
  In c (gridCells w h) <-> 0 <= cx c < w /\ 0 <= cy c < h.
Proof.
  unfold gridCells. rewrite in_flat_map. split.
  - intros [i [Hi Hc]]. apply in_map_iff in Hc. destruct Hc as [j [<- Hj]].
    apply In_range in Hi. apply In_range in Hj. cbn [cx cy]. lia.
  - intros [Hx Hy]. exists (cx c). split; [now apply In_range|].
    apply in_map_iff. exists (cy c). split; [now destruct c|now apply In_range].
Qed.

Lemma gridCells_length (w h : Z) :
  0 <= w -> 0 <= h -> Z.of_nat (List.length (gridCells w h)) = w * h.
Proof.
  intros Hw Hh. unfold gridCells.
  assert (L : forall rows : list Z,
            List.length (flat_map (fun i => List.map (fun j => XY i j) (range 0 h)) rows)
            = (List.length rows * Z.to_nat h)%nat).
  { induction rows as [|i rows IH]; cbn [flat_map List.length]; [reflexivity|].
    rewrite length_app, length_map, range_length, IH. cbn [Nat.mul].
    replace (h - 0) with h by lia. lia. }
  rewrite L, range_length. replace (w - 0) with w by lia. nia.
Qed.

(** X15.  When [isMapExplored] answers [True] for a map whose cell keys
    are distinct and normalized (as [updateCoordinatesByBoundary] leaves
    them), with positive dimensions, then every cell of the grid is
    recorded: the count of the keys can only match the area when no cell
    is missing. *)
Theorem explored_map_is_complete (d : Dims) (self : DynamicMap) (c : Coordinate) :
  dims_ok d ->
  NoDup (keys (store self)) -> Forall (canonical d) (keys (store self)) ->
  isMapExplored d self = true ->
  exists v, get (store self) (normalize d c) = Some v.
Proof.
  intros [Pw Ph] ND Ca E. unfold isMapExplored, dimensionsCalculated in E.
  destruct (maxWidth d) as [w|] eqn:Ew, (maxHeight d) as [h|] eqn:Eh;
    cbn [andb] in E; try discriminate.
  cbn [dim_pos] in Pw, Ph. apply Z.eqb_eq in E.
  assert (Inc : incl (keys (store self)) (gridCells w h)).
  { intros k Hk. apply In_gridCells.
    rewrite Forall_forall in Ca. specialize (Ca k Hk).
    unfold canonical, normalize in Ca. rewrite Ew, Eh in Ca.
    destruct k as [x y]. cbn [cx cy] in *. injection Ca as Cx Cy.
    pose proof (Z.mod_pos_bound x w Pw). pose proof (Z.mod_pos_bound y h Ph). lia. }
  assert (Len : (List.length (gridCells w h) <= List.length (keys (store self)))%nat).
  { pose proof (gridCells_length w h ltac:(lia) ltac:(lia)). lia. }
  pose proof (NoDup_length_incl ND Len Inc) as Full.
  assert (I : In (normalize d c) (keys (store self))).
  { apply Full, In_gridCells. unfold normalize. rewrite Ew, Eh. cbn [cx cy].
    pose proof (Z.mod_pos_bound (cx c) w Pw). pose proof (Z.mod_pos_bound (cy c) h Ph).
    lia. }
  destruct (get (store self) (normalize d c)) as [v|] eqn:G; [now exists v|].
  apply get_None_keys in G. contradiction.
Qed.

Lemma explored_map_is_complete_witness :
  let d := {| maxWidth := Some 2; maxHeight := Some 1 |} in
  let self :=
    withContents (newDynamicMap d 1 "agentA" 10 60)
      [(XY 0 0, MkMapValue AGENT "A" 3); (XY 1 0, MkMapValue EMPTY "" 3)] [] [] in
  isMapExplored d self = true
  /\ exists v, get (store self) (normalize d (XY 7 4)) = Some v.
Proof.
  intros d self. split; [reflexivity|].
  apply (explored_map_is_complete d self (XY 7 4)).
  - split; simpl; lia.
  - cbn. repeat constructor; cbn; intuition discriminate.
  - repeat constructor.
  - reflexivity.
Defined.

(** ** The closest role zone (data/map/dynamicMap.py) *)

Lemma filter_result_spec {A : Type} (p : A -> Result bool) (l : list A) :
  (forall a, exists b, p a = Ok b) ->
  exists l', filter_result p l = Ok l'
             /\ forall x, In x l' <-> In x l /\ p x = Ok true.
Proof.
  intros Hp. induction l as [|a l [l' [E I]]]; cbn [filter_result].
  - exists []. split; [reflexivity|]. cbn. tauto.
  - destruct (Hp a) as [b Eb]. rewrite Eb. cbn [bind]. rewrite E. cbn [bind].
    eexists. split; [reflexivity|]. intros x. destruct b; cbn [In]; rewrite I.
    + split; [intros [<-|[Hx Px]]; auto|intros [[<-|Hx] Px]; auto].
    + split; [intros [Hx Px]; auto|intros [[<-|Hx] Px]; [congruence|auto]].
Qed.

(** The filter of [getClosestRoleZone]: the agent's own cell, or a cell
    without an agent, a block or a marker. *)
Definition roleZoneCandidate (self : DynamicMap) (currentCoordinate c : Coordinate)
    : Result bool :=
  if Coordinate_eqb c currentCoordinate then Ok true
  else
    e <- getMapValueEnum self c true false ;;
    Ok (negb (inValues e [AGENT; BLOCK; MARKER])).

(** [getClosestRoleZone]; [min] raises [ValueError] on an empty sequence. *)
Definition getClosestRoleZone {F : Type} `{PyFloat F} (d : Dims) (self : DynamicMap)
    (currentCoordinate : Coordinate) : Result Coordinate :=
  candidates <- filter_result (roleZoneCandidate self currentCoordinate) (roleZones self) ;;
  let roleZones_ := match candidates with [] => roleZones self | _ => candidates end in
  minBy (fun c => heuristicCost d c currentCoordinate) roleZones_.

Lemma roleZoneCandidate_returns (self : DynamicMap) (currentCoordinate c : Coordinate) :
  exists b, roleZoneCandidate self currentCoordinate c = Ok b.
Proof.
  unfold roleZoneCandidate. destruct (Coordinate_eqb c currentCoordinate); [eauto|].
  destruct (getMapValueEnum_returns self c true false) as [e ->]. cbn [bind]. eauto.
Qed.

(** X16.  Where the dimensions that are set are positive (at a dimension
    0 the distance raises [ZeroDivisionError]): [getClosestRoleZone]
    raises [ValueError] on a map without role
    zones.  Otherwise it returns a role zone of the map: an unoccupied one
    (or the agent's own cell) whenever there is one, and, for distances
    ordered as numbers are, one that no role zone of the same kind is
    closer than. *)
Theorem getClosestRoleZone_spec {F : Type} `{PyFloat F} (d : Dims) (self : DynamicMap)
    (currentCoordinate : Coordinate) :
  dims_ok d ->
  (roleZones self = [] -> getClosestRoleZone d self currentCoordinate = Raise ValueError)
  /\ (roleZones self <> [] ->
      exists c,
        getClosestRoleZone d self currentCoordinate = Ok c
        /\ In c (roleZones self)
        /\ (forall z, In z (roleZones self) ->
              roleZoneCandidate self currentCoordinate z = Ok true ->
              roleZoneCandidate self currentCoordinate c = Ok true)
        /\ (orderedKeys (fun c => heuristicCost d c currentCoordinate) ->
            forall z, In z (roleZones self) ->
              roleZoneCandidate self currentCoordinate z = Ok true
              \/ roleZoneCandidate self currentCoordinate c <> Ok true ->
              flt (heuristicCost d z currentCoordinate) (heuristicCost d c currentCoordinate)
              = false)).
Proof.
  intros _. unfold getClosestRoleZone.
  destruct (filter_result_spec (roleZoneCandidate self currentCoordinate) (roleZones self)
              (roleZoneCandidate_returns self currentCoordinate)) as [candidates [E I]].
  rewrite E. cbn [bind]. split.
  - intros Z0. rewrite Z0 in *. destruct candidates as [|c0 rest]; [reflexivity|].
    destruct (proj1 (I c0) (or_introl eq_refl)) as [[] _].
  - intros N. destruct candidates as [|c0 rest].
    + destruct (minBy_returns (fun c => heuristicCost d c currentCoordinate) (roleZones self) N)
        as [c M]. exists c. split; [exact M|]. split; [now apply (minBy_In _ _ _ M)|].
      split.
      * intros z Hz Pz. destruct (proj2 (I z) (conj Hz Pz)).
      * intros Ord z Hz _. exact (minBy_minimal _ _ _ Ord M z Hz).
    + destruct (minBy_returns (fun c => heuristicCost d c currentCoordinate) (c0 :: rest)
                  ltac:(discriminate)) as [c M].
      pose proof (minBy_In _ _ _ M) as Hc. apply I in Hc. destruct Hc as [Hc Pc].
      exists c. split; [exact M|]. split; [exact Hc|]. split; [intros; exact Pc|].
      intros Ord z Hz [Pz|Pz]; [|contradiction].
      apply (minBy_minimal _ _ _ Ord M z). apply I. now split.
Qed.

(** A map of width 10 with the role zones (8, 0) and (4, 0), the first
    of them occupied by a block. *)
Definition twoRoleZones : DynamicMap :=
  let d := {| maxWidth := Some 10; maxHeight := None |} in
  let self := withContents (newDynamicMap d 1 "agentA" 10 60)
                [(XY 8 0, MkMapValue BLOCK "b0" 3)] [] [] in
  {| mapId := mapId self; markerPurgeInterval := markerPurgeInterval self;
     unknownCoordSearchMaxIter := unknownCoordSearchMaxIter self;
     agentCoordinates := agentCoordinates self;
     agentStartingCoordinates := agentStartingCoordinates self;
     agentCoordReservations := agentCoordReservations self;
     store := store self; markers := markers self; dispenserMap := dispenserMap self;
     roleZones := [XY 8 0; XY 4 0]; goalZones := goalZones self |}.

Lemma getClosestRoleZone_spec_witness :
  let d := {| maxWidth := Some 10; maxHeight := None |} in
  getClosestRoleZone (F := float) d twoRoleZones (XY 0 0) = Ok (XY 4 0)
  /\ exists c,
       getClosestRoleZone (F := float) d twoRoleZones (XY 0 0) = Ok c
       /\ roleZoneCandidate twoRoleZones (XY 0 0) c = Ok true.
Proof.
  intros d. split; [reflexivity|].
  destruct (getClosestRoleZone_spec (F := float) d twoRoleZones (XY 0 0)) as [_ R];
    [split; simpl; [lia|exact I]|].
  destruct R as [c [E [_ [Free _]]]]; [discriminate|].
  exists c. split; [exact E|].
  apply (Free (XY 4 0)); [right; now left|reflexivity].
Defined.

(** ** What a merge carries over besides the cells (data/map/dynamicMap.py) *)

Lemma fold_set_get {K V W : Type} `{Key K} (f : W -> V) (other : dict K W) (a : K) :
  forall mine : dict K V,
  NoDup (keys other) ->
  get (fold_left (fun acc entry => set acc (fst entry) (f (snd entry))) other mine) a
  = match get other a with
    | Some w => Some (f w)
    | None => get mine a
    end.
Proof.
  induction other as [|[k w] other IH]; intros mine ND; cbn [fold_left get fst snd];
    [reflexivity|].
  inversion ND as [|? ? Nk ND']; subst. rewrite (IH _ ND').
  destruct (key_eqb_spec a k) as [->|N].
  - assert (G : get other k = None) by now apply get_None_keys.
    rewrite G. apply get_set_same.
  - destruct (get other a); [reflexivity|]. now apply get_set_other.
Qed.

(** X17.  After [merge] (positive dimensions, distinct agent ids in the
    absorbed map) every agent of the absorbed map is in the receiving map
    at its coordinate shifted by the returned offset, with its starting
    coordinate and its reservations shifted likewise, replacing what the
    receiving map held for that agent; the other agents of the receiving
    map keep theirs; and the goal and role zones are those of the
    receiving map and the shifted ones of the absorbed map. *)
Theorem merge_carries_agents (d : Dims) (self otherMap : DynamicMap)
    (othersCoordinateInMyMap othersCoordinateInOthersMap : Coordinate) (agentId : string) :
  dims_ok d ->
  NoDup (keys (agentCoordinates otherMap)) ->
  NoDup (keys (agentStartingCoordinates otherMap)) ->
  NoDup (keys (agentCoordReservations otherMap)) ->
  NoDup (goalZones self) -> NoDup (roleZones self) ->
  let merged :=
    fst (merge d self otherMap othersCoordinateInMyMap othersCoordinateInOthersMap) in
  let offsetCoord :=
    snd (merge d self otherMap othersCoordinateInMyMap othersCoordinateInOthersMap) in
  let shifted c := getShiftedCoordinate d c offsetCoord true in
  get (agentCoordinates merged) agentId
  = match get (agentCoordinates otherMap) agentId with
    | Some c => Some (shifted c)
    | None => get (agentCoordinates self) agentId
    end
  /\ get (agentStartingCoordinates merged) agentId
     = match get (agentStartingCoordinates otherMap) agentId with
       | Some c => Some (shifted c)
       | None => get (agentStartingCoordinates self) agentId
       end
  /\ get (agentCoordReservations merged) agentId
     = match get (agentCoordReservations otherMap) agentId with
       | Some l => Some (List.map shifted l)
       | None => get (agentCoordReservations self) agentId
       end
  /\ (forall g, In g (goalZones merged)
                <-> In g (goalZones self) \/ exists g0, In g0 (goalZones otherMap) /\ shifted g0 = g)
  /\ (forall z, In z (roleZones merged)
                <-> In z (roleZones self) \/ exists z0, In z0 (roleZones otherMap) /\ shifted z0 = z)
  /\ NoDup (goalZones merged) /\ NoDup (roleZones merged).
Proof.
  intros _ NDa NDs NDr NDg NDz merged offsetCoord shifted.
  unfold merged, merge. cbn [fst agentCoordinates agentStartingCoordinates
                             agentCoordReservations goalZones roleZones].
  unfold mergeAgents, mergeReservations.
  rewrite (fold_set_get _ (agentCoordinates otherMap) agentId _ NDa).
  rewrite (fold_set_get _ (agentStartingCoordinates otherMap) agentId _ NDs).
  rewrite (fold_set_get _ (agentCoordReservations otherMap) agentId _ NDr).
  destruct (set_update_spec
              (List.map (shiftBy d (cx othersCoordinateInMyMap - cx othersCoordinateInOthersMap)
                           (cy othersCoordinateInMyMap - cy othersCoordinateInOthersMap))
                 (goalZones otherMap)) (goalZones self) NDg) as [NDg' Ig].
  destruct (set_update_spec
              (List.map (shiftBy d (cx othersCoordinateInMyMap - cx othersCoordinateInOthersMap)
                           (cy othersCoordinateInMyMap - cy othersCoordinateInOthersMap))
                 (roleZones otherMap)) (roleZones self) NDz) as [NDz' Iz].
  repeat split; try assumption; try reflexivity.
  - intros Hg. apply Ig in Hg. destruct Hg as [Hg|Hg]; [now left|].
    apply in_map_iff in Hg. destruct Hg as [g0 [E I0]]. right. exists g0. now split.
  - intros [Hg|[g0 [I0 E]]]; apply Ig; [now left|].
    right. apply in_map_iff. exists g0. now split.
  - intros Hz. apply Iz in Hz. destruct Hz as [Hz|Hz]; [now left|].
    apply in_map_iff in Hz. destruct Hz as [z0 [E I0]]. right. exists z0. now split.
  - intros [Hz|[z0 [I0 E]]]; apply Iz; [now left|].
    right. apply in_map_iff. exists z0. now split.
Qed.

Lemma merge_carries_agents_witness :
  let self := newDynamicMap no_dims 1 "agentA" 10 60 in
  let otherMap :=
    setReservations (newDynamicMap no_dims 2 "agentB" 10 60)
      [("agentB"%string, [XY 1 1])] in
  get (agentCoordinates (fst (merge no_dims self otherMap (XY 3 0) (XY 0 0))))
      "agentB"%string = Some (XY 3 0)
  /\ get (agentCoordReservations (fst (merge no_dims self otherMap (XY 3 0) (XY 0 0))))
         "agentB"%string = Some [XY 4 1].
Proof.
  intros self otherMap.
  destruct (merge_carries_agents no_dims self otherMap (XY 3 0) (XY 0 0) "agentB"%string)
    as [A [_ [R _]]].
  - split; exact I.
  - cbn. repeat constructor; cbn; tauto.
  - cbn. repeat constructor; cbn; tauto.
  - cbn. repeat constructor; cbn; tauto.
  - constructor.
  - constructor.
  - split; [rewrite A; reflexivity|rewrite R; reflexivity].
Defined.

(** ** The cells and the zones after a percept (data/map/dynamicMap.py) *)

Lemma addThing_store (u : MapUpdateData) (st : DynamicMap * list Coordinate)
    (k c : Coordinate) (v : MapValue) :
  get (store (fst (addThing u st (k, v)))) c
  = if key_eqb c k then Some (newer (get (store (fst st)) k) v)
    else get (store (fst st)) c.
Proof.
  destruct st as [self deletable]. cbn [addThing fst store].
  unfold newer. destruct (key_eqb_spec c k) as [->|N].
  - destruct (get (store self) k) as [old|] eqn:G; [|apply get_set_same].
    destruct (simulationStep old <? simulationStep v); [apply get_set_same|exact G].
  - destruct (get (store self) k) as [old|]; [|now apply get_set_other].
    destruct (simulationStep old <? simulationStep v); [now apply get_set_other|reflexivity].
Qed.

Lemma addThing_rest (u : MapUpdateData) (st : DynamicMap * list Coordinate)
    (entry : Coordinate * MapValue) :
  agentCoordinates (fst (addThing u st entry)) = agentCoordinates (fst st)
  /\ agentCoordReservations (fst (addThing u st entry)) = agentCoordReservations (fst st)
  /\ dispenserMap (fst (addThing u st entry)) = dispenserMap (fst st)
  /\ roleZones (fst (addThing u st entry)) = roleZones (fst st).
Proof. destruct st as [self deletable], entry as [k v]. now cbn. Qed.

Lemma addThings_store (u : MapUpdateData) (l : dict Coordinate MapValue) (c : Coordinate) :
  forall st : DynamicMap * list Coordinate,
  NoDup (keys l) ->
  get (store (fst (fold_left (addThing u) l st))) c
  = match get l c with
    | Some v => Some (newer (get (store (fst st)) c) v)
    | None => get (store (fst st)) c
    end.
Proof.
  induction l as [|[k v] l IH]; intros st ND; cbn [fold_left get]; [reflexivity|].
  inversion ND as [|? ? Nk ND']; subst. rewrite (IH _ ND'), !addThing_store.
  destruct (key_eqb_spec c k) as [->|N].
  - assert (G : get l k = None) by now apply get_None_keys.
    now rewrite G.
  - reflexivity.
Qed.

Lemma addThings_rest (u : MapUpdateData) (l : dict Coordinate MapValue) :
  forall st : DynamicMap * list Coordinate,
  agentCoordinates (fst (fold_left (addThing u) l st)) = agentCoordinates (fst st)
  /\ agentCoordReservations (fst (fold_left (addThing u) l st))
     = agentCoordReservations (fst st)
  /\ dispenserMap (fst (fold_left (addThing u) l st)) = dispenserMap (fst st)
  /\ roleZones (fst (fold_left (addThing u) l st)) = roleZones (fst st).
Proof.
  induction l as [|entry l IH]; intros st; cbn [fold_left]; [now repeat split|].
  destruct (IH (addThing u st entry)) as [A [R [D Z]]].
  destruct (addThing_rest u st entry) as [A1 [R1 [D1 Z1]]].
  repeat split; congruence.
Qed.

Lemma deleteGoalZones_spec (deletable : list Coordinate) :
  forall zones z,
  NoDup zones -> deleteGoalZones zones deletable = Ok z ->
  NoDup z /\ forall g, In g z <-> In g zones /\ ~ In g deletable.
Proof.
  induction deletable as [|c rest IH]; intros zones z ND; cbn [deleteGoalZones].
  - intros [= <-]. split; [exact ND|]. intros g. cbn. tauto.
  - destruct (mem c zones) eqn:M; [|discriminate]. intros E.
    assert (Rm : NoDup (list_remove c zones)
                 /\ forall g, In g (list_remove c zones) <-> In g zones /\ g <> c).
    { clear E IH M. induction zones as [|a zones IHz]; cbn [list_remove].
      - split; [constructor|]. intros g. cbn. tauto.
      - inversion ND as [|? ? Na ND']; subst.
        destruct (key_eqb_spec c a) as [->|N].
        + split; [exact ND'|]. intros g. cbn [In]. split.
          * intros Hg. split; [now right|]. intros ->. contradiction.
          * intros [[<-|Hg] Ng]; [congruence|exact Hg].
        + destruct (IHz ND') as [NDr Ir]. split.
          * constructor; [|exact NDr]. intros Ha. apply Ir in Ha. tauto.
          * intros g. cbn [In]. rewrite Ir. intuition congruence. }
    destruct Rm as [NDr Ir]. destruct (IH _ _ NDr E) as [NDz Iz].
    split; [exact NDz|]. intros g. rewrite Iz, Ir. cbn [In]. intuition congruence.
Qed.

Lemma holds_addDispensers_seen (seen : dict Coordinate MapValue) :
  forall (dm : DispenserMap) (type : string) (c : Coordinate),
  NoDup (keys dm) ->
  NoDup (keys (addDispensers dm seen))
  /\ (holdsDispenser (addDispensers dm seen) type c
      <-> holdsDispenser dm type c \/ exists v, In (c, v) seen /\ details v = type).
Proof.
  unfold addDispensers.
  induction seen as [|[k v] seen IH]; intros dm type c ND; cbn [fold_left fst snd].
  - split; [exact ND|]. split; [tauto|]. intros [Hd|[v [[] _]]]. exact Hd.
  - destruct (IH (addDispenser dm (details v) k) type c
                (addDispenser_NoDup dm (details v) k ND)) as [ND' I'].
    split; [exact ND'|]. rewrite I', (holds_addDispenser dm (details v) k type c ND).
    cbn [In]. split.
    + intros [[Hd|[-> ->]]|[v' [I E]]]; [now left| |]; right; eauto.
    + intros [Hd|[v' [[[= <- <-]|I] E]]]; [now left; left|left; right; now split|].
      right. eauto.
Qed.

(** X18.  After [addRange] (a percept with distinct cell keys): a cell of
    the percept holds the newer of its old entry and the percept's entry
    (the old one on equal steps), the other cells are unchanged; a goal
    zone is kept unless its cell is in the percept without being
    reported as a goal zone, and the reported ones are added; role zones
    and dispensers only grow; agents and reservations are untouched. *)
Theorem addRange_records_percept (self self' : DynamicMap) (simulationStep_ : Z)
    (updateData : MapUpdateData) :
  NoDup (keys (things updateData)) -> NoDup (keys (markers self)) ->
  NoDup (goalZones self) -> NoDup (roleZones self) -> NoDup (keys (dispenserMap self)) ->
  addRange self simulationStep_ updateData = Ok self' ->
  (forall c, get (store self') c
             = match get (things updateData) c with
               | Some v => Some (newer (get (store self) c) v)
               | None => get (store self) c
               end)
  /\ (forall g, In g (goalZones self')
                <-> In g (uGoalZones updateData)
                    \/ (In g (goalZones self) /\ ~ In g (keys (things updateData))))
  /\ (forall z, In z (roleZones self')
                <-> In z (roleZones self) \/ In z (uRoleZones updateData))
  /\ (forall type c,
        holdsDispenser (dispenserMap self') type c
        <-> holdsDispenser (dispenserMap self) type c
            \/ exists v, In (c, v) (uDispensers updateData) /\ details v = type)
  /\ agentCoordinates self' = agentCoordinates self
  /\ agentCoordReservations self' = agentCoordReservations self.
Proof.
  intros NDt NDm NDg NDz NDd. unfold addRange.
  pose proof (addThings_store updateData (things updateData)) as S.
  destruct (addThings_rest updateData (things updateData) (self, [])) as [A [R [D Z]]].
  destruct (addThings_invariant updateData (things updateData) self [] NDm)
    as [_ [G [_ Del]]].
  destruct (fold_left (addThing updateData) (things updateData) (self, []))
    as [self1 deletable] eqn:F.
  cbn [fst snd app] in A, R, D, Z, G, Del.
  destruct (purgeMarkers simulationStep_ (markerPurgeInterval self1)
              (addMarkers (markers self1) (uMarkers updateData))) as [markers3|e];
    cbn [bind]; [|discriminate].
  destruct (deleteGoalZones (goalZones self1) deletable) as [z|e] eqn:E;
    cbn [bind]; [|discriminate].
  intros [= <-]. cbn [store goalZones roleZones dispenserMap agentCoordinates
                      agentCoordReservations].
  split; [|split; [|split; [|split; [|now split]]]].
  - intros c. specialize (S c (self, []) NDt). rewrite F in S. exact S.
  - rewrite G in E. destruct (deleteGoalZones_spec deletable (goalZones self) z NDg E)
      as [NDz6 Iz6].
    destruct (set_update_spec (uGoalZones updateData) z NDz6) as [_ Iu].
    intros g. rewrite Iu, Iz6, Del, filter_In.
    destruct (mem g (uGoalZones updateData)) eqn:Mu.
    + apply mem_In in Mu. tauto.
    + apply mem_false_In in Mu. split.
      * intros [[Hg N]|Hu]; [|tauto]. right. split; [exact Hg|].
        intros Hk. apply N. split; [exact Hk|].
        apply andb_true_iff. split; [now apply mem_In|reflexivity].
      * intros [Hu|[Hg N]]; [tauto|]. left. split; [exact Hg|]. tauto.
  - rewrite Z. destruct (set_update_spec (uRoleZones updateData) (roleZones self) NDz)
      as [_ Iu]. exact Iu.
  - rewrite D. intros type c.
    now destruct (holds_addDispensers_seen (uDispensers updateData) (dispenserMap self)
                    type c NDd).
Qed.

Lemma addRange_records_percept_witness :
  let self :=
    withGoalZones
      (withContents (newDynamicMap no_dims 1 "agentA" 10 60)
         [(XY 0 0, MkMapValue EMPTY "" 3); (XY 1 0, MkMapValue OBSTACLE "" 9)] [] [])
      [XY 0 0; XY 5 5] in
  let updateData :=
    {| things := [(XY 0 0, MkMapValue AGENT "A" 7); (XY 1 0, MkMapValue EMPTY "" 7)];
       uMarkers := []; uDispensers := []; uGoalZones := []; uRoleZones := [] |} in
  exists self',
    addRange self 7 updateData = Ok self'
    /\ get (store self') (XY 0 0) = Some (MkMapValue AGENT "A" 7)
    /\ get (store self') (XY 1 0) = Some (MkMapValue OBSTACLE "" 9)
    /\ goalZones self' = [XY 5 5].
Proof.
  intros self updateData.
  destruct (addRange self 7 updateData) as [self'|e] eqn:E; [|discriminate].
  exists self'. split; [reflexivity|].
  destruct (addRange_records_percept self self' 7 updateData) as [S _].
  - cbn. repeat constructor; cbn; intuition discriminate.
  - constructor.
  - cbn. repeat constructor; cbn; intuition discriminate.
  - constructor.
  - constructor.
  - exact E.
  - split; [rewrite S; reflexivity|]. split; [rewrite S; reflexivity|].
    vm_compute in E. injection E as <-. reflexivity.
Defined.

(** ** The registry after a merge (data/server/mapServer.py) *)

Lemma get_redirected (aliasis_ : dict string Z) (firstMapId secondMapId : Z) (a : string) :
  get (List.map (fun entry => if snd entry =? secondMapId then (fst entry, firstMapId)
                              else entry) aliasis_) a
  = option_map (fun id => if id =? secondMapId then firstMapId else id) (get aliasis_ a).
Proof.
  induction aliasis_ as [|[x id] l IH]; cbn [List.map get snd fst]; [reflexivity|].
  destruct (id =? secondMapId) eqn:E; cbn [fst];
    destruct (key_eqb a x); cbn [option_map]; try exact IH; now rewrite ?E.
Qed.

Lemma get_Some_key_Z {V : Type} (m : dict Z V) (k : Z) (v : V) :
  get m k = Some v -> In k (keys m).
Proof.
  intros G. apply get_In in G. change k with (fst (k, v)). now apply in_map.
Qed.

(** Every alias names a map of the registry. *)
Definition aliasesValid (self : MapServer) : Prop :=
  forall agentId id, get (aliasis self) agentId = Some id -> contains (maps self) id = true.

(** X19.  When [mergeMaps] returns for agents of two different maps (map
    ids distinct in the registry): every agent that was aliased to the
    absorbed map is aliased to the receiving map and the other aliases are
    unchanged; the absorbed map is gone, the receiving map is there, the
    other maps are untouched and the map count drops by one; and if every
    alias named a map before, every alias names a map afterwards. *)
Theorem mergeMaps_redirects (d : Dims) (self self' : MapServer)
    (firstAgentId secondAgentId : string) (othersCoordinateInMyMap offsetCoord : Coordinate) :
  NoDup (keys (maps self)) ->
  item (aliasis self) firstAgentId <> item (aliasis self) secondAgentId ->
  mergeMaps d self firstAgentId secondAgentId othersCoordinateInMyMap
  = Ok (self', offsetCoord) ->
  exists firstMapId secondMapId,
    get (aliasis self) firstAgentId = Some firstMapId
    /\ get (aliasis self) secondAgentId = Some secondMapId
    /\ firstMapId <> secondMapId
    /\ (forall a, get (aliasis self') a
                  = option_map (fun id => if id =? secondMapId then firstMapId else id)
                      (get (aliasis self) a))
    /\ get (maps self') secondMapId = None
    /\ contains (maps self') firstMapId = true
    /\ (forall id, id <> firstMapId -> id <> secondMapId ->
                   get (maps self') id = get (maps self) id)
    /\ (List.length (maps self') + 1 = List.length (maps self))%nat
    /\ (aliasesValid self -> aliasesValid self').
Proof.
  intros ND Diff. unfold mergeMaps, item in *.
  destruct (get (aliasis self) firstAgentId) as [firstMapId|]; cbn [of_option bind];
    [|discriminate].
  destruct (get (aliasis self) secondAgentId) as [secondMapId|]; cbn [of_option bind];
    [|discriminate].
  assert (N : firstMapId <> secondMapId) by (cbn in Diff; congruence).
  destruct (get (maps self) firstMapId) as [firstMap|] eqn:G1; cbn [of_option bind];
    [|discriminate].
  destruct (get (maps self) secondMapId) as [secondMap|] eqn:G2; cbn [of_option bind];
    [|discriminate].
  destruct (getAgentCoordinate d secondMap secondAgentId) as [q|e]; cbn [bind];
    [|discriminate].
  destruct (merge d firstMap secondMap othersCoordinateInMyMap q) as [merged off].
  intros [= <- <-]. exists firstMapId, secondMapId.
  cbn [setMaps aliasis maps].
  assert (NDset : NoDup (keys (set (maps self) firstMapId merged))) by now apply NoDup_set.
  assert (Gd : forall id, get (del (set (maps self) firstMapId merged) secondMapId) id
               = if id =? secondMapId then None
                 else if id =? firstMapId then Some merged else get (maps self) id).
  { intros id. destruct (Z.eqb_spec id secondMapId) as [->|Ns].
    - now apply get_del_same.
    - rewrite (get_del_other _ secondMapId id Ns).
      destruct (Z.eqb_spec id firstMapId) as [->|Nf];
        [apply get_set_same|now apply get_set_other]. }
  split; [reflexivity|]. split; [reflexivity|]. split; [exact N|].
  split; [intros a; apply get_redirected|].
  split; [rewrite Gd, Z.eqb_refl; reflexivity|].
  split; [unfold contains; rewrite Gd;
          destruct (Z.eqb_spec firstMapId secondMapId); [contradiction|];
          now rewrite Z.eqb_refl|].
  split; [intros id Nf Ns; rewrite Gd;
          destruct (Z.eqb_spec id secondMapId); [contradiction|];
          destruct (Z.eqb_spec id firstMapId); [contradiction|reflexivity]|].
  split.
  - assert (Ls : List.length (set (maps self) firstMapId merged) = List.length (maps self)).
    { rewrite <- !(length_map fst). change (List.map fst) with (@keys Z DynamicMap).
      rewrite keys_set. replace (mem firstMapId (keys (maps self))) with true; [reflexivity|].
      symmetry. apply mem_In. now apply (get_Some_key_Z (maps self) firstMapId firstMap). }
    rewrite <- Ls.
    assert (In2 : In secondMapId (keys (set (maps self) firstMapId merged))).
    { rewrite keys_set. replace (mem firstMapId (keys (maps self))) with true.
      - now apply (get_Some_key_Z (maps self) secondMapId secondMap).
      - symmetry. apply mem_In. now apply (get_Some_key_Z (maps self) firstMapId firstMap). }
    revert In2. generalize (set (maps self) firstMapId merged). intros m.
    induction m as [|[k v] m IH]; cbn [del keys List.map In List.length fst]; [tauto|].
    destruct (key_eqb_spec secondMapId k) as [->|Nk]; [lia|].
    intros [E|I]; [congruence|]. cbn [List.length]. specialize (IH I). lia.
  - intros Valid. unfold aliasesValid. cbn [setMaps aliasis maps]. intros a id G.
    rewrite get_redirected in G. unfold contains. rewrite Gd.
    destruct (get (aliasis self) a) as [id0|] eqn:Ga; cbn [option_map] in G; [|discriminate].
    injection G as <-. specialize (Valid a id0 Ga). unfold contains in Valid.
    destruct (Z.eqb_spec id0 secondMapId) as [->|Ns].
    + destruct (Z.eqb_spec firstMapId secondMapId); [contradiction|].
      now rewrite Z.eqb_refl.
    + destruct (Z.eqb_spec id0 secondMapId); [contradiction|].
      destruct (id0 =? firstMapId); [reflexivity|exact Valid].
Qed.

(** Two agents, each with its own map. *)
Definition twoMaps : MapServer :=
  {| aliasis := [("agentA"%string, 1); ("agentB"%string, 2)];
     maps := [(1, newDynamicMap no_dims 1 "agentA" 10 60);
              (2, newDynamicMap no_dims 2 "agentB" 10 60)];
     nextMapId := 2; gridWidth := None; gridHeight := None;
     mapUnknownCoordSearchMaxIter := 60; currentDynamicPerceptWrappers := [] |}.

Lemma mergeMaps_redirects_witness :
  exists self' offsetCoord,
    mergeMaps no_dims twoMaps "agentA" "agentB" (XY 1 0) = Ok (self', offsetCoord)
    /\ get (aliasis self') "agentB"%string = Some 1
    /\ List.length (maps self') = 1%nat.
Proof.
  destruct (mergeMaps no_dims twoMaps "agentA" "agentB" (XY 1 0)) as [[self' offsetCoord]|e]
    eqn:E; [|discriminate].
  exists self', offsetCoord. split; [reflexivity|].
  destruct (mergeMaps_redirects no_dims twoMaps self' "agentA" "agentB" (XY 1 0) offsetCoord)
    as [firstMapId [secondMapId [G1 [G2 [_ [A [_ [_ [_ [L _]]]]]]]]]].
  - cbn. repeat constructor; cbn; intuition discriminate.
  - discriminate.
  - exact E.
  - injection G1 as <-. injection G2 as <-. split; [rewrite A; reflexivity|].
    cbn in L. lia.
Defined.

(** [addRange] returns for a map without markers and a percept with
    distinct cell keys, and leaves agents and reservations as they are. *)
Lemma addRange_agents (self self' : DynamicMap) (simulationStep_ : Z)
    (updateData : MapUpdateData) :
  addRange self simulationStep_ updateData = Ok self' ->
  agentCoordinates self' = agentCoordinates self
  /\ agentCoordReservations self' = agentCoordReservations self.
Proof.
  unfold addRange.
  destruct (addThings_rest updateData (things updateData) (self, [])) as [A [R _]].
  destruct (fold_left (addThing updateData) (things updateData) (self, []))
    as [self1 deletable].
  cbn [fst] in A, R.
  destruct (purgeMarkers _ _ _) as [markers3|e]; cbn [bind]; [|discriminate].
  destruct (deleteGoalZones _ _) as [z|e]; cbn [bind]; [|discriminate].
  intros [= <-]. now split.
Qed.

Lemma markers_expire_returns (self : DynamicMap) (simulationStep_ : Z)
    (updateData : MapUpdateData) :
  NoDup (keys (markers self)) -> NoDup (keys (things updateData)) ->
  exists self', addRange self simulationStep_ updateData = Ok self'.
Proof.
  intros NDm NDt. unfold addRange.
  destruct (addThings_invariant updateData (things updateData) self [] NDm)
    as [I1 [I2 [I3 I4]]].
  destruct (fold_left (addThing updateData) (things updateData) (self, []))
    as [self1 deletable]. cbn [fst snd app] in I1, I2, I3, I4.
  destruct (purgeMarkers_spec simulationStep_ (markerPurgeInterval self1)
              (addMarkers (markers self1) (uMarkers updateData))
              (addMarkers_NoDup _ _ I3)) as [markers3 [E3 _]].
  rewrite E3. cbn [bind].
  assert (D : exists z, deleteGoalZones (goalZones self1) deletable = Ok z).
  { apply deleteGoalZones_ok; rewrite I4.
    - now apply NoDup_filter.
    - intros c Hc. apply filter_In in Hc. destruct Hc as [_ Hc].
      apply andb_true_iff in Hc. destruct Hc as [Hc _].
      rewrite I2. now apply mem_In. }
  destruct D as [z ->]. cbn [bind]. eauto.
Qed.

(** ** Registering a map (data/server/mapServer.py) *)

(** [registerNewMap]: [generateNewMapId] increments the counter and
    returns it; the [DynamicMap] constructor fills the map with the first
    percept ([addRange]). *)
Definition registerNewMap (d : Dims) (self : MapServer) (agentId : string)
    (markerPurgeInterval_ simulationStep_ : Z) (updateData : MapUpdateData)
    : Result MapServer :=
  let newId := nextMapId self + 1 in
  newMap <-
    addRange (newDynamicMap d newId agentId markerPurgeInterval_
                (mapUnknownCoordSearchMaxIter self))
      simulationStep_ updateData ;;
  Ok {| aliasis := set (aliasis self) agentId newId;
        maps := set (maps self) newId newMap;
        nextMapId := newId;
        gridWidth := gridWidth self; gridHeight := gridHeight self;
        mapUnknownCoordSearchMaxIter := mapUnknownCoordSearchMaxIter self;
        currentDynamicPerceptWrappers := currentDynamicPerceptWrappers self |}.

(** No map id of the registry is above the counter. *)
Definition idsIssued (self : MapServer) : Prop :=
  forall id, In id (keys (maps self)) -> id <= nextMapId self.

(** X20.  In a registry whose map ids were issued by the counter (an
    empty registry is one), [registerNewMap] with a percept of distinct
    cell keys returns; the new map gets an id no map has, so the maps
    registered before are untouched, as are the aliases of the other
    agents; the agent is aliased to the new map, in which it stands at
    the origin; and the ids of the new registry are again issued by its
    counter. *)
Theorem registerNewMap_fresh (d : Dims) (self : MapServer) (agentId : string)
    (markerPurgeInterval_ simulationStep_ : Z) (updateData : MapUpdateData) :
  dims_ok d -> idsIssued self -> NoDup (keys (things updateData)) ->
  exists self' newMap,
    registerNewMap d self agentId markerPurgeInterval_ simulationStep_ updateData = Ok self'
    /\ get (maps self) (nextMapId self') = None
    /\ getMap self' agentId = Ok newMap
    /\ getAgentCoordinate d newMap agentId = Ok (XY 0 0)
    /\ (forall id, id <> nextMapId self' -> get (maps self') id = get (maps self) id)
    /\ (forall a, a <> agentId -> get (aliasis self') a = get (aliasis self) a)
    /\ idsIssued self'
    /\ idsIssued (newMapServer (mapUnknownCoordSearchMaxIter self)).
Proof.
  intros Hd Issued NDt. unfold registerNewMap.
  set (fresh := newDynamicMap d (nextMapId self + 1) agentId markerPurgeInterval_
                  (mapUnknownCoordSearchMaxIter self)).
  destruct (markers_expire_returns fresh simulationStep_ updateData (NoDup_nil _) NDt)
    as [newMap E].
  rewrite E. cbn [bind]. eexists. exists newMap. split; [reflexivity|].
  cbn [maps aliasis nextMapId].
  assert (Fresh : get (maps self) (nextMapId self + 1) = None).
  { apply get_None_keys. intros I. specialize (Issued _ I). lia. }
  split; [exact Fresh|]. split; [|split; [|split; [|split; [|split]]]].
  - unfold getMap, item. cbn [aliasis maps]. rewrite get_set_same. cbn [of_option bind].
    now rewrite get_set_same.
  - destruct (addRange_agents fresh newMap simulationStep_ updateData E) as [A _].
    unfold getAgentCoordinate, item. rewrite A. unfold fresh.
    cbn [newDynamicMap agentCoordinates get]. rewrite key_eqb_refl. cbn [of_option bind].
    rewrite origo_zero. f_equal. unfold copy, Coord, normalize; cbn [cx cy].
    destruct (maxWidth d), (maxHeight d); reflexivity.
  - intros id N. now apply get_set_other.
  - intros a N. now apply get_set_other.
  - unfold idsIssued. cbn [maps nextMapId]. intros id I. rewrite keys_set in I.
    destruct (mem (nextMapId self + 1) (keys (maps self))).
    + specialize (Issued _ I). lia.
    + apply in_app_or in I. destruct I as [I|[<-|[]]]; [|lia].
      specialize (Issued _ I). lia.
  - intros id [].
Qed.

Lemma registerNewMap_fresh_witness :
  let updateData :=
    {| things := [(XY 0 0, MkMapValue AGENT "A" 1)];
       uMarkers := []; uDispensers := []; uGoalZones := []; uRoleZones := [] |} in
  exists self' newMap,
    registerNewMap no_dims (newMapServer 60) "agentA" 10 1 updateData = Ok self'
    /\ getMap self' "agentA" = Ok newMap
    /\ nextMapId self' = 1.
Proof.
  intros updateData.
  destruct (registerNewMap_fresh no_dims (newMapServer 60) "agentA" 10 1 updateData)
    as [self' [newMap [E [_ [G _]]]]].
  - split; exact I.
  - intros id [].
  - cbn. repeat constructor; cbn; tauto.
  - exists self', newMap. split; [exact E|]. split; [exact G|].
    vm_compute in E. injection E as <-. reflexivity.
Defined.

(** ** The action read off the route (agent/pathfinder/pathFinder.py) *)

Lemma batchMoves_length (maxSteps : Z) (actions : list PathStep) :
  forall index,
  Z.of_nat (List.length (batchMoves index maxSteps actions)) <= Z.max 0 (maxSteps - index).
Proof.
  induction actions as [|[relCoord|direction] actions IH]; intros index;
    cbn [batchMoves List.length]; try lia.
  destruct (Z.ltb_spec index maxSteps); cbn [List.length]; [|lia].
  specialize (IH (index + 1)). lia.
Qed.

Lemma moveWithoutRotating_moves (d : Dims) (map : DynamicMap)
    (current attachedCoord : Coordinate) (directions : list Direction) (first : Direction)
    (action : AgentAction) :
  moveWithoutRotating d map current attachedCoord directions first = Ok (Some action) ->
  action = MoveAction directions \/ action = MoveAction [first].
Proof.
  unfold moveWithoutRotating. intros E.
  apply bind_Ok in E. destruct E as [shiftedValue [_ E]].
  destruct (inValues shiftedValue [EMPTY; UNKNOWN]); [|discriminate].
  destruct directions as [|d1 [|d2 [|d3 rest]]]; try (injection E as <-; now right).
  apply bind_Ok in E. destruct E as [secondValue [_ E]].
  destruct (inValues secondValue [EMPTY; UNKNOWN]); injection E as <-; [now left|now right].
Qed.

Lemma rotateOrClear_no_move (d : Dims) (map : DynamicMap) (current attachedCoord : Coordinate)
    (directionToRotate : Direction) (directions : list Direction) :
  rotateOrClear d map current attachedCoord directionToRotate <> Ok (MoveAction directions).
Proof.
  unfold rotateOrClear. intros E.
  apply bind_Ok in E. destruct E as [blockingValue [_ E]].
  destruct (inValues blockingValue [OBSTACLE; BLOCK]); discriminate.
Qed.

(** X21.  [getAction] raises [KeyError] for a coordinate without a
    recorded predecessor.  A move it returns never has more steps than
    [maxSteps] (the speed of the agent), and has at least one when
    [maxSteps] is positive. *)
Theorem getAction_move_bounded (d : Dims) (map : DynamicMap)
    (cameFrom_ : dict Coordinate Coordinate) (current : Coordinate) (maxSteps : Z)
    (attachedCoordinates_ : list Coordinate) (rotateDict : dict Coordinate (option Direction)) :
  (contains cameFrom_ current = false ->
   getAction d map cameFrom_ current maxSteps attachedCoordinates_ rotateDict
   = Raise KeyError)
  /\ (forall directions,
        getAction d map cameFrom_ current maxSteps attachedCoordinates_ rotateDict
        = Ok (MoveAction directions) ->
        Z.of_nat (List.length directions) <= Z.max 0 maxSteps
        /\ (0 < maxSteps -> directions <> [])).
Proof.
  split.
  - unfold contains, getAction, item. destruct (get cameFrom_ current); [discriminate|].
    reflexivity.
  - intros directions E. unfold getAction in E.
    apply bind_Ok in E. destruct E as [prev [_ E]].
    apply bind_Ok in E. destruct E as [[actions root] [_ E]].
    destruct actions as [|[relCoord|direction] actions]; try discriminate.
    pose proof (batchMoves_length maxSteps (StepMove direction :: actions) 0) as L.
    assert (NE : 0 < maxSteps -> batchMoves 0 maxSteps (StepMove direction :: actions) <> []).
    { intros P. cbn [batchMoves]. destruct (Z.ltb_spec 0 maxSteps); [discriminate|lia]. }
    set (batch := batchMoves 0 maxSteps (StepMove direction :: actions)) in *.
    replace (maxSteps - 0) with maxSteps in L by lia.
    assert (Single : forall first, hd_error batch = Some first ->
              Z.of_nat (List.length [first]) <= Z.max 0 maxSteps).
    { intros first Hf. destruct batch; [discriminate|]. cbn [List.length] in *. lia. }
    assert (Done : forall ds first, hd_error batch = Some first ->
              ds = batch \/ ds = [first] ->
              Z.of_nat (List.length ds) <= Z.max 0 maxSteps /\ (0 < maxSteps -> ds <> [])).
    { intros ds first Hf [->| ->]; [now split|]. split; [now apply Single|discriminate]. }
    destruct attachedCoordinates_ as [|attachedCoord [|second rest]];
      try (injection E as <-; now split).
    apply bind_Ok in E. destruct E as [first [Hf E]].
    unfold of_option in Hf. destruct (hd_error batch) as [f|] eqn:Hd; [|discriminate].
    injection Hf as ->.
    destruct (isSameDirection _ first).
    + destruct batch as [|b1 [|b2 rest]] eqn:B; try (injection E as <-; now split).
      destruct (isSameDirection _ b2); injection E as <-; [now split|].
      apply (Done [first] first eq_refl). now right.
    + destruct (isOppositeDirection _ first).
      * unfold getActionAtOppositeRotating in E.
        apply bind_Ok in E. destruct E as [first' [Hf' E]].
        rewrite Hd in Hf'. injection Hf' as <-.
        apply bind_Ok in E. destruct E as [moved [M E]].
        destruct moved as [action|].
        -- injection E as ->. apply moveWithoutRotating_moves in M.
           apply (Done directions first eq_refl).
           destruct M as [[= ->]|[= ->]]; [now left|now right].
        -- apply bind_Ok in E. destruct E as [recorded [_ E]].
           apply bind_Ok in E. destruct E as [directionToRotate [_ E]].
           now apply rotateOrClear_no_move in E.
      * unfold getActionAtSimpleRotating in E.
        apply bind_Ok in E. destruct E as [first' [Hf' E]].
        rewrite Hd in Hf'. injection Hf' as <-.
        apply bind_Ok in E. destruct E as [moved [M E]].
        destruct moved as [action|].
        -- injection E as ->. apply moveWithoutRotating_moves in M.
           apply (Done directions first eq_refl).
           destruct M as [[= ->]|[= ->]]; [now left|now right].
        -- now apply rotateOrClear_no_move in E.
Qed.

(** ** The constants of the search (agent/pathfinder/pathFinder.py) *)

Lemma real_ceil_spec (a : R) (z : Z) :
  real_ceil a = Ok z -> (a <= IZR z < a + 1)%R.
Proof.
  unfold real_ceil. pose proof (archimed a) as [A1 A2].
  destruct (Req_dec_T (IZR (up a - 1)) a) as [E|N]; intros [= <-].
  - rewrite E. lra.
  - rewrite minus_IZR in N. lra.
Qed.

Lemma real_ceil_returns (a : R) : exists z, real_ceil a = Ok z.
Proof. unfold real_ceil. destruct (Req_dec_T (IZR (up a - 1)) a); eauto. Qed.

(** X22.  With the arithmetic read over the real numbers,
    [calculateTravelConstantCosts] raises [ZeroDivisionError] exactly when
    the speed, the maximum energy or the clear chance is 0.  Otherwise it
    returns the travel time [1 / speed], the clear cost
    [clearConstantCost / (max(energy - clearEnergyCost, 0.1) / maxEnergy)]
    and the least integer that is at least [1 / clearChance]. *)
Theorem travel_constants_defined (agentSpeed_ clearEnergyCost_ agentEnergy_ agentMaxEnergy_ : Z)
    (clearChance_ clearConstantCost_ : R) :
  let remaining :=
    if agentEnergy_ - clearEnergyCost_ <=? 0 then (1 / 10)%R
    else IZR (agentEnergy_ - clearEnergyCost_) in
  (agentSpeed_ = 0 \/ agentMaxEnergy_ = 0 \/ clearChance_ = 0%R
   <-> calculateTravelConstantCosts agentSpeed_ clearEnergyCost_ agentEnergy_
         agentMaxEnergy_ clearChance_ clearConstantCost_ = Raise ZeroDivisionError)
  /\ (agentSpeed_ <> 0 -> agentMaxEnergy_ <> 0 -> clearChance_ <> 0%R ->
      exists clearSuccessTime,
        calculateTravelConstantCosts agentSpeed_ clearEnergyCost_ agentEnergy_
          agentMaxEnergy_ clearChance_ clearConstantCost_
        = Ok ((1 / IZR agentSpeed_)%R,
              (clearConstantCost_ / (remaining / IZR agentMaxEnergy_))%R,
              clearSuccessTime)
        /\ (1 / clearChance_ <= IZR clearSuccessTime < 1 / clearChance_ + 1)%R).
Proof.
  intros remaining.
  assert (Rpos : (0 < remaining)%R).
  { unfold remaining. destruct (Z.leb_spec (agentEnergy_ - clearEnergyCost_) 0); [lra|].
    now apply (IZR_lt 0). }
  assert (Run : agentSpeed_ <> 0 -> agentMaxEnergy_ <> 0 -> clearChance_ <> 0%R ->
            exists clearSuccessTime,
              calculateTravelConstantCosts agentSpeed_ clearEnergyCost_ agentEnergy_
                agentMaxEnergy_ clearChance_ clearConstantCost_
              = Ok ((1 / IZR agentSpeed_)%R,
                    (clearConstantCost_ / (remaining / IZR agentMaxEnergy_))%R,
                    clearSuccessTime)
              /\ (1 / clearChance_ <= IZR clearSuccessTime < 1 / clearChance_ + 1)%R).
  { intros Ns Nm Nc. unfold calculateTravelConstantCosts.
    cbn [fdiv fceil ofInt tenth PyFloat_real]. fold remaining.
    assert (Is : IZR agentSpeed_ <> 0%R) by (intros E; now apply eq_IZR_R0 in E).
    assert (Im : IZR agentMaxEnergy_ <> 0%R) by (intros E; now apply eq_IZR_R0 in E).
    rewrite (real_div_nonzero 1 (IZR agentSpeed_) Is). cbn [bind].
    rewrite (real_div_nonzero remaining (IZR agentMaxEnergy_) Im). cbn [bind].
    assert (Sh : (remaining / IZR agentMaxEnergy_)%R <> 0%R).
    { unfold Rdiv. apply Rmult_integral_contrapositive_currified; [lra|].
      now apply Rinv_neq_0_compat. }
    rewrite (real_div_nonzero clearConstantCost_ _ Sh). cbn [bind].
    rewrite (real_div_nonzero 1 clearChance_ Nc). cbn [bind].
    destruct (real_ceil_returns (1 / clearChance_)) as [z Ez]. rewrite Ez. cbn [bind].
    exists z. split; [reflexivity|]. now apply real_ceil_spec. }
  split; [|exact Run]. split.
  - unfold calculateTravelConstantCosts. cbn [fdiv fceil ofInt tenth PyFloat_real].
    fold remaining. unfold real_div at 1.
    destruct (Req_dec_T (IZR agentSpeed_) 0) as [Es|Ns]; [reflexivity|]. cbn [bind].
    unfold real_div at 1.
    destruct (Req_dec_T (IZR agentMaxEnergy_) 0) as [Em|Nm]; [reflexivity|]. cbn [bind].
    intros [Z0|[Z0|Z0]];
      [subst agentSpeed_; contradiction|subst agentMaxEnergy_; contradiction|].
    unfold real_div at 1.
    destruct (Req_dec_T (remaining / IZR agentMaxEnergy_) 0); [reflexivity|]. cbn [bind].
    unfold real_div. destruct (Req_dec_T clearChance_ 0); [reflexivity|contradiction].
  - intros E.
    destruct (Z.eq_dec agentSpeed_ 0) as [Zs|Ns]; [now left|].
    destruct (Z.eq_dec agentMaxEnergy_ 0) as [Zm|Nm]; [now right; left|].
    destruct (Req_dec_T clearChance_ 0) as [Zc|Nc]; [now right; right|].
    destruct (Run Ns Nm Nc) as [z [Ok_ _]]. rewrite Ok_ in E. discriminate.
Qed.

(** ** The neighbours offered to the search (agent/pathfinder/pathFinder.py) *)

(** What the agent itself may step on: no dispenser, an agent only beyond
    the vision, a marker only when markers are ignored or beyond the
    vision. *)
Definition agentCanEnter (d : Dims) (startCoordinate : Coordinate) (vision : Z)
    (ignoreMarker : bool) (coordValue : MapValueEnum) (nextCoordinate : Coordinate) : Prop :=
  coordValue <> DISPENSER
  /\ (coordValue = AGENT -> vision < manhattanDistance d startCoordinate nextCoordinate)
  /\ (coordValue = MARKER ->
      ignoreMarker = true \/ vision < manhattanDistance d startCoordinate nextCoordinate).

Lemma passableForAgent_spec (d : Dims) (startCoordinate nextCoordinate : Coordinate)
    (vision : Z) (ignoreMarker : bool) (coordValue : MapValueEnum) :
  inValues coordValue [EMPTY; OBSTACLE; UNKNOWN; BLOCK]
  || (MapValueEnum_eqb coordValue MARKER
      && (ignoreMarker || (vision <? manhattanDistance d startCoordinate nextCoordinate)))
  || (MapValueEnum_eqb coordValue AGENT
      && (vision <? manhattanDistance d startCoordinate nextCoordinate)) = true
  <-> agentCanEnter d startCoordinate vision ignoreMarker coordValue nextCoordinate.
Proof.
  unfold agentCanEnter.
  destruct (Z.ltb_spec vision (manhattanDistance d startCoordinate nextCoordinate)) as [Far|Near];
    destruct coordValue, ignoreMarker; cbn; split;
    try (intros _; repeat split; try discriminate; intros; auto; fail);
    try discriminate;
    intros [Nd [Ha Hm]]; try reflexivity; try (now contradiction Nd);
    try (specialize (Ha eq_refl); lia);
    try (destruct (Hm eq_refl) as [?|?]; [discriminate|lia]).
Qed.

Lemma getAdjacentDirections_returns (self : Direction) :
  exists l r, getAdjacentDirections self = Ok (l, r).
Proof. destruct self; cbn; eauto. Qed.

Lemma canRotateThrough_returns (d : Dims) (map : DynamicMap) (startCoordinate : Coordinate)
    (vision : Z) (ignoreMarker : bool) (checkableCoords : list Coordinate) :
  exists b, canRotateThrough d map startCoordinate vision ignoreMarker checkableCoords = Ok b.
Proof.
  unfold canRotateThrough. apply all_result_returns. intros c.
  destruct (getMapValueEnum_returns map c ignoreMarker false) as [e ->]. cbn [bind]. eauto.
Qed.

Lemma isCoordinatePassable_returns (d : Dims) (map : DynamicMap)
    (startCoordinate currentCoordinate nextCoordinate : Coordinate) (vision : Z)
    (ignoreMarker : bool) (attachedCoords : list Coordinate) :
  exists passable attacheds rotateDict coordValue,
    isCoordinatePassable d map startCoordinate currentCoordinate nextCoordinate vision
      ignoreMarker attachedCoords = Ok (passable, attacheds, rotateDict)
    /\ getMapValueEnum map nextCoordinate true false = Ok coordValue
    /\ List.length attacheds = List.length attachedCoords
    /\ (passable = true ->
        agentCanEnter d startCoordinate vision ignoreMarker coordValue nextCoordinate)
    /\ (attachedCoords = [] ->
        attacheds = [] /\ rotateDict = None
        /\ (agentCanEnter d startCoordinate vision ignoreMarker coordValue nextCoordinate ->
            passable = true)).
Proof.
  unfold isCoordinatePassable.
  destruct (getMapValueEnum_returns map nextCoordinate true false) as [coordValue E].
  rewrite E. cbn [bind].
  pose proof (passableForAgent_spec d startCoordinate nextCoordinate vision ignoreMarker
                coordValue) as P.
  destruct (inValues coordValue [EMPTY; OBSTACLE; UNKNOWN; BLOCK]
            || (MapValueEnum_eqb coordValue MARKER
                && (ignoreMarker
                    || (vision <? manhattanDistance d startCoordinate nextCoordinate)))
            || (MapValueEnum_eqb coordValue AGENT
                && (vision <? manhattanDistance d startCoordinate nextCoordinate))) eqn:T;
    cbn [negb].
  - assert (Can : agentCanEnter d startCoordinate vision ignoreMarker coordValue
                    nextCoordinate) by now apply P.
    destruct attachedCoords as [|attachedCoord [|second rest]].
    + exists true, [], None, coordValue. repeat split; auto; apply Can.
    + unfold isCoordinatePassableForSingleAttachment.
      destruct (isSameDirection _ _).
      * cbn [bind]. eexists _, _, _, coordValue. split; [reflexivity|].
        repeat split; auto; try apply Can; discriminate.
      * destruct (isOppositeDirection _ _).
        -- destruct (getAdjacentDirections_returns
                       (getDirection d currentCoordinate nextCoordinate)) as [l [r ->]].
           cbn [bind].
           match goal with
           | |- context [canRotateThrough ?a ?b ?c ?v ?i ?l] =>
               destruct (canRotateThrough_returns a b c v i l) as [bl ->]
           end. cbn [bind].
           match goal with
           | |- context [canRotateThrough ?a ?b ?c ?v ?i ?l] =>
               destruct (canRotateThrough_returns a b c v i l) as [br ->]
           end. cbn [bind].
           eexists _, _, _, coordValue. split; [reflexivity|].
           repeat split; auto; try apply Can; discriminate.
        -- match goal with
           | |- context [getMapValueEnum ?m ?c ?i false] =>
               destruct (getMapValueEnum_returns m c i false) as [rv ->]
           end. cbn [bind].
           eexists _, _, _, coordValue. split; [reflexivity|].
           repeat split; auto; try apply Can; discriminate.
    + assert (R : exists b,
                isCoordinatePassableForMultipleAttachements d map currentCoordinate
                  nextCoordinate ignoreMarker (attachedCoord :: second :: rest) = Ok b).
      { unfold isCoordinatePassableForMultipleAttachements. apply all_result_returns.
        intros coord. destruct (mem _ _); [eauto|].
        match goal with
        | |- context [getMapValueEnum ?m ?c ?i false] =>
            destruct (getMapValueEnum_returns m c i false) as [rv ->]
        end. cbn [bind]. eauto. }
      destruct R as [b ->]. cbn [bind].
      eexists _, _, _, coordValue. split; [reflexivity|].
      repeat split; auto; try apply Can; discriminate.
  - exists false, attachedCoords, None, coordValue.
    split; [reflexivity|]. split; [reflexivity|]. split; [reflexivity|].
    split; [discriminate|]. intros ->. repeat split. intros Can. apply P in Can. discriminate.
Qed.

Lemma passableNeighbors_spec (d : Dims) (map : DynamicMap)
    (startCoordinate currentCoordinate : Coordinate) (vision : Z) (ignoreMarker : bool)
    (attachedCoords : list Coordinate) (nexts : list Coordinate) :
  exists l,
    passableNeighbors d map startCoordinate currentCoordinate vision ignoreMarker
      attachedCoords nexts = Ok l
    /\ (forall n att rd, In (n, att, rd) l ->
          In n nexts
          /\ List.length att = List.length attachedCoords
          /\ exists coordValue,
               getMapValueEnum map n true false = Ok coordValue
               /\ agentCanEnter d startCoordinate vision ignoreMarker coordValue n)
    /\ (attachedCoords = [] ->
        forall n coordValue,
          In n nexts -> getMapValueEnum map n true false = Ok coordValue ->
          agentCanEnter d startCoordinate vision ignoreMarker coordValue n ->
          In (n, [], None) l)
    /\ (List.length l <= List.length nexts)%nat.
Proof.
  induction nexts as [|next rest [others [E [Sound [Complete Len]]]]]; cbn [passableNeighbors].
  - exists []. split; [reflexivity|]. split; [intros n att rd []|]. split; [|cbn; lia].
    intros _ n v [].
  - destruct (isCoordinatePassable_returns d map startCoordinate currentCoordinate next vision
                ignoreMarker attachedCoords)
      as [passable [attacheds [rotateDict [coordValue [P [V [L [Can Free]]]]]]]].
    rewrite P. cbn [bind]. rewrite E. cbn [bind]. eexists. split; [reflexivity|].
    split; [|split].
    + intros n att rd I.
      assert (Old : In (n, att, rd) others ->
                In n (next :: rest) /\ List.length att = List.length attachedCoords
                /\ exists coordValue0,
                     getMapValueEnum map n true false = Ok coordValue0
                     /\ agentCanEnter d startCoordinate vision ignoreMarker coordValue0 n).
      { intros I'. destruct (Sound n att rd I') as [In' Rest]. split; [now right|exact Rest]. }
      destruct passable; [|now apply Old].
      destruct I as [[= <- <- <-]|I]; [|now apply Old].
      split; [now left|]. split; [exact L|]. exists coordValue. split; [exact V|now apply Can].
    + intros Nil n v [<-|I] Vn Cn.
      * destruct (Free Nil) as [-> [-> Pass]]. rewrite V in Vn. injection Vn as <-.
        rewrite (Pass Cn). now left.
      * specialize (Complete Nil n v I Vn Cn). destruct passable; [now right|exact Complete].
    + destruct passable; cbn [List.length]; lia.
Qed.

(** X23.  Where the dimensions that are set are positive (at a dimension
    0 [neighbors()] raises [ZeroDivisionError]) and [random.shuffle]
    permutes the list, [getNeighbors] returns.  Every neighbour it offers is a
    cell of [neighbors()] of the current coordinate whose value the agent
    may enter (no dispenser; an agent only beyond the vision from the
    start; a marker only when markers are ignored or beyond the vision),
    with as many attached coordinates as the agent has; there are at most
    as many as [neighbors()] gives.  For an agent with nothing attached
    every such cell is offered, with an empty attachment and no rotation
    dictionary. *)
Theorem getNeighbors_passable (d : Dims) (shuffle : list Neighbor -> list Neighbor)
    (map : DynamicMap) (startCoordinate currentCoordinate : Coordinate) (vision : Z)
    (ignoreMarker : bool) (attachedCoords : list Coordinate) :
  dims_ok d ->
  (forall l, Permutation l (shuffle l)) ->
  exists l,
    getNeighbors d shuffle map startCoordinate currentCoordinate vision ignoreMarker
      attachedCoords = Ok l
    /\ (forall n att rd, In (n, att, rd) l ->
          In n (neighbors d currentCoordinate true 1 0)
          /\ List.length att = List.length attachedCoords
          /\ exists coordValue,
               getMapValueEnum map n true false = Ok coordValue
               /\ agentCanEnter d startCoordinate vision ignoreMarker coordValue n)
    /\ (attachedCoords = [] ->
        forall n coordValue,
          In n (neighbors d currentCoordinate true 1 0) ->
          getMapValueEnum map n true false = Ok coordValue ->
          agentCanEnter d startCoordinate vision ignoreMarker coordValue n ->
          In (n, [], None) l)
    /\ (List.length l <= List.length (neighbors d currentCoordinate true 1 0))%nat.
Proof.
  intros _ Shuffled. unfold getNeighbors.
  destruct (passableNeighbors_spec d map startCoordinate currentCoordinate vision ignoreMarker
              attachedCoords (neighbors d currentCoordinate true 1 0))
    as [l [E [Sound [Complete Len]]]].
  rewrite E. cbn [bind]. exists (shuffle l). split; [reflexivity|].
  pose proof (Shuffled l) as P. split; [|split].
  - intros n att rd I. apply (Sound n att rd).
    now apply (Permutation_in _ (Permutation_sym P)).
  - intros Nil n v I V C. apply (Permutation_in _ P). now apply (Complete Nil n v).
  - rewrite <- (Permutation_length P). exact Len.
Qed.

Lemma getNeighbors_passable_witness :
  let map :=
    withContents (newDynamicMap no_dims 1 "agentA" 10 60)
      [(XY 0 0, MkMapValue AGENT "A" 3); (XY 1 0, MkMapValue AGENT "A" 3);
       (XY 0 1, MkMapValue OBSTACLE "" 3)] [] [] in
  exists l,
    getNeighbors no_dims (fun l => l) map (XY 0 0) (XY 0 0) 5 false [] = Ok l
    /\ In (XY 0 1, [], None) l /\ ~ In (XY 1 0, [], None) l.
Proof.
  intros map.
  destruct (getNeighbors_passable no_dims (fun l => l) map (XY 0 0) (XY 0 0) 5 false [])
    as [l [E [Sound [Complete _]]]].
  - split; exact I.
  - intros l. apply Permutation_refl.
  - exists l. split; [exact E|]. split.
    + apply (Complete eq_refl (XY 0 1) OBSTACLE).
      * vm_compute. auto 10.
      * reflexivity.
      * repeat split; discriminate.
    + intros I. destruct (Sound (XY 1 0) [] None I) as [_ [_ [v [V [_ [A _]]]]]].
      vm_compute in V. injection V as <-. specialize (A eq_refl). vm_compute in A.
      discriminate.
Defined.
